(** * pydsge: the system compiler [get_sys] and the parameter store
      [get_par] / [set_par] of [pydsge/core.py]

    The development embeds the three functions of [core.py] that compile a
    DSGE model with an occasionally binding constraint and that read and
    write its parameters.  The model object [self] becomes a record with one
    optional field per attribute that the code creates at run time
    ([hasattr] is [is_Some]); a Python call becomes a function from the
    world before the call to the world after it and either a value or the
    exception raised, so an attribute assigned before a [raise] stays
    assigned.

    Numbers are kept abstract: the entries of all vectors and matrices live
    in a type [num] with the few operations the code applies to them, and
    the routines of numpy and grgrlib that the code calls ([svd], [inv],
    [re_bk], [eig], ...) are fields of the same interface.  Rounding of
    floating-point arithmetic is therefore not part of the model. *)

From Stdlib Require Import ZArith QArith Qabs Qround String List Bool Lia.
From stdpp Require Import base option list gmap strings pretty.

Local Open Scope string_scope.
Local Open Scope nat_scope.
Local Open Scope list_scope.

(** ** Exceptions and results *)

Inductive exn : Type :=
  | NotImplementedError (msg : string)
  | ValueError (msg : string)
  | KeyError (msg : string)
  | IndexError (msg : string)
  | SyntaxError (msg : string)
  | TypeError (msg : string)
  | LinAlgError (msg : string)
  | AttributeError (msg : string).

Inductive result (A : Type) : Type :=
  | Ok (a : A)
  | Raise (e : exn).
Arguments Ok {A} a.
Arguments Raise {A} e.

Definition rbind {A B} (r : result A) (k : A -> result B) : result B :=
  match r with
  | Ok a => k a
  | Raise e => Raise e
  end.

Definition is_ok {A} (r : result A) : bool :=
  match r with Ok _ => true | Raise _ => false end.

Definition exn_of {A} (r : result A) : option exn :=
  match r with Ok _ => None | Raise e => Some e end.

(** ** Arrays

    A one-dimensional array is a list.  A two-dimensional array keeps its
    number of columns next to its rows, so that an array with no rows still
    has a width, as [numpy] arrays of shape [(0, k)] do. *)

Record matrix (A : Type) : Type := Mat {
  ncols : nat;
  rows : list (list A)
}.
Arguments Mat {A} ncols rows.
Arguments ncols {A} m.
Arguments rows {A} m.

Definition nrows {A} (m : matrix A) : nat := length (rows m).

Definition shape {A} (m : matrix A) : nat * nat := (nrows m, ncols m).

(** [a[mask]] for a boolean [mask] of the length of [a]. *)
Fixpoint compress {A} (mask : list bool) (l : list A) : list A :=
  match mask, l with
  | b :: mask', x :: l' => if b then x :: compress mask' l' else compress mask' l'
  | _, _ => []
  end.

(** [sum(mask)], the number of [True] entries. *)
Definition count_true (mask : list bool) : nat :=
  length (filter (fun b => b = true) mask).

Definition bad_mask : exn :=
  IndexError "boolean index did not match indexed array".

Definition bad_shape : exn :=
  ValueError "operands could not be broadcast together".

Definition vsel {A} (mask : list bool) (v : list A) : result (list A) :=
  if length mask =? length v then Ok (compress mask v) else Raise bad_mask.

(** [m[mask]]: the rows picked by a boolean mask, as a new array. *)
Definition sel_rows {A} (mask : list bool) (m : matrix A) : result (matrix A) :=
  if length mask =? nrows m
  then Ok (Mat (ncols m) (compress mask (rows m)))
  else Raise bad_mask.

(** [m[:, mask]]: the columns picked by a boolean mask, as a new array. *)
Definition sel_cols {A} (mask : list bool) (m : matrix A) : result (matrix A) :=
  if length mask =? ncols m
  then Ok (Mat (count_true mask) (map (compress mask) (rows m)))
  else Raise bad_mask.

(** [m[mask][:, mask']] read as a value. *)
Definition sel_both {A} (mask mask' : list bool) (m : matrix A) : result (matrix A) :=
  rbind (sel_rows mask m) (sel_cols mask').

(** [np.delete(v, j)] and [np.delete(m, j, 1)]. *)
Definition vdelete {A} (j : nat) (v : list A) : result (list A) :=
  if j <? length v then Ok (take j v ++ drop (S j) v)
  else Raise (IndexError "index out of bounds").

Definition delete_col {A} (j : nat) (m : matrix A) : result (matrix A) :=
  if j <? ncols m
  then Ok (Mat (Nat.pred (ncols m)) (map (fun r => take j r ++ drop (S j) r) (rows m)))
  else Raise (IndexError "index out of bounds").

(** [v[-k:]] and [m[-k:]]; for [k = 0] Python reads [v[-0:]], the whole
    array. *)
Definition last_n {A} (k : nat) (l : list A) : list A :=
  if k =? 0 then l else drop (length l - k) l.

Definition first_n {A} (k : nat) (l : list A) : list A := take k l.

(** [v[-k:] = w], an assignment through a slice, which writes in place. *)
Definition set_last_n {A} (k : nat) (w l : list A) : result (list A) :=
  let tgt := length (last_n k l) in
  if length w =? tgt then Ok (take (length l - tgt) l ++ w)
  else match w with
       | [x] => Ok (take (length l - tgt) l ++ replicate tgt x)
       | _ => Raise bad_shape
       end.

(** Elementwise operation on two one-dimensional arrays, with numpy's
    broadcasting of an array of length one. *)
Definition broadcast2 {A B C} (f : A -> B -> C) (a : list A) (b : list B)
  : result (list C) :=
  if length a =? length b then Ok (zip_with f a b)
  else match a, b with
       | [x], _ => Ok (map (f x) b)
       | _, [y] => Ok (map (fun x => f x y) a)
       | _, _ => Raise bad_shape
       end.

Definition vand : list bool -> list bool -> result (list bool) := broadcast2 andb.
Definition vor : list bool -> list bool -> result (list bool) := broadcast2 orb.
Definition vnot (m : list bool) : list bool := map negb m.

(** [list.index]. *)
Fixpoint index_of (x : string) (l : list string) : option nat :=
  match l with
  | [] => None
  | y :: l' => if String.eqb x y then Some 0 else option_map S (index_of x l')
  end.

Definition mem (x : string) (l : list string) : bool :=
  match index_of x l with Some _ => true | None => false end.

(** [len(s)] of a Python string, the number of its code points.  A string
    is kept here as the bytes of its UTF-8 encoding, in which the bytes
    [10xxxxxx] continue a code point and every other byte begins one. *)
Definition continuation (c : Ascii.ascii) : bool :=
  let n := Ascii.nat_of_ascii c in (128 <=? n) && (n <? 192).

Fixpoint py_len (s : string) : nat :=
  match s with
  | EmptyString => 0
  | String c s' => if continuation c then py_len s' else S (py_len s')
  end.

Definition list_index (x : string) (l : list string) : result nat :=
  match index_of x l with
  | Some i => Ok i
  | None => Raise (ValueError (x +:+ " is not in list"))
  end.

(** [l[i]] and [l[i] = x] for a non-negative index. *)
Definition getitem {A} (l : list A) (i : nat) : result A :=
  match l !! i with
  | Some x => Ok x
  | None => Raise (IndexError "index out of range")
  end.

Definition setitem {A} (l : list A) (i : nat) (x : A) : result (list A) :=
  if i <? length l then Ok (<[i := x]> l)
  else Raise (IndexError "index out of range").

(** [a[idx]] and [a[idx] = w] for an integer index array [idx]. *)
Fixpoint take_idx {A} (l : list A) (idx : list nat) : result (list A) :=
  match idx with
  | [] => Ok []
  | i :: idx' =>
      rbind (getitem l i) (fun x =>
      rbind (take_idx l idx') (fun xs => Ok (x :: xs)))
  end.

Fixpoint put_pairs {A} (l : list A) (idx : list nat) (w : list A) : result (list A) :=
  match idx, w with
  | i :: idx', x :: w' => rbind (setitem l i x) (fun l' => put_pairs l' idx' w')
  | _, _ => Ok l
  end.

Definition put_idx {A} (l : list A) (idx : list nat) (w : list A) : result (list A) :=
  if length w =? length idx then put_pairs l idx w
  else match w with
       | [x] => put_pairs l idx (replicate (length idx) x)
       | _ => Raise bad_shape
       end.

(** ** Numbers and the numerical libraries

    [num] stands for numpy's [float64]; [tol8] is the literal [1e-08],
    [half] is [.5], [ten] is [10] and [milli] is [1e-3].  [svd], [inv] and
    [det] are [numpy.linalg]'s, [re_bk] and [eig] are grgrlib's (Klein's
    solver and the moduli of the eigenvalues), [round_to] is [np.round]. *)

Record numlib : Type := NumLib {
  num : Type;
  zero : num;
  one : num;
  add : num -> num -> num;
  mul : num -> num -> num;
  opp : num -> num;
  absn : num -> num;
  ltb : num -> num -> bool;
  is_zero : num -> bool;
  tol8 : num;
  half : num;
  ten : num;
  milli : num;
  round_to : nat -> num -> num;
  svd : matrix num -> result (matrix num * list num * matrix num);
  inv : matrix num -> result (matrix num);
  det : matrix num -> result num;
  re_bk : matrix num -> matrix num -> nat -> result (matrix num);
  eig : matrix num -> result (list num)
}.

Module Arr.
Section Arrays.

Context {L : numlib}.
Local Abbreviation num := (num L).
Local Abbreviation vec := (list num).
Local Abbreviation mat := (matrix num).

Definition entry (m : mat) (i j : nat) : num :=
  default (zero L) (rows m !! i ≫= (fun r => r !! j)).

(** [m[:, j]] *)
Definition col (j : nat) (m : mat) : vec :=
  map (fun r => default (zero L) (r !! j)) (rows m).

Definition getcol (m : mat) (j : nat) : result vec :=
  if j <? ncols m then Ok (col j m) else Raise (IndexError "index out of bounds").

Definition tabulate (r c : nat) (f : nat -> nat -> num) : mat :=
  Mat c (map (fun i => map (f i) (seq 0 c)) (seq 0 r)).

Definition zeros (r c : nat) : mat := Mat c (replicate r (replicate c (zero L))).

Definition eye (n : nat) : mat :=
  tabulate n n (fun i j => if i =? j then one L else zero L).

Definition transpose (m : mat) : mat :=
  Mat (nrows m) (map (fun j => col j m) (seq 0 (ncols m))).

Definition neg (m : mat) : mat := Mat (ncols m) (map (map (opp L)) (rows m)).

Definition dot (a b : vec) : num :=
  fold_right (add L) (zero L) (zip_with (mul L) a b).

(** [a @ b] for two-dimensional [a], [b]. *)
Definition mmul (a b : mat) : result mat :=
  if ncols a =? nrows b
  then Ok (Mat (ncols b)
             (map (fun r => map (fun j => dot r (col j b)) (seq 0 (ncols b))) (rows a)))
  else Raise (ValueError "matmul: mismatch in core dimension").

(** [a @ v] for two-dimensional [a] and one-dimensional [v]. *)
Definition mvmul (a : mat) (v : vec) : result vec :=
  if ncols a =? length v
  then Ok (map (fun r => dot r v) (rows a))
  else Raise (ValueError "matmul: mismatch in core dimension").

Definition vscale (v : vec) (x : num) : vec := map (fun y => mul L y x) v.

(** [np.outer(c, b)] *)
Definition outer (c b : vec) : mat := Mat (length b) (map (fun ci => map (mul L ci) b) c).

(** One axis of numpy's broadcasting rule. *)
Definition bc_dim (a b : nat) : option nat :=
  if a =? b then Some a
  else if a =? 1 then Some b
  else if b =? 1 then Some a
  else None.

Definition bc_at (dim i : nat) : nat := if dim =? 1 then 0 else i.

(** [a + b] for two-dimensional [a], [b]. *)
Definition madd (a b : mat) : result mat :=
  match bc_dim (nrows a) (nrows b), bc_dim (ncols a) (ncols b) with
  | Some r, Some c =>
      Ok (tabulate r c (fun i j =>
            add L (entry a (bc_at (nrows a) i) (bc_at (ncols a) j))
                  (entry b (bc_at (nrows b) i) (bc_at (ncols b) j))))
  | _, _ => Raise bad_shape
  end.

Definition hstack (a b : mat) : result mat :=
  if nrows a =? nrows b
  then Ok (Mat (ncols a + ncols b) (zip_with app (rows a) (rows b)))
  else Raise (ValueError "all the input array dimensions except for the concatenation axis must match exactly").

Definition vstack (a b : mat) : result mat :=
  if ncols a =? ncols b
  then Ok (Mat (ncols a) (rows a ++ rows b))
  else Raise (ValueError "all the input array dimensions except for the concatenation axis must match exactly").

(** [np.block([[a, b], [c, d]])] *)
Definition block (a b c d : mat) : result mat :=
  rbind (hstack a b) (fun top =>
  rbind (hstack c d) (fun bot => vstack top bot)).

(** [p[mask] = n[mask]]: the rows of [p] picked by [mask] are overwritten
    in place by the rows of [n] picked by the same mask. *)
Fixpoint overwrite_rows (mask : list bool) (p n : list vec) : list vec :=
  match mask, p, n with
  | b :: mask', rp :: p', rn :: n' =>
      (if b then rn else rp) :: overwrite_rows mask' p' n'
  | _, _, _ => p
  end.

Definition set_rows (mask : list bool) (p n : mat) : result mat :=
  if negb (length mask =? nrows n) then Raise bad_mask
  else if negb (length mask =? nrows p) then Raise bad_mask
  else if ncols n =? ncols p then Ok (Mat (ncols p) (overwrite_rows mask (rows p) (rows n)))
  else if ncols n =? 1
       then Ok (Mat (ncols p)
                  (overwrite_rows mask (rows p)
                     (map (fun r => replicate (ncols p) (default (zero L) (r !! 0))) (rows n))))
  else Raise bad_shape.

(** *** grgrlib's [fast0]

    [fast0(A, mode, tol=1e-08)] compares [abs(A) < tol] entry by entry and
    returns the comparison itself (no mode), its conjunction down each
    column (mode 0) or over all entries (mode 2). *)

Definition near0 (x : num) : bool := ltb L (absn L x) (tol8 L).

Definition fast0 (v : vec) : list bool := map near0 v.

Definition fast0_cols (m : mat) : list bool :=
  map (fun j => forallb near0 (col j m)) (seq 0 (ncols m)).

Definition fast0_all (v : vec) : bool := forallb near0 v.

(** [np.where(m)[1]]: the column index of every non-zero entry, row by row. *)
Definition where_cols (m : mat) : list nat :=
  flat_map (fun r => filter (fun j => negb (is_zero L (default (zero L) (r !! j))))
                            (seq 0 (ncols m))) (rows m).

End Arrays.
End Arr.

(** ** The model object *)

Section Model.

Context {L : numlib}.
Local Abbreviation num := (num L).
Local Abbreviation vec := (list num).
Local Abbreviation mat := (matrix num).

(** The tuple [self.sys = N2, A2, J2, cx[~out_msk], b2[~out_msk], x_bar]. *)
Record sys_t : Type := Sys {
  sys_N2 : mat;
  sys_A2 : mat;
  sys_J2 : mat;
  sys_cx : vec;
  sys_b2 : vec;
  sys_x_bar : num
}.

(** An entry [self.prior[pp]]: the distribution name at position [3] and
    the two last positions [-2] and [-1]. *)
Record prior_entry : Type := PriorEntry {
  pr_dist : string;
  pr_m2 : num;
  pr_m1 : num
}.

(** The keys of [self.fdict] that [core.py] reads or writes; a key that is
    absent reads as [None]. *)
Record fdict_t : Type := Fdict {
  fd_reduce_sys : option bool;
  fd_ignore_tests : option bool;
  fd_mode_x : option vec;
  fd_mcmc_mode_x : option vec;
  fd_init_value : option (list (option num))
}.

(** The attributes of [self.filter] that [set_par] touches. *)
Record filter_t : Type := Filter {
  f_name : string;
  f_eps_cov : option mat;
  f_Q : option mat
}.

(** What the parser of the model file leaves on [self] and [core.py]
    only reads.  [pcompile] raising [AttributeError] stands for the
    attribute being absent. *)
Record model_t : Type := Model {
  variables : list string;
  const_var : option string;
  parameters : list string;
  parafunc_names : list string;
  parafunc_fun : vec -> result vec;
  p0 : vec;
  pcompile : vec -> result vec;
  compile : vec -> result vec;
  AA : vec -> mat;
  BB : vec -> mat;
  CC : vec -> mat;
  bb : vec -> vec;
  PSI : vec -> mat;
  ZZ : vec -> mat;
  DD : vec -> vec;
  QQ : vec -> mat;
  par_fix : vec;
  prior_arg : list nat;
  prior_names : list string;
  prior : list (string * prior_entry);
  ndim : nat
}.

(** [self]: the model and the attributes that [get_sys] and [set_par]
    create and overwrite.  [precalc_mat] keeps of the precomputed arrays
    the block [precalc_mat[0][1, 0, 1]], the only part that [core.py]
    reads. *)
Record dsge : Type := Dsge {
  model :> model_t;
  fdict : fdict_t;
  lks : option (Z * Z);
  par : option vec;
  ppar : option vec;
  out_msk : option (list bool);
  P : option mat;
  vv : option (list string);
  vx : option (list string);
  dim_x : option nat;
  dim_v : option nat;
  hx : option (mat * vec);
  obs_arg : option (list nat);
  SIG : option mat;
  sys : option sys_t;
  precalc_mat : option mat;
  filter : option filter_t
}.

(** What the process prints. *)
Inductive line : Type :=
  | Line (text : string)
  | LineNum (text : string) (x : num)
  | LineVal (name : string) (x : num)
  | LineMat (name : string) (x : mat)
  | LineDicts (text : string) (pdict pfdict : list (string * num)).

(** The world: the model object, the text printed so far (latest line
    first) and the arrays of the caller that are passed by reference. *)
Record world : Type := World {
  self : dsge;
  stdout : list line;
  heap : gmap positive vec
}.

(** *** Attribute assignment *)

Definition set_fdict (v : fdict_t) (m : dsge) : dsge :=
  Dsge (model m)
    v (lks m) (par m) (ppar m) (out_msk m) (P m) (vv m) (vx m) (dim_x m)
    (dim_v m) (hx m) (obs_arg m) (SIG m) (sys m) (precalc_mat m) (filter m).

Definition set_lks (v : option (Z * Z)) (m : dsge) : dsge :=
  Dsge (model m)
    (fdict m) v (par m) (ppar m) (out_msk m) (P m) (vv m) (vx m) (dim_x m)
    (dim_v m) (hx m) (obs_arg m) (SIG m) (sys m) (precalc_mat m) (filter m).

Definition set_par_attr (v : option vec) (m : dsge) : dsge :=
  Dsge (model m)
    (fdict m) (lks m) v (ppar m) (out_msk m) (P m) (vv m) (vx m) (dim_x m)
    (dim_v m) (hx m) (obs_arg m) (SIG m) (sys m) (precalc_mat m) (filter m).

Definition set_ppar (v : option vec) (m : dsge) : dsge :=
  Dsge (model m)
    (fdict m) (lks m) (par m) v (out_msk m) (P m) (vv m) (vx m) (dim_x m)
    (dim_v m) (hx m) (obs_arg m) (SIG m) (sys m) (precalc_mat m) (filter m).

Definition set_out_msk (v : option (list bool)) (m : dsge) : dsge :=
  Dsge (model m)
    (fdict m) (lks m) (par m) (ppar m) v (P m) (vv m) (vx m) (dim_x m)
    (dim_v m) (hx m) (obs_arg m) (SIG m) (sys m) (precalc_mat m) (filter m).

Definition set_P (v : option mat) (m : dsge) : dsge :=
  Dsge (model m)
    (fdict m) (lks m) (par m) (ppar m) (out_msk m) v (vv m) (vx m) (dim_x m)
    (dim_v m) (hx m) (obs_arg m) (SIG m) (sys m) (precalc_mat m) (filter m).

(** The assignments [self.vv], [self.vx], [self.dim_x], [self.dim_v] of
    lines 193 to 196, none of which can raise between the first and the
    last. *)
Definition set_names (a b : list string) (dx dv : nat) (m : dsge) : dsge :=
  Dsge (model m)
    (fdict m) (lks m) (par m) (ppar m) (out_msk m) (P m) (Some a) (Some b) (Some dx)
    (Some dv) (hx m) (obs_arg m) (SIG m) (sys m) (precalc_mat m) (filter m).

Definition set_hx (v : mat * vec) (oa : list nat) (m : dsge) : dsge :=
  Dsge (model m)
    (fdict m) (lks m) (par m) (ppar m) (out_msk m) (P m) (vv m) (vx m) (dim_x m)
    (dim_v m) (Some v) (Some oa) (SIG m) (sys m) (precalc_mat m) (filter m).

Definition set_SIG (v : mat) (m : dsge) : dsge :=
  Dsge (model m)
    (fdict m) (lks m) (par m) (ppar m) (out_msk m) (P m) (vv m) (vx m) (dim_x m)
    (dim_v m) (hx m) (obs_arg m) (Some v) (sys m) (precalc_mat m) (filter m).

Definition set_sys (v : sys_t) (m : dsge) : dsge :=
  Dsge (model m)
    (fdict m) (lks m) (par m) (ppar m) (out_msk m) (P m) (vv m) (vx m) (dim_x m)
    (dim_v m) (hx m) (obs_arg m) (SIG m) (Some v) (precalc_mat m) (filter m).

Definition set_precalc_mat (v : mat) (m : dsge) : dsge :=
  Dsge (model m)
    (fdict m) (lks m) (par m) (ppar m) (out_msk m) (P m) (vv m) (vx m) (dim_x m)
    (dim_v m) (hx m) (obs_arg m) (SIG m) (sys m) (Some v) (filter m).

Definition set_filter (v : option filter_t) (m : dsge) : dsge :=
  Dsge (model m)
    (fdict m) (lks m) (par m) (ppar m) (out_msk m) (P m) (vv m) (vx m) (dim_x m)
    (dim_v m) (hx m) (obs_arg m) (SIG m) (sys m) (precalc_mat m) v.

(** *** Calls: state and exceptions *)

Definition call (A : Type) : Type := world -> world * result A.

Definition ret {A} (a : A) : call A := fun w => (w, Ok a).

Definition raise {A} (e : exn) : call A := fun w => (w, Raise e).

Definition bind {A B} (c : call A) (k : A -> call B) : call B :=
  fun w => match c w with
           | (w', Ok a) => k a w'
           | (w', Raise e) => (w', Raise e)
           end.

Definition lift {A} (r : result A) : call A := fun w => (w, r).

(** [try: c  except: h] with a bare [except]. *)
Definition try_except {A} (c : call A) (h : call A) : call A :=
  fun w => match c w with
           | (w', Ok a) => (w', Ok a)
           | (w', Raise _) => h w'
           end.

Definition get_self : call dsge := fun w => (w, Ok (self w)).

Definition assign (f : dsge -> dsge) : call unit :=
  fun w => (World (f (self w)) (stdout w) (heap w), Ok tt).

Definition print (l : line) : call unit :=
  fun w => (World (self w) (l :: stdout w) (heap w), Ok tt).

Definition when (b : bool) (c : call unit) : call unit :=
  if b then c else ret tt.

Local Notation "'let!' x ':=' c 'in' k" := (bind c (fun x => k))
  (at level 10, x name, c at level 100, k at level 200).
Local Notation "'let!' ' p ':=' c 'in' k" := (bind c (fun p => k))
  (at level 10, p strict pattern, c at level 100, k at level 200).
Local Notation "c ';;!' k" := (bind c (fun _ => k))
  (at level 100, k at level 200, right associativity).

(** ** The rest of the package

    [preprocess] is [pydsge.engine.preprocess], reduced to what it leaves
    in [self.precalc_mat] for the system, [l_max] and [k_max] it is given;
    [post_mean] is [pydsge.stats.post_mean].  The two samplers and numpy's
    random generator draw random numbers and are calls on the world.
    [str_to_float] is numpy's conversion of a string that is assigned into
    an array of floats; it raises [ValueError] for a string that is no
    numeral. *)

Record collab : Type := Collab {
  preprocess : sys_t -> Z -> Z -> result mat;
  post_mean : dsge -> result vec;
  prior_sampler : nat -> world -> world * result (list vec);
  posterior_sampler : nat -> world -> world * result (list vec);
  randn : nat -> nat -> world -> world * result (list vec);
  str_to_float : string -> result num
}.

Variable C : collab.

(** ** [get_sys] *)

(** The keyword arguments of [get_sys] other than [par] and [verbose]. *)
Record gs_kwargs : Type := GsKwargs {
  kw_reduce_sys : option bool;
  kw_l_max : option Z;
  kw_k_max : option Z;
  kw_linear : bool;
  kw_tol : num;
  kw_ignore_tests : option bool
}.

(** The defaults of the signature. *)
Definition gs_defaults : gs_kwargs :=
  GsKwargs None None None false (tol8 L) (Some false).

(** Truth value of an optional flag: [None] and [False] are false. *)
Definition truthy (b : option bool) : bool := default false b.

Definition tag_get_sys : string := "[get_sys:]     ".

(** Lines 40 to 68: the solver depths and the two flags are settled and
    stored. *)
Definition gs_settings (kw : gs_kwargs) : call (option bool * option bool) :=
  let! m := get_self in
  let reduce_sys :=
    match kw_reduce_sys kw with Some b => Some b | None => fd_reduce_sys (fdict m) end in
  let ignore_tests :=
    match kw_ignore_tests kw with Some b => Some b | None => fd_ignore_tests (fdict m) end in
  let! l_max :=
    match kw_l_max kw with
    | Some l =>
        let! l' :=
          if (l <? 2)%Z
          then print (Line (tag_get_sys +:+ " `l_max` must be at least 2 (is "
                              +:+ pretty l +:+ "). Correcting..."))
               ;;! ret 2%Z
          else ret l in
        ret (l' + 1)%Z
    | None =>
        match lks m with
        | Some lk => ret (fst lk)
        | None => ret (if kw_linear kw then 1%Z else 3%Z)
        end
    end in
  let k_max :=
    match kw_k_max kw with
    | Some k => k
    | None =>
        match lks m with
        | Some lk => snd lk
        | None => if kw_linear kw then 0%Z else 17%Z
        end
    end in
  assign (set_lks (Some (l_max, k_max))) ;;!
  assign (fun m => set_fdict (Fdict reduce_sys (fd_ignore_tests (fdict m))
                                (fd_mode_x (fdict m)) (fd_mcmc_mode_x (fdict m))
                                (fd_init_value (fdict m))) m) ;;!
  assign (fun m => set_fdict (Fdict (fd_reduce_sys (fdict m)) ignore_tests
                                (fd_mode_x (fdict m)) (fd_mcmc_mode_x (fdict m))
                                (fd_init_value (fdict m))) m) ;;!
  ret (reduce_sys, ignore_tests).

(** Lines 70 to 80: the parameters are parsed and stored, and a model
    without a constraint is refused. *)
Definition gs_parse (par : option vec) : call (vec * vec * string) :=
  let! m := get_self in
  let par := match par with None => p0 m | Some p => p end in
  let! ppar :=
    lift (match pcompile m par with
          | Raise (AttributeError _) => compile m par
          | r => r
          end) in
  assign (set_par_attr (Some par)) ;;!
  assign (set_ppar (Some ppar)) ;;!
  match const_var m with
  | None => raise (NotImplementedError "Package is only meant to work with OBCs")
  | Some cv => ret (par, ppar, cv)
  end.

(** The local variables of lines 82 to 142 that later lines read. *)
Record desing : Type := Desing {
  d_dim_x : nat;
  d_vv_x3 : list string;
  d_BB : mat;
  d_D : mat;
  d_c1 : vec;
  d_c_P : vec;
  d_b2 : vec;
  d_N1 : mat;
  d_P1 : mat;
  d_J : mat;
  d_U : mat;
  d_s : vec;
  d_s0 : list bool;
  d_P2 : mat;
  d_N2 : mat;
  d_c2 : vec
}.

(** Lines 82 to 142: the extended system, the elimination of the
    constraint variable, Klein's solution and the desingularization of
    [P]. *)
Definition desingularize (m : model_t) (ppar : vec) (cv : string) (tol : num)
  : result desing :=
  let vv_v := variables m in
  let dim_v := length vv_v in
  let AA := AA m ppar in
  let BB := BB m ppar in
  let CC := CC m ppar in
  let bb := bb m ppar in
  let D := PSI m ppar in
  rbind (vor (vnot (Arr.fast0_cols AA)) (vnot (Arr.fast0 (first_n dim_v bb)))) (fun in_x =>
  rbind (vsel in_x vv_v) (fun vv_x2 =>
  rbind (sel_cols in_x AA) (fun A1 =>
  rbind (vsel in_x (first_n dim_v bb)) (fun bbx =>
  let b1 := bbx ++ drop dim_v bb in
  let dim_x := length vv_x2 in
  rbind (Arr.block (Arr.zeros (nrows A1) (ncols A1)) CC
                   (Arr.eye dim_x) (Arr.zeros dim_x dim_v)) (fun N =>
  rbind (sel_rows in_x (Arr.eye dim_v)) (fun eye_x =>
  rbind (Arr.block (Arr.neg A1) (Arr.neg BB) (Arr.zeros dim_x dim_x) eye_x) (fun P =>
  rbind (list_index cv vv_x2) (fun c_arg =>
  rbind (Arr.getcol N c_arg) (fun c1 =>
  rbind (Arr.getcol P c_arg) (fun c_P =>
  rbind (vdelete c_arg b1) (fun b2 =>
  rbind (delete_col c_arg N) (fun N1 =>
  rbind (delete_col c_arg P) (fun P1 =>
  rbind (vdelete c_arg vv_x2) (fun vv_x3 =>
  let dim_x := length vv_x3 in
  rbind (Arr.madd N1 (Arr.outer c1 b2)) (fun M1 =>
  rbind (re_bk L M1 P1 dim_x) (fun OME =>
  rbind (Arr.hstack (Arr.eye dim_x) (Arr.neg OME)) (fun J =>
  rbind (svd L P1) (fun '(U, s, V) =>
  let s0 := map (fun x => ltb L x tol) s in
  rbind (Arr.mmul (Arr.transpose U) P1) (fun P2 =>
  rbind (Arr.mmul (Arr.transpose U) N1) (fun N2 =>
  rbind (Arr.mvmul (Arr.transpose U) c1) (fun c2 =>
  rbind (Arr.set_rows s0 P2 N2) (fun P2 =>
  Ok (Desing dim_x vv_x3 BB D c1 c_P b2 N1 P1 J U s s0 P2 N2 c2)
  )))))))))))))))))))))).

Definition future_msg : string :=
  "The system depends directly or indirectly on whether the constraint holds in the future or not.
".

(** Line 144: [not fast0(c2[s0], 2) or not fast0(U.T[s0] @ c_P, 2)]; the
    second operand is evaluated only when the first is false. *)
Definition depends_on_future (d : desing) : result bool :=
  rbind (vsel (d_s0 d) (d_c2 d)) (fun c2s =>
  if negb (Arr.fast0_all c2s) then Ok true
  else
    rbind (sel_rows (d_s0 d) (Arr.transpose (d_U d))) (fun Us =>
    rbind (Arr.mvmul Us (d_c_P d)) (fun v =>
    Ok (negb (Arr.fast0_all v))))).

(** The two projections that line 144 tests, as values: the entries of
    [c2] in the rows of the near-zero singular values, and [U.T[s0] @ c_P]. *)
Definition c2_singular (d : desing) : vec := compress (d_s0 d) (d_c2 d).

Definition c_P_singular (d : desing) : vec :=
  map (fun r => Arr.dot r (d_c_P d)) (compress (d_s0 d) (rows (Arr.transpose (d_U d)))).

Definition xbar_msg : string :=
  "Parameter `x_bar` (maximum value of the constraint) not specified. Assuming x_bar = -1 for now.".

(** Lines 152 to 159. *)
Definition resolve_x_bar (par : vec) : call num :=
  let! m := get_self in
  if mem "x_bar" (parameters m)
  then lift (rbind (list_index "x_bar" (parameters m)) (getitem par))
  else if mem "x_bar" (parafunc_names m)
  then lift (rbind (parafunc_fun m par) (fun vals =>
             rbind (list_index "x_bar" (parafunc_names m)) (getitem vals)))
  else print (Line xbar_msg) ;;! ret (opp L (one L)).

(** Line 162, [cx = nl.inv(P2) @ c2*x_bar], read as
    [(nl.inv(P2) @ c2) * x_bar].  The handler for [ParafuncError] guards
    against an [x_bar] that is not a number, which the type of [x_bar]
    excludes here. *)
Definition displacement (d : desing) (x_bar : num) : result vec :=
  rbind (inv L (d_P2 d)) (fun Pi =>
  rbind (Arr.mvmul Pi (d_c2 d)) (fun v => Ok (Arr.vscale v x_bar))).

(** Lines 168 and 169. *)
Definition transitions (d : desing) : result (mat * mat) :=
  rbind (inv L (d_P2 d)) (fun Pi =>
  rbind (Arr.mmul Pi (d_N2 d)) (fun N =>
  rbind (inv L (d_P2 d)) (fun Pi' =>
  rbind (Arr.madd (d_N2 d) (Arr.outer (d_c2 d) (d_b2 d))) (fun S =>
  rbind (Arr.mmul Pi' S) (fun A => Ok (N, A)))))).

(** Lines 171 and 172: the reduction mask over the extended variables. *)
Definition reduction_mask (N A : mat) (b2 cx : vec) (ZZp : mat) (dim_v : nat)
  : result (list bool) :=
  rbind (vand (Arr.fast0_cols N) (Arr.fast0_cols A)) (fun m1 =>
  rbind (vand m1 (Arr.fast0 b2)) (fun m2 =>
  rbind (vand m2 (Arr.fast0 cx)) (fun out_msk =>
  rbind (vand (last_n dim_v out_msk) (Arr.fast0_cols ZZp)) (fun tail =>
  set_last_n dim_v tail out_msk)))).


Definition zero_at (v : vec) (i : nat) : Prop :=
  exists x, v !! i = Some x /\ Arr.near0 x = true.

(** Lines 176 and 177. *)
Definition applied_mask (reduce_sys : option bool) (dim_v : nat) (out_msk : list bool)
  : result (list bool) :=
  if negb (truthy reduce_sys) then set_last_n dim_v [false] out_msk
  else Ok out_msk.

(** *** The cached state-transition matrix (lines 181 to 190) *)

Definition mismatch_msg : string :=
  tag_get_sys +:+ " Shape missmatch of P-matrix, number of states seems to differ!".

Definition shape_eqb (a b : nat * nat) : bool :=
  (fst a =? fst b) && (snd a =? snd b).

(** One row of [t[:, mask] = value]: the entries of [row] under a true
    mask position are overwritten by the values in turn. *)
Fixpoint write_masked (mask : list bool) (row vals : vec) : vec :=
  match mask, row with
  | b :: mask', x :: row' =>
      if b
      then match vals with
           | y :: vals' => y :: write_masked mask' row' vals'
           | [] => x :: write_masked mask' row' []
           end
      else x :: write_masked mask' row' vals
  | _, _ => row
  end.

(** [t[:, mask] = value], an assignment into the array [t]: numpy
    broadcasts [value] to the shape of [t[:, mask]] and raises when it
    cannot; the result is the new content of [t]. *)
Definition set_cols (mask : list bool) (t value : mat) : result mat :=
  if negb (length mask =? ncols t) then Raise bad_mask
  else
    let k := count_true mask in
    if ((nrows value =? nrows t) || (nrows value =? 1))
       && ((ncols value =? k) || (ncols value =? 1))
    then Ok (Mat (ncols t)
               (imap (fun i row =>
                        write_masked mask row
                          (map (fun j => Arr.entry value (Arr.bc_at (nrows value) i)
                                                         (Arr.bc_at (ncols value) j))
                               (seq 0 k)))
                     (rows t)))
    else Raise (ValueError "shape mismatch: value array could not be broadcast to indexing result").

(** Lines 181 to 190.  In [P_new[~self.out_msk][:, ~self.out_msk] = self.P]
    the first index, a boolean mask, makes a new array out of the picked
    rows of [P_new]; the assignment then writes into that new array, which
    nothing refers to afterwards, and [P_new] keeps its zeros. *)
Definition reconcile_P (s_out_msk : list bool) : call unit :=
  let! m := get_self in
  match P m with
  | None => ret tt
  | Some P_old =>
      let live := count_true (vnot s_out_msk) in
      if nrows P_old <? live then
        match out_msk m with
        | None => raise (AttributeError "out_msk")
        | Some om =>
            let P_new := Arr.zeros (length om) (length om) in
            let! blk := lift (sel_both (vnot om) (vnot om) P_new) in
            when (negb (shape_eqb (shape blk) (shape P_old))) (print (Line mismatch_msg)) ;;!
            let! tmp := lift (sel_rows (vnot om) P_new) in
            let! _ := lift (set_cols (vnot om) tmp P_old) in
            assign (set_P (Some P_new))
        end
      else if live <? nrows P_old then
        let! P' := lift (sel_both (vnot s_out_msk) (vnot s_out_msk) P_old) in
        assign (set_P (Some P'))
      else ret tt
  end.

(** *** The whole of [get_sys] *)

(** The local variables at the end of a run of [get_sys]: the transition
    matrices before pruning, the mask of line 172 over the extended
    variables ([l_mask]) and the mask that is applied ([l_out_msk]). *)
Record gs_locals : Type := GsLocals {
  l_desing : desing;
  l_x_bar : num;
  l_cx : vec;
  l_N : mat;
  l_A : mat;
  l_mask : list bool;
  l_out_msk : list bool
}.

Definition explosive_msg (n : nat) : string :=
  "Explosive dynamics detected: " +:+ pretty n +:+ " EV(s) > 1".

(** Lines 215 to 220. *)
Definition stability_test : call unit :=
  let! m := get_self in
  match precalc_mat m with
  | None => raise (AttributeError "precalc_mat")
  | Some test_obj =>
      let! ev := lift (eig L (Mat (ncols test_obj)
                                 (last_n (ncols test_obj) (rows test_obj)))) in
      let test_con := map (fun e => ltb L (one L) e) ev in
      if existsb id test_con
      then raise (ValueError (explosive_msg (count_true test_con)))
      else ret tt
  end.

Definition get_sys_run (par : option vec) (kw : gs_kwargs) (verbose : nat)
  : call gs_locals :=
  let! '(reduce_sys, ignore_tests) := gs_settings kw in
  let! '(par, ppar, cv) := gs_parse par in
  let! m := get_self in
  let vv_v := variables m in
  let dim_v := length vv_v in
  let! d := lift (desingularize m ppar cv (kw_tol kw)) in
  let! bad := lift (depends_on_future d) in
  (if bad then raise (NotImplementedError future_msg) else ret tt) ;;!
  when (1 <? verbose)
    (let! dt := lift (det L (d_P2 d)) in
     print (LineNum (tag_get_sys +:+ " determinant of `P` is ") dt)) ;;!
  let! x_bar := resolve_x_bar par in
  let! cx := lift (displacement d x_bar) in
  let! '(N, A) := lift (transitions d) in
  let b2 := d_b2 d in
  let! mask := lift (reduction_mask N A b2 cx (ZZ m ppar) dim_v) in
  assign (set_out_msk (Some (last_n dim_v mask))) ;;!
  let! out_msk := lift (applied_mask reduce_sys dim_v mask) in
  let s_out_msk := last_n dim_v out_msk in
  reconcile_P s_out_msk ;;!
  let! vv := lift (vsel (vnot s_out_msk) vv_v) in
  assign (set_names vv (d_vv_x3 d) (d_dim_x d) (length vv)) ;;!
  let! hx0 := lift (sel_cols (vnot s_out_msk) (ZZ m ppar)) in
  assign (set_hx (hx0, DD m ppar) (Arr.where_cols hx0)) ;;!
  let! N2 := lift (sel_both (vnot out_msk) (vnot out_msk) N) in
  let! A2 := lift (sel_both (vnot out_msk) (vnot out_msk) A) in
  let! J2 := lift (sel_cols (vnot out_msk) (d_J d)) in
  let! SIG := lift (rbind (Arr.mmul (Arr.transpose (d_BB d)) (d_D d))
                          (sel_rows (vnot s_out_msk))) in
  assign (set_SIG SIG) ;;!
  let! cx2 := lift (vsel (vnot out_msk) cx) in
  let! b22 := lift (vsel (vnot out_msk) b2) in
  assign (set_sys (Sys N2 A2 J2 cx2 b22 x_bar)) ;;!
  when (0 <? verbose)
    (print (Line (tag_get_sys +:+ " Creation of system matrices finished."))) ;;!
  let! m' := get_self in
  let! pm :=
    lift (match sys m', lks m' with
          | Some s, Some lk => preprocess C s (fst lk) (snd lk)
          | _, _ => Raise (AttributeError "sys")
          end) in
  assign (set_precalc_mat pm) ;;!
  when (negb (truthy ignore_tests)) stability_test ;;!
  ret (GsLocals d x_bar cx N A mask out_msk).

Definition get_sys (par : option vec) (kw : gs_kwargs) (verbose : nat) : call unit :=
  get_sys_run par kw verbose ;;! ret tt.

(** ** [get_par] *)

(** The first argument of [get_par] and [set_par]: [None], a string or a
    vector. *)
Inductive dummy_t : Type :=
  | DNone
  | DStr (s : string)
  | DVec (v : vec).

(** What [get_par] and [set_par] return: a number, a vector, a matrix, a
    batch of vectors, a list that may still hold [None], dictionaries, or a
    reference to an array of the caller. *)
Inductive pyret : Type :=
  | RNum (x : num)
  | RVec (v : vec)
  | RMat (m : mat)
  | RSamples (xs : list vec)
  | ROpts (v : list (option num))
  | RDict (d : list (string * num))
  | RDictRows (d : list (string * vec))
  | RDicts (pdict pfdict : list (string * num))
  | RRef (l : positive).

(** The candidate for the estimated subset, [par_cand]. *)
Inductive cand : Type :=
  | CNum (x : num)
  | CVec (v : vec)
  | CBatch (xs : list vec)
  | COpts (v : list (option num)).

Record gp_kwargs : Type := GpKwargs {
  gp_npar : option vec;
  gp_asdict : bool;
  gp_full : bool;
  gp_nsamples : nat;
  gp_verbose : nat;
  gp_roundto : nat;
  gp_debug : bool;
  gp_args : gs_kwargs
}.

Definition gp_defaults : gp_kwargs :=
  GpKwargs None false true 1 0 5 false gs_defaults.

(** The keywords of the calls of [get_par] on itself. *)
Definition gp_inner (kw : gp_kwargs) : gp_kwargs :=
  GpKwargs None false false 1 (gp_verbose kw) 5 false (gp_args kw).

Definition tag_get_par : string := "[get_par:]     ".

Definition lookup_msg (tok : string) : string :=
  "Parameter or parametrization '" +:+ tok +:+ "' does not exist.".

Definition show_dummy (d : dummy_t) : string :=
  match d with
  | DNone => "None"
  | DStr s => s
  | DVec _ => "[...]"
  end.

Definition str_in (s : string) (l : list string) : bool := mem s l.

Definition cand_of (r : pyret) : result cand :=
  match r with
  | RNum x => Ok (CNum x)
  | RVec v => Ok (CVec v)
  | RSamples xs => Ok (CBatch xs)
  | ROpts v => Ok (COpts v)
  | _ => Raise (TypeError "not a parameter candidate")
  end.

(** A list that must not hold [None] any more when numpy stores it in an
    array of floats. *)
Fixpoint all_some (l : list (option num)) : result vec :=
  match l with
  | [] => Ok []
  | Some x :: l' => rbind (all_some l') (fun v => Ok (x :: v))
  | None :: _ => Raise (TypeError "float() argument must be a string or a number, not 'NoneType'")
  end.

Fixpoint rmap {A B} (f : A -> result B) (l : list A) : result (list B) :=
  match l with
  | [] => Ok []
  | x :: l' => rbind (f x) (fun y => rbind (rmap f l') (fun ys => Ok (y :: ys)))
  end.

Definition prior_mean (adjust : bool) (e : prior_entry) : num :=
  if adjust && String.eqb (pr_dist e) "inv_gamma_dynare" then mul L (pr_m2 e) (ten L)
  else if String.eqb (pr_dist e) "uniform"
  then add L (mul L (half L) (pr_m2 e)) (mul L (half L) (pr_m1 e))
  else pr_m2 e.

Definition set_init_value (v : list (option num)) (m : dsge) : dsge :=
  set_fdict (Fdict (fd_reduce_sys (fdict m)) (fd_ignore_tests (fdict m))
               (fd_mode_x (fdict m)) (fd_mcmc_mode_x (fdict m)) (Some v)) m.

(** The loop of lines 488 to 490, which fills the list stored in
    [self.fdict] in place. *)
Fixpoint fill_init (idx : list nat) : call unit :=
  match idx with
  | [] => ret tt
  | i :: idx' =>
      let! m := get_self in
      match fd_init_value (fdict m) with
      | None => raise (KeyError "init_value")
      | Some l =>
          let! x := lift (getitem l i) in
          match x with
          | Some _ => ret tt
          | None =>
              let! fixed := lift (take_idx (par_fix m) (prior_arg m)) in
              let! y := lift (getitem fixed i) in
              assign (set_init_value (<[i := Some y]> l))
          end ;;!
          fill_init idx'
      end
  end.

(** Lines 455 to 490: the named parameter sets.  [None] stands for a
    token that none of the tests recognizes. *)
Definition named_set (tok : string) (kw : gp_kwargs) : call (option cand) :=
  let! m := get_self in
  if String.eqb tok "prior"
  then let! xs := prior_sampler C (gp_nsamples kw) in ret (Some (CBatch xs))
  else if str_in tok ["post"; "posterior"]
  then let! xs := posterior_sampler C (gp_nsamples kw) in ret (Some (CBatch xs))
  else if String.eqb tok "posterior_mean" || String.eqb tok "post_mean"
  then let! v := lift (post_mean C m) in ret (Some (CVec v))
  else if String.eqb tok "mode"
  then match fd_mode_x (fdict m) with
       | Some v => ret (Some (CVec v))
       | None => raise (KeyError "mode_x")
       end
  else if str_in tok ["mcmc_mode"; "mode_mcmc"; "posterior_mode"; "post_mode"]
  then match fd_mcmc_mode_x (fdict m) with
       | Some v => ret (Some (CVec v))
       | None => raise (KeyError "mcmc_mode_x")
       end
  else if String.eqb tok "calib"
  then let! v := lift (take_idx (par_fix m) (prior_arg m)) in ret (Some (CVec v))
  else if String.eqb tok "prior_mean"
  then ret (Some (CVec (map (fun kv => prior_mean false (snd kv)) (prior m))))
  else if String.eqb tok "adj_prior_mean"
  then ret (Some (CVec (map (fun kv => prior_mean true (snd kv)) (prior m))))
  else if String.eqb tok "init"
  then match fd_init_value (fdict m) with
       | None => raise (KeyError "init_value")
       | Some _ =>
           fill_init (seq 0 (ndim m)) ;;!
           let! m' := get_self in
           ret (option_map COpts (fd_init_value (fdict m')))
       end
  else ret None.

(** The strings that the chain of tests of [get_par] recognizes besides
    the names of parameters. *)
Definition named_tokens : list string :=
  ["cov_mat"; "best"; "prior"; "post"; "posterior"; "posterior_mean"; "post_mean";
   "mode"; "mcmc_mode"; "mode_mcmc"; "posterior_mode"; "post_mode"; "calib";
   "prior_mean"; "adj_prior_mean"; "init"].

(** Lines 449 to 494: all parameters are reset to the calibration while a
    named set is read; an unknown token puts the former parameters back
    and raises. *)
Definition reset_and_read (d : dummy_t) (kw : gp_kwargs) : call (vec * cand) :=
  let! m := get_self in
  match par m with
  | None => raise (AttributeError "par")
  | Some old_par =>
      assign (set_par_attr (Some (par_fix m))) ;;!
      let! c := match d with
                | DStr tok => named_set tok kw
                | _ => ret None
                end in
      match c with
      | Some c => ret (par_fix m, c)
      | None =>
          assign (set_par_attr (Some old_par)) ;;!
          raise (KeyError (lookup_msg (show_dummy d)))
      end
  end.

(** Lines 496 to 519.  A scalar candidate is stored as an array of length
    one, which [put_idx] broadcasts as numpy does.  For a batch of samples
    with [asdict], line 509 hands a two-dimensional array to the function
    of the derived parameters, whose result there [core.py] does not
    determine; the model raises. *)
Definition finish (d : dummy_t) (kw : gp_kwargs) (pars : vec) (c : cand) : call pyret :=
  let! m := get_self in
  let pars_str := parameters m in
  let rnd := map (round_to L (gp_roundto kw)) in
  if gp_full kw then
    match c with
    | CBatch xs =>
        let! par :=
          lift (rmap (fun i => rbind (getitem xs i) (put_idx pars (prior_arg m)))
                     (seq 0 (gp_nsamples kw))) in
        if negb (gp_asdict kw) then ret (RSamples par)
        else raise (TypeError "derived parameters of a batch of samples")
    | _ =>
        let! cv := lift (match c with
                         | CNum x => Ok [x]
                         | CVec v => Ok v
                         | COpts v => all_some v
                         | CBatch _ => Ok []
                         end) in
        let! par := lift (put_idx pars (prior_arg m) cv) in
        if negb (gp_asdict kw) then ret (RVec par)
        else
          let! pf := lift (parafunc_fun m par) in
          ret (RDicts (zip pars_str (rnd par)) (zip (parafunc_names m) (rnd pf)))
    end
  else if gp_asdict kw then
    let! names := lift (take_idx pars_str (prior_arg m)) in
    match c with
    | CNum _ => raise (TypeError "zip argument #2 must support iteration")
    | CVec v => ret (RDict (zip names (rnd v)))
    | CBatch xs => ret (RDictRows (zip names (map rnd xs)))
    | COpts v => let! v' := lift (all_some v) in ret (RDict (zip names (rnd v')))
    end
  else
    match c with
    | CBatch xs => ret (RSamples xs)
    | CNum x =>
        if 1 <? gp_nsamples kw
        then raise (TypeError "object of type 'float' has no len()")
        else ret (RNum x)
    | CVec v =>
        if 1 <? gp_nsamples kw
        then let! z := randn C (gp_nsamples kw) (length v) in
             ret (RSamples (map (fun r => zip_with (fun x e =>
                                   mul L x (add L (one L) (mul L (milli L) e))) v r) z))
        else ret (RVec v)
    | COpts v =>
        if 1 <? gp_nsamples kw
        then raise (TypeError "unsupported operand type(s) for *: 'list' and 'float'")
        else ret (ROpts v)
    end.

(** The body of [get_par], with the calls of [get_par] on itself going to
    [rec]. *)
Definition get_par_body (rec : dummy_t -> gp_kwargs -> call pyret)
    (d : dummy_t) (kw : gp_kwargs) : call pyret :=
  let! m0 := get_self in
  match par m0 with
  | None => get_sys None (gp_args kw) (gp_verbose kw)
  | Some _ => ret tt
  end ;;!
  let! m := get_self in
  let pfnames := parafunc_names m in
  let pars_str := parameters m in
  let pars := match par m with Some p => p | None => par_fix m end in
  let! pars :=
    match gp_npar kw with
    | None => ret pars
    | Some npar =>
        if negb (length npar =? length (par_fix m))
        then lift (put_idx pars (prior_arg m) npar)
        else ret npar
    end in
  let from_rec (r : call pyret) : call (vec * cand) :=
    let! v := r in let! c := lift (cand_of v) in ret (pars, c) in
  let continue (pc : call (vec * cand)) : call pyret :=
    let! '(pars, c) := pc in finish d kw pars c in
  match d with
  | DNone =>
      continue (try_except
                  (let! c := lift (take_idx pars (prior_arg m)) in ret (pars, CVec c))
                  (from_rec (rec (DStr "best") (gp_inner kw))))
  | DVec v =>
      if length v =? length (par_fix m)
      then continue (let! c := lift (take_idx v (prior_arg m)) in ret (pars, CVec c))
      else if length v =? length (prior_arg m)
      then continue (ret (pars, CVec v))
      else continue (reset_and_read d kw)
  | DStr s =>
      if str_in s pars_str then
        let! p := lift (rbind (list_index s pars_str) (getitem pars)) in
        when (0 <? gp_verbose kw) (print (LineVal (tag_get_par +:+ s) p)) ;;!
        ret (RNum p)
      else if str_in s pfnames then
        let! p := lift (rbind (parafunc_fun m pars) (fun vals =>
                        rbind (list_index s pfnames) (getitem vals))) in
        when (0 <? gp_verbose kw) (print (LineVal (tag_get_par +:+ s) p)) ;;!
        ret (RNum p)
      else if String.eqb s "cov_mat" then
        get_sys (Some pars) gs_defaults 0 ;;!
        let! m' := get_self in
        match ppar m' with
        | None => raise (AttributeError "ppar")
        | Some pp =>
            let p := QQ m' pp in
            when (0 <? gp_verbose kw) (print (LineMat (tag_get_par +:+ s) p)) ;;!
            ret (RMat p)
        end
      else if String.eqb s "best" then
        continue (try_except
                    (from_rec (rec (DStr "mode") (gp_inner kw)))
                    (from_rec (rec (DStr "init") (gp_inner kw))))
      else continue (reset_and_read d kw)
  end.

(** [get_par] calls itself at most three deep: [None] may fall back on
    ['best'], which reads ['mode'] or ['init'], and these two call nothing. *)
Definition get_par_leaf : dummy_t -> gp_kwargs -> call pyret :=
  get_par_body (fun _ _ => raise (TypeError "maximum recursion depth exceeded")).

Definition get_par_best : dummy_t -> gp_kwargs -> call pyret :=
  get_par_body get_par_leaf.

Definition get_par : dummy_t -> gp_kwargs -> call pyret :=
  get_par_body get_par_best.

(** ** [set_par] *)

Record sp_kwargs : Type := SpKwargs {
  sp_setpar : option num;
  sp_npar : option positive;
  sp_verbose : nat;
  sp_roundto : nat;
  sp_args : gs_kwargs
}.

Definition sp_defaults : sp_kwargs := SpKwargs None None 0 5 gs_defaults.

Definition tag_set_par : string := "[set_par:]     ".

Definition functional_msg (name : string) : string :=
  "Can not set parameter '" +:+ name +:+ "' that is a function of other parameters.".

Definition undefined_msg (name : string) : string :=
  "Parameter '" +:+ name +:+ "' is not defined for this model.".

(** The caller's arrays. *)
Definition load (l : positive) : call vec :=
  fun w => match heap w !! l with
           | Some a => (w, Ok a)
           | None => (w, Raise (TypeError "'NoneType' object has no attribute 'copy'"))
           end.

Definition alloc (a : vec) : call positive :=
  fun w => let l := fresh (dom (heap w)) in
           (World (self w) (stdout w) (<[l := a]> (heap w)), Ok l).

Definition store (l : positive) (a : vec) : call unit :=
  fun w => (World (self w) (stdout w) (<[l := a]> (heap w)), Ok tt).

(** [list(par)] for what [get_par] returned: a vector gives its entries, a
    number is not iterable; the rows of a two-dimensional array would go
    to the parameter compiler, which the model does not follow. *)
Definition as_par_list (r : pyret) : result vec :=
  match r with
  | RVec v => Ok v
  | ROpts v => all_some v
  | RNum _ => Raise (TypeError "'numpy.float64' object is not iterable")
  | _ => Raise (TypeError "not a parameter vector")
  end.

(** Lines 564 to 571: with [npar] the named entry of a copy of [npar] is
    set and the copy is returned. *)
Definition set_in_copy (name : string) (setpar : num) (npar : positive) : call pyret :=
  let! m := get_self in
  let! a := load npar in
  let! l := alloc a in
  let! i := lift (if length a =? length (prior_arg m)
                  then list_index name (prior_names m)
                  else list_index name (parameters m)) in
  let! a' := lift (setitem a i setpar) in
  store l a' ;;!
  ret (RRef l).

(** Lines 550 to 578: either the value to return at once, or the vector
    to compile.  A string passes the length tests of lines 557 and 559
    like a vector, with the number of its code points as its length.  A
    string as long as the estimated subset is assigned to the entries of
    the estimated subset by line 560: numpy converts it to one float and
    writes that float to each of them.  A string as long as the
    calibration goes to [get_sys] as the list of its characters; what the
    generated parameter compiler does with characters is not part of
    [core.py], and the model raises where line 72 calls it. *)
Definition sp_target (d : dummy_t) (kw : sp_kwargs) : call (pyret + vec) :=
  let! m := get_self in
  let pfnames := parafunc_names m in
  let pars_str := parameters m in
  let par := match par m with Some p => p | None => par_fix m end in
  let via_get_par : call (pyret + vec) :=
    let! r := get_par d (GpKwargs None false true 1 (sp_verbose kw) 5 false (sp_args kw)) in
    let! v := lift (as_par_list r) in ret (inr v) in
  match sp_setpar kw with
  | None =>
      match d with
      | DNone => via_get_par
      | DVec v =>
          if length v =? length (par_fix m) then ret (inr v)
          else if length v =? length (prior_arg m)
          then let! p := lift (put_idx par (prior_arg m) v) in ret (inr p)
          else via_get_par
      | DStr s =>
          if py_len s =? length (par_fix m)
          then gs_settings (sp_args kw) ;;!
               raise (TypeError "a string is not a parameter vector")
          else if py_len s =? length (prior_arg m)
          then let! x := lift (str_to_float C s) in
               let! p := lift (put_idx par (prior_arg m) [x]) in
               ret (inr p)
          else via_get_par
      end
  | Some setpar =>
      match d with
      | DStr s =>
          if str_in s pars_str then
            match sp_npar kw with
            | Some npar => let! r := set_in_copy s setpar npar in ret (inl r)
            | None =>
                let! p := lift (rbind (list_index s pars_str) (fun i => setitem par i setpar)) in
                ret (inr p)
            end
          else if str_in s pfnames then raise (SyntaxError (functional_msg s))
          else raise (SyntaxError (undefined_msg s))
      | _ => raise (SyntaxError (undefined_msg (show_dummy d)))
      end
  end.

(** The parameters in force: [self.par] once the model has been compiled,
    the calibration before. *)
Definition current (m : dsge) : vec :=
  match par m with Some p => p | None => par_fix m end.

(** The three calls of [set_par] that set parameters, with the vector
    that results: one parameter by name (without [npar]), all parameters,
    or the estimated subset. *)
Inductive sets_vector (m : dsge) : dummy_t -> sp_kwargs -> vec -> Prop :=
  | by_name (name : string) (kw : sp_kwargs) (x : num) (i : nat) :
      sp_setpar kw = Some x -> sp_npar kw = None ->
      index_of name (parameters m) = Some i -> i < length (current m) ->
      sets_vector m (DStr name) kw (<[i := x]> (current m))
  | by_full_vector (v : vec) (kw : sp_kwargs) :
      sp_setpar kw = None -> length v = length (par_fix m) ->
      sets_vector m (DVec v) kw v
  | by_subset (v p : vec) (kw : sp_kwargs) :
      sp_setpar kw = None -> length v <> length (par_fix m) ->
      length v = length (prior_arg m) ->
      put_idx (current m) (prior_arg m) v = Ok p ->
      sets_vector m (DVec v) kw p.

(** Lines 583 to 595. *)
Definition refresh_filter : call unit :=
  let! m := get_self in
  match filter m with
  | None => ret tt
  | Some f =>
      match ppar m with
      | None => raise (AttributeError "ppar")
      | Some pp =>
          let eps_cov := QQ m pp in
          assign (set_filter (Some (Filter (f_name f) (Some eps_cov) (f_Q f)))) ;;!
          let! Q :=
            if String.eqb (f_name f) "KalmanFilter" then
              match SIG m with
              | None => raise (AttributeError "SIG")
              | Some sig =>
                  lift (rbind (Arr.mmul sig eps_cov) (fun CO =>
                        Arr.mmul CO (Arr.transpose CO)))
              end
            else if String.eqb (f_name f) "ParticleFilter" then
              raise (NotImplementedError "")
            else lift (Arr.mmul (QQ m pp) (QQ m pp)) in
          assign (set_filter (Some (Filter (f_name f) (Some eps_cov) (Some Q))))
      end
  end.

Definition sp_report (kw : sp_kwargs) : call unit :=
  when (0 <? sp_verbose kw)
    (let! m := get_self in
     match par m with
     | None => raise (AttributeError "par")
     | Some p =>
         let rnd := map (round_to L (sp_roundto kw)) in
         let! pf := lift (parafunc_fun m p) in
         print (LineDicts (tag_set_par +:+ " Parameter(s):")
                  (zip (parameters m) (rnd p)) (zip (parafunc_names m) (rnd pf)))
     end).

Definition set_par (d : dummy_t) (kw : sp_kwargs) : call pyret :=
  let! t := sp_target d kw in
  match t with
  | inl r => ret r
  | inr par =>
      get_sys (Some par) (sp_args kw) (sp_verbose kw) ;;!
      refresh_filter ;;!
      sp_report kw ;;!
      get_par DNone gp_defaults
  end.

(** [get_cov] *)
Definition get_cov (npar : option vec) (kw : gp_kwargs) : call pyret :=
  get_par (DStr "cov_mat")
    (GpKwargs npar (gp_asdict kw) (gp_full kw) (gp_nsamples kw) (gp_verbose kw)
       (gp_roundto kw) (gp_debug kw) (gp_args kw)).

End Model.
(** ** Exact rational arithmetic as an instance of the numerical interface *)

Module Exact.

Local Open Scope Q_scope.

Definition qadd (a b : Q) : Q := Qred (a + b).
Definition qmul (a b : Q) : Q := Qred (a * b).
Definition qopp (a : Q) : Q := Qred (- a).
Definition qabs (a : Q) : Q := Qred (Qabs a).
Definition qltb (a b : Q) : bool := negb (Qle_bool b a).
Definition qis_zero (a : Q) : bool := Qeq_bool a 0.

(** [np.round] to [n] decimals: the scaled number is rounded to the
    nearest integer, a tie to the even one. *)
Definition qround (n : nat) (a : Q) : Q :=
  let s := inject_Z (10 ^ Z.of_nat n) in
  let y := a * s in
  let f := Qfloor y in
  let r := y - inject_Z f in
  let up := if Qeq_bool r (1 # 2) then Z.odd f else negb (Qle_bool r (1 # 2)) in
  Qred (inject_Z (if up then f + 1 else f) / s).

Definition qnth (r : list Q) (k : nat) : Q := nth k r 0.

(** Gauss-Jordan elimination on the rows of [m | I]. *)
Fixpoint pick (k : nat) (todo : list (list Q)) : option (list Q * list (list Q)) :=
  match todo with
  | [] => None
  | r :: t =>
      if Qeq_bool (qnth r k) 0
      then match pick k t with
           | Some (p, rest) => Some (p, r :: rest)
           | None => None
           end
      else Some (r, t)
  end.

Definition elim (k : nat) (p r : list Q) : list Q :=
  zip_with (fun x y => Qred (x - qnth r k * y)) r p.

Fixpoint gauss (cols : list nat) (done todo : list (list Q)) : option (list (list Q)) :=
  match cols with
  | [] => Some done
  | k :: cols' =>
      match pick k todo with
      | None => None
      | Some (p, rest) =>
          let p' := map (fun x => Qred (x / qnth p k)) p in
          gauss cols' (map (elim k p') done ++ [p']) (map (elim k p') rest)
      end
  end.

Definition qinv (m : matrix Q) : result (matrix Q) :=
  let n := ncols m in
  if negb (nrows m =? n)%nat
  then Raise (LinAlgError "Last 2 dimensions of the array must be square")
  else
    let unit (i : nat) := map (fun j => if (i =? j)%nat then 1 else 0) (seq 0 n) in
    match gauss (seq 0 n) [] (imap (fun i r => r ++ unit i) (rows m)) with
    | Some rs => Ok (Mat n (map (drop n) rs))
    | None => Raise (LinAlgError "Singular matrix")
    end.

(** The determinant by expansion along the first row. *)
Fixpoint det_rows (n : nat) (rs : list (list Q)) : Q :=
  match n, rs with
  | S n', r :: rest =>
      fold_right Qplus 0
        (imap (fun j x =>
                 (if Nat.even j then x else - x)
                 * det_rows n' (map (fun r' => take j r' ++ drop (S j) r') rest)) r)
  | _, _ => 1
  end.

Definition qdet (m : matrix Q) : result Q :=
  if (nrows m =? ncols m)%nat then Ok (Qred (det_rows (nrows m) (rows m)))
  else Raise (LinAlgError "Last 2 dimensions of the array must be square").

(** The moduli of the eigenvalues of a triangular matrix, its diagonal. *)
Definition is_upper (m : matrix Q) : bool :=
  forallb id (imap (fun i r => forallb (fun j => Qeq_bool (qnth r j) 0) (seq 0 i)) (rows m)).

Definition qeig (m : matrix Q) : result (list Q) :=
  if (nrows m =? ncols m)%nat && is_upper m
  then Ok (imap (fun i r => qabs (qnth r i)) (rows m))
  else Raise (LinAlgError "eig: not triangular").

(** The interface over [Q].  The singular value decomposition and Klein's
    solution are irrational in general; an example supplies them for the
    matrices it meets. *)
Definition lib (svd : matrix Q -> result (matrix Q * list Q * matrix Q))
    (re_bk : matrix Q -> matrix Q -> nat -> result (matrix Q)) : numlib :=
  NumLib Q 0 1 qadd qmul qopp qabs qltb qis_zero (1 # 100000000) (1 # 2) 10 (1 # 1000)
    qround svd qinv qdet re_bk qeig.

End Exact.

(** ** A small model

    Three variables: output [y], a lagged copy [z] of output that nothing
    reads, and the constrained rate [r], which is the only variable with a
    lead; two equations, one shock, output observed.  The matrix [P1] of
    this model is the identity, whose singular value decomposition is made
    of identities; without a forward-looking variable besides [r], Klein's
    solution has no rows. *)

Module Toy.

Import Exact.
Local Open Scope Q_scope.

Definition ident (n : nat) : matrix Q :=
  Mat n (map (fun i => map (fun j => if (i =? j)%nat then 1 else 0) (seq 0 n)) (seq 0 n)).

Definition QL : numlib :=
  lib (fun _ => Ok (ident 3, [1; 1; 1], ident 3)) (fun _ _ _ => Ok (Mat 3 [])).

Definition toy : model_t (L := QL) :=
  Model (L := QL)
    ["y"; "z"; "r"] (Some "r") ["rho"; "phi"; "x_bar"]
    ["kappa"] (fun p => Ok [qmul (nth 0 p 0) (nth 1 p 0)])
    [1 # 2; 3 # 2; -1 # 100]
    (fun _ => Raise (AttributeError "pcompile")) (fun p => Ok p)
    (fun _ => Mat 3 [[0; 0; -1 # 4]; [0; 0; 0]])
    (fun _ => Mat 3 [[-1; 0; 0]; [0; -1; 0]])
    (fun p => Mat 3 [[nth 0 p 0; 0; 1 # 5]; [1; 0; 0]])
    (fun p => [0; 0; 0; nth 1 p 0; 0; 0])
    (fun _ => Mat 1 [[1]; [0]])
    (fun _ => Mat 3 [[1; 0; 0]])
    (fun _ => [0])
    (fun _ => Mat 1 [[1 # 10]])
    [1 # 2; 3 # 2; -1 # 100] [0%nat; 1%nat] ["rho"; "phi"] [] 2.

(** The object as the parser leaves it. *)
Definition parsed_only (M : model_t (L := QL)) : dsge (L := QL) :=
  Dsge (L := QL) M (Fdict None None None None None)
    None None None None None None None None None None None None None None None.

(** The precomputation is stood for by the first entry of [N2].  No string
    of the examples is a numeral, so that the conversion of each of them
    to a float raises. *)
Definition C0 : collab (L := QL) :=
  Collab (L := QL)
    (fun s _ _ => Ok (Mat 1 [[Arr.entry (sys_N2 s) 0 0]]))
    (fun _ => Raise (AttributeError "chain"))
    (fun _ w => (w, Raise (AttributeError "prior")))
    (fun _ w => (w, Raise (AttributeError "chain")))
    (fun _ _ w => (w, Ok []))
    (fun s => Raise (ValueError ("could not convert string to float: '" +:+ s +:+ "'"))).

Definition w0 : world (L := QL) := World (L := QL) (parsed_only toy) [] ∅.

(** The token [é]: two bytes in UTF-8, [0xC3 0xA9], and one code point. *)
Definition e_acute : string :=
  String (Ascii.ascii_of_nat 195) (String (Ascii.ascii_of_nat 169) EmptyString).

(** The world after a first compilation with the defaults. *)
Definition w_compiled : world (L := QL) := fst (get_sys C0 None gs_defaults 0 w0).

(** The same with a Kalman filter attached. *)
Definition w_filter : world (L := QL) :=
  World (L := QL)
    (set_filter (L := QL) (Some (Filter (L := QL) "KalmanFilter" None None)) (self w_compiled))
    (stdout w_compiled) (heap w_compiled).

(** The compiled object with a cached matrix for two states, as a run
    with [reduce_sys] leaves it to the following filter. *)
Definition P_cached : matrix Q := Mat 2 [[1; 2]; [3; 4]].

Definition w_cached : world (L := QL) :=
  World (L := QL) (set_P (L := QL) (Some P_cached) (self w_compiled))
    (stdout w_compiled) (heap w_compiled).

(** An array of the caller, the estimated subset. *)
Definition npar_loc : positive := 1%positive.

Definition w_npar : world (L := QL) :=
  World (L := QL) (self w_compiled) (stdout w_compiled) (<[npar_loc := [1 # 2; 3 # 2]]> ∅).

(** A model whose only equation reads the lead of the constrained rate:
    [P1] has a zero row, and the left singular vector of the zero singular
    value picks the coefficient of that lead. *)
Definition swap2 : matrix Q := Mat 2 [[0; 1]; [1; 0]].

Definition QL_future : numlib :=
  lib (fun _ => Ok (swap2, [1; 0], swap2)) (fun _ _ _ => Ok (Mat 2 [])).

Definition toy_future : model_t (L := QL_future) :=
  Model (L := QL_future)
    ["y"; "r"] (Some "r") ["x_bar"] [] (fun _ => Ok [])
    [-1 # 100]
    (fun _ => Raise (AttributeError "pcompile")) (fun p => Ok p)
    (fun _ => Mat 2 [[0; 1 # 4]])
    (fun _ => Mat 2 [[0; 0]])
    (fun _ => Mat 2 [[1 # 2; 0]])
    (fun _ => [0; 0; 1; 0])
    (fun _ => Mat 1 [[1]])
    (fun _ => Mat 2 [[1; 0]])
    (fun _ => [0])
    (fun _ => Mat 1 [[1 # 10]])
    [-1 # 100] [] [] [] 0.

Definition C_future : collab (L := QL_future) :=
  Collab (L := QL_future)
    (fun s _ _ => Ok (Mat 1 [[Arr.entry (sys_N2 s) 0 0]]))
    (fun _ => Raise (AttributeError "chain"))
    (fun _ w => (w, Raise (AttributeError "prior")))
    (fun _ w => (w, Raise (AttributeError "chain")))
    (fun _ _ w => (w, Ok []))
    (fun s => Raise (ValueError ("could not convert string to float: '" +:+ s +:+ "'"))).

Definition w_future : world (L := QL_future) :=
  World (L := QL_future)
    (Dsge (L := QL_future) toy_future (Fdict None None None None None)
       None None None None None None None None None None None None None None None)
    [] ∅.

End Toy.

(** ** The small model with a lead of output

    Output is forward-looking here: the first equation reads
    [0.56 E y' + 0.25 E r' + 1.17 y = shock], the lagged copy [z] and the
    rule of the rate are as before.  [P1] is regular, with the singular
    values 1.6, 1, 1 and 0.35; its decomposition is rational.  The
    expected output obeys [x' = -(117/56) x] whatever the state, so the
    stable solution is [x = 0]: Klein's solution is a row of zeros. *)
Module ToyLead.

Import Exact Toy.
Local Open Scope Q_scope.

Definition U_lead : matrix Q :=
  Mat 4 [[4 # 5; 0; 0; -3 # 5]; [0; 1; 0; 0]; [3 # 5; 0; 0; 4 # 5]; [0; 0; 1; 0]].

Definition s_lead : list Q := [8 # 5; 1; 1; 7 # 20].

Definition Vh_lead : matrix Q :=
  Mat 4 [[7 # 25; 24 # 25; 0; 0]; [0; 0; 1; 0]; [0; 0; 0; 1]; [-24 # 25; 7 # 25; 0; 0]].

Definition QL_lead : numlib :=
  lib (fun _ => Ok (U_lead, s_lead, Vh_lead)) (fun _ _ _ => Ok (Mat 3 [[0; 0; 0]])).

Definition toy_lead : model_t (L := QL_lead) :=
  Model (L := QL_lead)
    ["y"; "z"; "r"] (Some "r") ["rho"; "phi"; "x_bar"]
    ["kappa"] (fun p => Ok [qmul (nth 0 p 0) (nth 1 p 0)])
    [1 # 2; 3 # 2; -1 # 100]
    (fun _ => Raise (AttributeError "pcompile")) (fun p => Ok p)
    (fun _ => Mat 3 [[-14 # 25; 0; -1 # 4]; [0; 0; 0]])
    (fun _ => Mat 3 [[-117 # 100; 0; 0]; [0; -1; 0]])
    (fun _ => Mat 3 [[0; 0; 0]; [1; 0; 0]])
    (fun p => [0; 0; 0; nth 1 p 0; 0; 0])
    (fun _ => Mat 1 [[1]; [0]])
    (fun _ => Mat 3 [[1; 0; 0]])
    (fun _ => [0])
    (fun _ => Mat 1 [[1 # 10]])
    [1 # 2; 3 # 2; -1 # 100] [0%nat; 1%nat] ["rho"; "phi"] [] 2.

Definition C_lead : collab (L := QL_lead) :=
  Collab (L := QL_lead)
    (fun s _ _ => Ok (Mat 1 [[Arr.entry (sys_N2 s) 0 0]]))
    (fun _ => Raise (AttributeError "chain"))
    (fun _ w => (w, Raise (AttributeError "prior")))
    (fun _ w => (w, Raise (AttributeError "chain")))
    (fun _ _ w => (w, Ok []))
    (fun s => Raise (ValueError ("could not convert string to float: '" +:+ s +:+ "'"))).

Definition w_lead : world (L := QL_lead) :=
  World (L := QL_lead)
    (Dsge (L := QL_lead) toy_lead (Fdict None None None None None)
       None None None None None None None None None None None None None None None)
    [] ∅.

(** The tests for explosive dynamics switched off. *)
Definition kw_untested : gs_kwargs (L := QL_lead) :=
  GsKwargs (L := QL_lead) None None None false (1 # 100000000) (Some true).

End ToyLead.

(** ** [posterior_sampler]

    The sampler object enters [posterior_sampler] through the chain that
    [self.get_chain()] returns, an array of shape (steps, walkers, ndim),
    and the attribute [self.get_tune]; [random.choices] is the standard
    library's, reduced to the index [floor(random() * n)] of its [i]-th
    draw from a population of [n] after [random.seed(seed)]. *)

Module Draws.
Section Draws.

Context {L : numlib}.
Local Abbreviation num := (num L).
Local Abbreviation vec := (list num).

Record chain_t : Type := Chain {
  ch_ndim : nat;
  ch_steps : list (list vec)
}.

(** [a[-t:]] for an integer [t]: the last [t] entries, all of them for
    [t = 0], and all but the first [-t] for a negative [t]. *)
Definition tail_from {A} (t : Z) (l : list A) : list A :=
  if (0 <=? t)%Z then last_n (Z.to_nat t) l else drop (Z.to_nat (- t)) l.

(** [sample.reshape(-1, sample.shape[-1])]: the walkers of all steps in a
    row; numpy cannot tell the unknown dimension when the last one is 0. *)
Definition reshape_rows (ndim : nat) (steps : list (list vec)) : result (list vec) :=
  if ndim =? 0
  then Raise (ValueError "cannot reshape array of size 0 into shape (0)")
  else Ok (concat steps).

Definition choices {A} (rnd : nat -> nat -> nat -> nat) (seed : nat)
    (population : list A) (k : nat) : result (list A) :=
  rmap (fun i => getitem population (rnd seed (length population) i)) (seq 0 k).

Definition posterior_sampler (rnd : nat -> nat -> nat -> nat)
    (get_chain : result chain_t) (get_tune : Z) (nsamples : nat) (seed : nat)
  : result (list vec) :=
  rbind get_chain (fun ch =>
  rbind (reshape_rows (ch_ndim ch) (tail_from get_tune (ch_steps ch))) (fun sample =>
  choices rnd seed sample nsamples)).

End Draws.
End Draws.

(** ** [filtering.py]

    The functions of [filtering.py] work on attributes of the model object
    that [core.py] does not touch, kept here next to the object of
    [core.py]: the observations [Z], their covariance [obs_cov], the filter
    [enkf] and the results.  The filter is econsieve's [EnKF], reduced to
    the attributes that [filtering.py] reads or writes; its constructor and
    its methods are taken as they come.  The division of a float by a
    count, which the interface of the numbers lacks, is a parameter
    [divide]. *)

Module Filtering.
Section Filtering.

Context {L : numlib}.
Local Abbreviation num := (num L).
Local Abbreviation vec := (list num).
Local Abbreviation mat := (matrix num).

(** [en_fx] is the approximation level [use_bruite] of the transition
    function that was installed last. *)
Record enkf_t : Type := EnKF {
  en_N : nat;
  en_P : mat;
  en_R : mat;
  en_Q : mat;
  en_fx : option nat
}.

Record fobj : Type := FObj {
  core : dsge (L := L);
  Z_obs : option mat;
  obs_cov : option mat;
  enkf : option enkf_t;
  ll : option num;
  filtered_X : option mat;
  filtered_cov : option (list mat);
  res : option mat
}.

Record econsieve : Type := Econsieve {
  EnKF_new : nat -> fobj -> result enkf_t;
  batch_filter : enkf_t -> mat -> option bool -> option bool -> bool
                 -> result (enkf_t * (mat * list mat * num));
  rts_smoother : enkf_t -> mat -> list mat -> result (enkf_t * (mat * list mat));
  ipas : enkf_t -> mat -> list mat -> option string -> bool -> bool -> bool
         -> result (enkf_t * (mat * list mat * mat * bool))
}.

Variable E : econsieve.

(** [x / n] *)
Variable divide : num -> nat -> num.

(** [np.sum] of a one-dimensional array. *)
Definition total (v : vec) : num := fold_right (add L) (zero L) v.

(** [np.var] of a one-dimensional array: the mean of the squares of the
    deviations from the mean. *)
Definition var1 (c : vec) : num :=
  let mean := divide (total c) (length c) in
  divide (total (map (fun x => let dv := add L x (opp L mean) in mul L dv dv) c))
         (length c).

(** [np.var(z, axis=0)], the variance of every column. *)
Definition var0 (z : mat) : vec := map (fun j => var1 (Arr.col j z)) (seq 0 (ncols z)).

(** The object, the warnings issued and the lines printed, latest
    first. *)
Record fstate : Type := FState {
  obj : fobj;
  warned : list string;
  printed : list string
}.

Definition fcall (A : Type) : Type := fstate -> fstate * result A.

Definition warn (msg : string) (s : fstate) : fstate :=
  FState (obj s) (msg :: warned s) (printed s).


Definition put (f : fobj -> fobj) (s : fstate) : fstate :=
  FState (f (obj s)) (warned s) (printed s).

Definition set_obs_cov (v : mat) (o : fobj) : fobj :=
  FObj (core o) (Z_obs o) (Some v) (enkf o) (ll o) (filtered_X o) (filtered_cov o) (res o).

Definition set_enkf (v : enkf_t) (o : fobj) : fobj :=
  FObj (core o) (Z_obs o) (obs_cov o) (Some v) (ll o) (filtered_X o) (filtered_cov o) (res o).




Definition no_data : string := "No time series of observables provided".

(** [np.diagflat(v)] *)
Definition diagflat (v : vec) : mat :=
  Arr.tabulate (length v) (length v)
    (fun i j => if i =? j then default (zero L) (v !! i) else zero L).

Definition create_obs_cov (scale_obs : num) : fcall unit :=
  fun s =>
    match Z_obs (obj s) with
    | None => (warn no_data s, Ok tt)
    | Some z =>
        let sig_obs := map (fun x => mul L x scale_obs) (var0 z) in
        (put (set_obs_cov (diagflat sig_obs)) s, Ok tt)
    end.

(** [enkf.P *= 1e1] *)
Definition times_ten (m : mat) : mat :=
  Mat (ncols m) (map (map (fun x => mul L x (ten L))) (rows m)).

(** [create_filter]; the seed that line 24 gives to numpy's generator is
    not part of the state here. *)
Definition create_filter (P R : option mat) (N : option nat) : fcall unit :=
  fun s =>
    let s1 := match Z_obs (obj s) with None => warn no_data s | Some _ => s end in
    let o := obj s1 in
    let r :=
      rbind (match N with
             | Some n => Ok n
             | None => match vv (core o) with
                       | Some v => Ok (5 * length v)
                       | None => Raise (AttributeError "vv")
                       end
             end) (fun n =>
      rbind (EnKF_new E n o) (fun en =>
      let P1 := match P with Some p => p | None => times_ten (en_P en) end in
      let R1 := match R with
                | Some r => r
                | None => match obs_cov o with Some c => c | None => en_R en end
                end in
      rbind (match SIG (core o) with
             | Some sig => Ok sig
             | None => Raise (AttributeError "SIG")
             end) (fun sig =>
      rbind (match par (core o) with
             | Some p => Ok p
             | None => Raise (AttributeError "par")
             end) (fun p =>
      rbind (Arr.mmul sig (QQ (core o) p)) (fun CO =>
      rbind (Arr.mmul CO (Arr.transpose CO)) (fun Q =>
      Ok (EnKF (en_N en) P1 R1 Q (en_fx en)))))))) in
    match r with
    | Ok en => (put (set_enkf en) s1, Ok tt)
    | Raise e => (s1, Raise e)
    end.







End Filtering.
End Filtering.

(** ** More of the small model *)

Module ToyMore.

Import Exact Toy.
Local Open Scope Q_scope.

(** The small model asked to reduce its state space. *)
Definition kw_reduce : gs_kwargs (L := QL) :=
  GsKwargs (L := QL) (Some true) None None false (1 # 100000000) (Some false).

(** The same with the solver depths given. *)
Definition kw_depths : gs_kwargs (L := QL) :=
  GsKwargs (L := QL) None (Some 1%Z) (Some 5%Z) false (1 # 100000000) (Some false).

(** A persistence of output above one. *)
Definition p_explosive : list Q := [3 # 2; 3 # 2; -1 # 100].

Definition kw_tests : gs_kwargs (L := QL) :=
  GsKwargs (L := QL) None None None false (1 # 100000000) (Some false).

(** The compiled model with a particle filter attached. *)
Definition w_particle : world (L := QL) :=
  World (L := QL)
    (set_filter (L := QL) (Some (Filter (L := QL) "ParticleFilter" None None))
       (self w_compiled))
    (stdout w_compiled) (heap w_compiled).

(** The compiled model with a mode of the estimated subset stored and a
    bound that differs from the calibrated one. *)
Definition w_mode : world (L := QL) :=
  World (L := QL)
    (set_par_attr (L := QL) (Some [1 # 2; 3 # 2; -1 # 50])
       (set_fdict (L := QL)
          (Fdict (L := QL) None (Some false) (Some [1 # 4; 5 # 4]) None None)
          (self w_compiled)))
    (stdout w_compiled) (heap w_compiled).

(** Setting the first parameter to 0.7. *)
Definition kw_rho : sp_kwargs (L := QL) :=
  SpKwargs (L := QL) (Some (7 # 10)) None 0 5 gs_defaults.

(** A model without a constraint. *)
Definition toy_free : model_t (L := QL) :=
  Model (L := QL)
    (variables toy) None (parameters toy) (parafunc_names toy) (parafunc_fun toy)
    (p0 toy) (pcompile toy) (compile toy) (AA toy) (BB toy) (CC toy) (bb toy)
    (PSI toy) (ZZ toy) (DD toy) (QQ toy) (par_fix toy) (prior_arg toy)
    (prior_names toy) (prior toy) (ndim toy).

Definition w_free : world (L := QL) := World (L := QL) (parsed_only toy_free) [] ∅.

(** The compiled model with initial values of which the first is not
    given. *)
Definition w_init : world (L := QL) :=
  World (L := QL)
    (set_fdict (L := QL)
       (Fdict (L := QL) None (Some false) None None (Some [None; Some (1 # 5)]))
       (self w_compiled))
    (stdout w_compiled) (heap w_compiled).

(** The small model with a uniform prior on [0, 1] for the first
    parameter and a prior of the kind [inv_gamma_dynare] for the second. *)
Definition toy_prior : model_t (L := QL) :=
  Model (L := QL)
    (variables toy) (const_var toy) (parameters toy) (parafunc_names toy) (parafunc_fun toy)
    (p0 toy) (pcompile toy) (compile toy) (AA toy) (BB toy) (CC toy) (bb toy)
    (PSI toy) (ZZ toy) (DD toy) (QQ toy) (par_fix toy) (prior_arg toy)
    (prior_names toy)
    [("rho", PriorEntry (L := QL) "uniform" 0 1);
     ("phi", PriorEntry (L := QL) "inv_gamma_dynare" (1 # 10) 2)]
    (ndim toy).

Definition w_prior : world (L := QL) :=
  fst (get_sys C0 None gs_defaults 0 (World (L := QL) (parsed_only toy_prior) [] ∅)).

(** A chain of three steps of two walkers in one dimension. *)
Definition chain3 : Draws.chain_t (L := QL) :=
  Draws.Chain (L := QL) 1 [[[1]; [2]]; [[3]; [4]]; [[5]; [6]]].

(** A filter library whose constructor builds identities for two states
    and one observable and whose filter returns the observations. *)
Definition econ : Filtering.econsieve (L := QL) :=
  Filtering.Econsieve (L := QL)
    (fun n _ => Ok (Filtering.EnKF (L := QL) n (ident 3) (ident 1) (ident 3) None))
    (fun en z _ _ _ => Ok (en, (z, [ident 3], 0)))
    (fun en x c => Ok (en, (x, c)))
    (fun en x c _ _ _ _ => Ok (en, (x, c, x, true))).

(** The quotient of a number and a count. *)
Definition qdivide (x : Q) (n : nat) : Q := Qred (x / inject_Z (Z.of_nat n)).

(** Three observations of one series, whose variance is 1/6. *)
Definition observed : matrix Q := Mat 1 [[1]; [3 # 2]; [2]].

Definition s_plain : Filtering.fstate (L := QL) :=
  Filtering.FState (L := QL)
    (Filtering.FObj (L := QL) (self w_compiled) (Some observed) None None None None None None)
    [] [].

End ToyMore.

(** * Properties *)

Section Properties.

Context {L : numlib} (C : collab (L := L)).
Local Abbreviation num := (num L).
Local Abbreviation vec := (list num).
Local Abbreviation mat := (matrix num).
Local Abbreviation world := (world (L := L)).
Local Abbreviation call := (call (L := L)).

(** ** Running a sequence of calls *)

Lemma bind_ok {A B} (c : call A) (k : A -> call B) (w w1 : world) (a : A) :
  c w = (w1, Ok a) -> bind c k w = k a w1.
Proof. intros H. unfold bind. now rewrite H. Qed.

Lemma bind_raise {A B} (c : call A) (k : A -> call B) (w w1 : world) (e : exn) :
  c w = (w1, Raise e) -> bind c k w = (w1, Raise e).
Proof. intros H. unfold bind. now rewrite H. Qed.

Lemma bind_inv {A B} (c : call A) (k : A -> call B) (w w' : world) (b : B) :
  bind c k w = (w', Ok b) ->
  exists a w1, c w = (w1, Ok a) /\ k a w1 = (w', Ok b).
Proof.
  unfold bind. destruct (c w) as [w1 [a | e]]; intros H.
  - exists a, w1. split; [reflexivity | exact H].
  - discriminate H.
Qed.


Lemma rbind_inv {A B} (r : result A) (k : A -> result B) (b : B) :
  rbind r k = Ok b -> exists a, r = Ok a /\ k a = Ok b.
Proof. destruct r as [a | e]; simpl; intros H; [eauto | discriminate]. Qed.

(** ** Shapes of arrays *)

Lemma compress_length_le {A} (mask : list bool) (l : list A) :
  length (compress mask l) <= length l.
Proof.
  revert l. induction mask as [| b mask IH]; intros [| x l]; simpl; try lia.
  destruct b; simpl; specialize (IH l); lia.
Qed.

Lemma mmul_shape (a b c : mat) :
  Arr.mmul a b = Ok c -> ncols a = nrows b /\ nrows c = nrows a /\ ncols c = ncols b.
Proof.
  unfold Arr.mmul. destruct (ncols a =? nrows b) eqn:E; [| discriminate].
  intros H. inversion H. apply Nat.eqb_eq in E.
  unfold nrows. simpl. rewrite length_map. auto.
Qed.

Lemma mvmul_shape (a : mat) (v w : vec) :
  Arr.mvmul a v = Ok w -> ncols a = length v /\ length w = nrows a.
Proof.
  unfold Arr.mvmul. destruct (ncols a =? length v) eqn:E; [| discriminate].
  intros H. inversion H. apply Nat.eqb_eq in E.
  unfold nrows. rewrite length_map. auto.
Qed.

Lemma transpose_shape (a : mat) :
  nrows (Arr.transpose a) = ncols a /\ ncols (Arr.transpose a) = nrows a.
Proof. unfold Arr.transpose, nrows. simpl. rewrite length_map, length_seq. auto. Qed.

Lemma set_rows_shape (mask : list bool) (p n q : mat) :
  Arr.set_rows mask p n = Ok q -> length mask = nrows n /\ length mask = nrows p.
Proof.
  unfold Arr.set_rows.
  destruct (length mask =? nrows n) eqn:E1; simpl; [| discriminate].
  destruct (length mask =? nrows p) eqn:E2; simpl; [| discriminate].
  intros _. apply Nat.eqb_eq in E1, E2. auto.
Qed.

Lemma delete_col_nrows (j : nat) (a b : mat) :
  delete_col j a = Ok b -> nrows b = nrows a.
Proof.
  unfold delete_col. destruct (j <? ncols a); [| discriminate].
  intros H. inversion H. unfold nrows. simpl. apply length_map.
Qed.

Lemma getcol_length (a : mat) (j : nat) (v : vec) :
  Arr.getcol a j = Ok v -> length v = nrows a.
Proof.
  unfold Arr.getcol. destruct (j <? ncols a); [| discriminate].
  intros H. inversion H. unfold Arr.col, nrows. apply length_map.
Qed.

(** What a successful desingularization fixes about the shapes that line
    144 relies on. *)
Lemma desingularize_shapes (m : model_t (L := L)) (pp : vec) (cv : string) (tol : num) (d : desing) :
  desingularize m pp cv tol = Ok d ->
  length (d_s0 d) = length (d_c2 d) /\
  length (d_s0 d) = nrows (Arr.transpose (d_U d)) /\
  ncols (Arr.transpose (d_U d)) = length (d_c_P d).
Proof.
  unfold desingularize. intros H.
  repeat match type of H with
         | rbind _ _ = Ok _ =>
             apply rbind_inv in H; let x := fresh "x" in
                                   let E := fresh "E" in
                                   destruct H as [x [E H]]
         end.
  match goal with
  | p : (mat * vec * mat)%type |- _ => destruct p as [[U s] V]
  end.
  repeat match type of H with
         | rbind _ _ = Ok _ =>
             apply rbind_inv in H; let x := fresh "x" in
                                   let E := fresh "E" in
                                   destruct H as [x [E H]]
         end.
  inversion H; subst d; cbn [d_s0 d_c2 d_U d_c_P].
  repeat match goal with
         | E : Arr.mmul _ _ = Ok _ |- _ => apply mmul_shape in E as (? & ? & ?)
         | E : Arr.mvmul _ _ = Ok _ |- _ => apply mvmul_shape in E as (? & ?)
         | E : Arr.set_rows _ _ _ = Ok _ |- _ => apply set_rows_shape in E as (? & ?)
         | E : delete_col _ _ = Ok _ |- _ => apply delete_col_nrows in E
         | E : Arr.getcol _ _ = Ok _ |- _ => apply getcol_length in E
         end.
  pose proof (transpose_shape U) as [? ?]. repeat split; congruence.
Qed.

(** ** The stages of [get_sys] in closed form *)

(** The solver depths that lines 45 to 63 settle. *)
Definition settled_l_max (kw : gs_kwargs (L := L)) (m : dsge (L := L)) : Z :=
  match kw_l_max kw with
  | Some l => ((if (l <? 2)%Z then 2 else l) + 1)%Z
  | None => match lks m with
            | Some lk => fst lk
            | None => if kw_linear kw then 1%Z else 3%Z
            end
  end.

Definition settled_k_max (kw : gs_kwargs (L := L)) (m : dsge (L := L)) : Z :=
  match kw_k_max kw with
  | Some k => k
  | None => match lks m with
            | Some lk => snd lk
            | None => if kw_linear kw then 0%Z else 17%Z
            end
  end.

Definition settled_reduce_sys (kw : gs_kwargs (L := L)) (m : dsge (L := L)) : option bool :=
  match kw_reduce_sys kw with Some b => Some b | None => fd_reduce_sys (fdict m) end.

Definition settled_ignore_tests (kw : gs_kwargs (L := L)) (m : dsge (L := L)) : option bool :=
  match kw_ignore_tests kw with Some b => Some b | None => fd_ignore_tests (fdict m) end.

Lemma gs_settings_run (kw : gs_kwargs) (w : world) :
  exists out,
    gs_settings kw w =
      (World
         (set_fdict (Fdict (settled_reduce_sys kw (self w)) (settled_ignore_tests kw (self w))
                       (fd_mode_x (fdict (self w))) (fd_mcmc_mode_x (fdict (self w)))
                       (fd_init_value (fdict (self w))))
            (set_lks (Some (settled_l_max kw (self w), settled_k_max kw (self w))) (self w)))
         out (heap w),
       Ok (settled_reduce_sys kw (self w), settled_ignore_tests kw (self w))).
Proof.
  destruct w as [m out h].
  unfold gs_settings, settled_l_max, settled_k_max, settled_reduce_sys,
    settled_ignore_tests, bind, get_self, assign, print, ret; simpl.
  destruct (kw_l_max kw) as [l |]; simpl.
  - destruct (l <? 2)%Z; simpl; eexists; reflexivity.
  - destruct (lks m) as [[l k] |]; simpl; eexists; reflexivity.
Qed.

(** The parameters as parsed by line 72 or, failing that attribute,
    line 74. *)
Definition parsed (m : model_t (L := L)) (p : vec) : result vec :=
  match pcompile m p with
  | Raise (AttributeError _) => compile m p
  | r => r
  end.

Lemma gs_parse_ok (par : option vec) (w w' : world) (p pp : vec) (cv : string) :
  gs_parse par w = (w', Ok (p, pp, cv)) ->
  p = match par with None => p0 (self w) | Some q => q end /\
  parsed (self w) p = Ok pp /\
  const_var (self w) = Some cv /\
  w' = World (set_ppar (Some pp) (set_par_attr (Some p) (self w))) (stdout w) (heap w).
Proof.
  destruct w as [m out h].
  unfold gs_parse, parsed, bind, get_self, assign, lift, raise, ret; simpl.
  set (q := match par with None => p0 m | Some q => q end).
  destruct (match pcompile m q with
            | Raise (AttributeError _) => compile m q
            | r => r
            end) as [pp' | e] eqn:E; simpl; [| discriminate].
  destruct (const_var m) as [cv' |]; simpl; [| discriminate].
  intros H. inversion H; subst. auto.
Qed.

Lemma depends_on_future_spec (m : model_t (L := L)) (pp : vec) (cv : string) (tol : num) (d : desing) :
  desingularize m pp cv tol = Ok d ->
  depends_on_future d =
    Ok (negb (Arr.fast0_all (c2_singular d)) || negb (Arr.fast0_all (c_P_singular d))).
Proof.
  intros H. apply desingularize_shapes in H as (H1 & H2 & H3).
  unfold depends_on_future, c2_singular, c_P_singular, vsel, sel_rows, Arr.mvmul.
  apply Nat.eqb_eq in H1, H2, H3.
  rewrite H1. cbn [rbind].
  destruct (Arr.fast0_all (compress (d_s0 d) (d_c2 d))); cbn [negb orb]; [| reflexivity].
  rewrite H2. cbn [rbind ncols rows]. rewrite H3. reflexivity.
Qed.

(** ** C1: dependence on the future status of the constraint *)

(** C1.  Whenever a run of [get_sys] gets through the desingularization
    (the settings are stored, the parameters parse, lines 82 to 142 give
    their values [d]) and the entries of [c2] in the rows of the near-zero
    singular values, or the entries of [U.T[s0] @ c_P], are not all
    numerically zero, the run ends by raising [NotImplementedError] with
    the message of line 146, and no system is emitted: [self.sys] is what
    it was before the call. *)
Theorem get_sys_future_dependence
    (par : option vec) (kw : gs_kwargs) (verbose : nat) (w wa wb : world)
    (rs it : option bool) (p pp : vec) (cv : string) (d : desing) :
  gs_settings kw w = (wa, Ok (rs, it)) ->
  gs_parse par wa = (wb, Ok (p, pp, cv)) ->
  desingularize (self wb) pp cv (kw_tol kw) = Ok d ->
  Arr.fast0_all (c2_singular d) = false \/ Arr.fast0_all (c_P_singular d) = false ->
  get_sys C par kw verbose w = (wb, Raise (NotImplementedError future_msg)) /\
  sys (self wb) = sys (self w) /\
  precalc_mat (self wb) = precalc_mat (self w).
Proof.
  intros Hs Hp Hd Hz.
  split.
  - unfold get_sys, get_sys_run.
    rewrite (bind_raise _ _ w wb (NotImplementedError future_msg)); [reflexivity |].
    rewrite (bind_ok _ _ _ _ _ Hs). cbn beta iota.
    rewrite (bind_ok _ _ _ _ _ Hp). cbn beta iota.
    unfold bind at 1. unfold get_self at 1. cbn beta iota.
    unfold bind at 1. unfold lift at 1. rewrite Hd. cbn beta iota.
    unfold bind at 1. unfold lift at 1.
    rewrite (depends_on_future_spec _ _ _ _ _ Hd).
    replace (negb (Arr.fast0_all (c2_singular d)) || negb (Arr.fast0_all (c_P_singular d)))
      with true by (destruct Hz as [-> | ->]; simpl; [| rewrite orb_true_r]; reflexivity).
    reflexivity.
  - destruct (gs_settings_run kw w) as [out Hs'].
    rewrite Hs in Hs'. inversion Hs'; subst wa.
    apply gs_parse_ok in Hp as (_ & _ & _ & ->). simpl. auto.
Qed.

(** ** [get_sys] as a function of the model object

    A run of [get_sys] prints and assigns attributes one after the other;
    when it returns, the object it leaves and its local variables are the
    value of one expression in the object it was given, [get_sys_value]
    below.  The lemmas of this part relate the two. *)

Definition x_bar_of (m : model_t (L := L)) (p : vec) : result num :=
  if mem "x_bar" (parameters m)
  then rbind (list_index "x_bar" (parameters m)) (getitem p)
  else if mem "x_bar" (parafunc_names m)
  then rbind (parafunc_fun m p) (fun vals =>
       rbind (list_index "x_bar" (parafunc_names m)) (getitem vals))
  else Ok (opp L (one L)).

Lemma resolve_x_bar_run (p : vec) (w : world) :
  exists out, resolve_x_bar p w = (World (self w) out (heap w), x_bar_of (self w) p).
Proof.
  destruct w as [m out h].
  unfold resolve_x_bar, x_bar_of, bind, get_self, lift, print, ret; simpl.
  destruct (mem "x_bar" (parameters m)); [eexists; reflexivity |].
  destruct (mem "x_bar" (parafunc_names m)); eexists; reflexivity.
Qed.

(** The value that lines 181 to 190 leave in [self.P]. *)
Definition reconciled (P_old : mat) (om s_out_msk : list bool) : result mat :=
  let live := count_true (vnot s_out_msk) in
  if nrows P_old <? live then
    let P_new := Arr.zeros (length om) (length om) in
    rbind (sel_both (vnot om) (vnot om) P_new) (fun _ =>
    rbind (sel_rows (vnot om) P_new) (fun tmp =>
    rbind (set_cols (vnot om) tmp P_old) (fun _ => Ok P_new)))
  else if live <? nrows P_old then sel_both (vnot s_out_msk) (vnot s_out_msk) P_old
  else Ok P_old.

Lemma set_P_same (m : dsge (L := L)) : set_P (P m) m = m.
Proof. destruct m; reflexivity. Qed.

Lemma reconcile_P_run (s_out_msk om : list bool) (w : world) :
  out_msk (self w) = Some om ->
  exists out,
    reconcile_P s_out_msk w =
      match P (self w) with
      | None => (World (self w) out (heap w), Ok tt)
      | Some P_old =>
          match reconciled P_old om s_out_msk with
          | Ok P' => (World (set_P (Some P') (self w)) out (heap w), Ok tt)
          | Raise e => (World (self w) out (heap w), Raise e)
          end
      end.
Proof.
  destruct w as [m out h]. simpl. intros Hom.
  unfold reconcile_P, reconciled, bind, get_self, lift, print, assign, when, ret; simpl.
  destruct (P m) as [P_old |] eqn:EP; [| eexists; reflexivity].
  destruct (nrows P_old <? count_true (vnot s_out_msk)).
  - rewrite Hom.
    destruct (sel_both (vnot om) (vnot om) (Arr.zeros (length om) (length om)))
      as [blk | e]; simpl; [| eexists; reflexivity].
    destruct (negb (shape_eqb (shape blk) (shape P_old))); simpl;
      (destruct (sel_rows (vnot om) (Arr.zeros (length om) (length om)))
         as [tmp | e]; simpl; [| eexists; reflexivity]);
      (destruct (set_cols (vnot om) tmp P_old); simpl; eexists; reflexivity).
  - destruct (count_true (vnot s_out_msk) <? nrows P_old).
    + destruct (sel_both (vnot s_out_msk) (vnot s_out_msk) P_old);
        simpl; eexists; reflexivity.
    + exists out. rewrite <- EP, set_P_same. reflexivity.
Qed.

(** Lines 215 to 220 on the block that [preprocess] left. *)
Definition stable (test_obj : mat) : result unit :=
  rbind (eig L (Mat (ncols test_obj) (last_n (ncols test_obj) (rows test_obj)))) (fun ev =>
  let test_con := map (fun e => ltb L (one L) e) ev in
  if existsb id test_con
  then Raise (ValueError (explosive_msg (count_true test_con)))
  else Ok tt).

Lemma stability_test_run (w : world) (pm : mat) :
  precalc_mat (self w) = Some pm -> stability_test w = (w, stable pm).
Proof.
  intros H. unfold stability_test, stable, bind, get_self, lift, raise, ret.
  rewrite H.
  destruct (eig L _) as [ev | e]; simpl; [| reflexivity].
  destruct (existsb id _); reflexivity.
Qed.

(** What lines 193 to 207 compute from the transition matrices and the
    applied mask. *)
Record emitted : Type := Emitted {
  e_vv : list string;
  e_hx0 : mat;
  e_SIG : mat;
  e_sys : sys_t (L := L)
}.

Definition emit (m : model_t (L := L)) (pp : vec) (d : desing) (x_bar : num)
    (cx : vec) (N A : mat) (out_msk : list bool) : result emitted :=
  let s_out_msk := last_n (length (variables m)) out_msk in
  rbind (vsel (vnot s_out_msk) (variables m)) (fun vv =>
  rbind (sel_cols (vnot s_out_msk) (ZZ m pp)) (fun hx0 =>
  rbind (sel_both (vnot out_msk) (vnot out_msk) N) (fun N2 =>
  rbind (sel_both (vnot out_msk) (vnot out_msk) A) (fun A2 =>
  rbind (sel_cols (vnot out_msk) (d_J d)) (fun J2 =>
  rbind (rbind (Arr.mmul (Arr.transpose (d_BB d)) (d_D d)) (sel_rows (vnot s_out_msk))) (fun SIG =>
  rbind (vsel (vnot out_msk) cx) (fun cx2 =>
  rbind (vsel (vnot out_msk) (d_b2 d)) (fun b22 =>
  Ok (Emitted vv hx0 SIG (Sys N2 A2 J2 cx2 b22 x_bar)))))))))).

Definition settled (kw : gs_kwargs (L := L)) (m : dsge (L := L)) : dsge :=
  set_fdict (Fdict (settled_reduce_sys kw m) (settled_ignore_tests kw m)
               (fd_mode_x (fdict m)) (fd_mcmc_mode_x (fdict m)) (fd_init_value (fdict m)))
    (set_lks (Some (settled_l_max kw m, settled_k_max kw m)) m).

Definition get_sys_value (par : option vec) (kw : gs_kwargs) (verbose : nat) (m : dsge)
  : result (dsge * gs_locals) :=
  let rs := settled_reduce_sys kw m in
  let it := settled_ignore_tests kw m in
  let p := match par with None => p0 m | Some q => q end in
  let dim_v := length (variables m) in
  rbind (parsed m p) (fun pp =>
  let m1 := set_ppar (Some pp) (set_par_attr (Some p) (settled kw m)) in
  rbind (match const_var m with
         | Some cv => Ok cv
         | None => Raise (NotImplementedError "Package is only meant to work with OBCs")
         end) (fun cv =>
  rbind (desingularize m pp cv (kw_tol kw)) (fun d =>
  rbind (depends_on_future d) (fun bad =>
  rbind (if bad then Raise (NotImplementedError future_msg) else Ok tt) (fun _ =>
  rbind (if 1 <? verbose then rbind (det L (d_P2 d)) (fun _ => Ok tt) else Ok tt) (fun _ =>
  rbind (x_bar_of m p) (fun x_bar =>
  rbind (displacement d x_bar) (fun cx =>
  rbind (transitions d) (fun '(N, A) =>
  rbind (reduction_mask N A (d_b2 d) cx (ZZ m pp) dim_v) (fun mask =>
  let m2 := set_out_msk (Some (last_n dim_v mask)) m1 in
  rbind (applied_mask rs dim_v mask) (fun out_msk =>
  rbind (match P m with
         | None => Ok m2
         | Some P_old =>
             rbind (reconciled P_old (last_n dim_v mask) (last_n dim_v out_msk))
                   (fun P' => Ok (set_P (Some P') m2))
         end) (fun m3 =>
  rbind (emit m pp d x_bar cx N A out_msk) (fun e =>
  let m4 := set_sys (e_sys e)
              (set_SIG (e_SIG e)
                 (set_hx (e_hx0 e, DD m pp) (Arr.where_cols (e_hx0 e))
                    (set_names (e_vv e) (d_vv_x3 d) (d_dim_x d) (length (e_vv e)) m3))) in
  rbind (preprocess C (e_sys e) (settled_l_max kw m) (settled_k_max kw m)) (fun pm =>
  rbind (if negb (truthy it) then stable pm else Ok tt) (fun _ =>
  Ok (set_precalc_mat pm m4, GsLocals d x_bar cx N A mask out_msk)))))))))))))))).

Lemma run_lift {A B} (r : result A) (k : A -> call B) (w : world) :
  bind (lift r) k w = match r with Ok a => k a w | Raise e => (w, Raise e) end.
Proof. unfold bind, lift. destruct r; reflexivity. Qed.

Lemma run_assign {B} (f : dsge -> dsge) (k : unit -> call B) (w : world) :
  bind (assign f) k w = k tt (World (f (self w)) (stdout w) (heap w)).
Proof. reflexivity. Qed.

Lemma run_print {B} (l : line) (k : unit -> call B) (w : world) :
  bind (print l) k w = k tt (World (self w) (l :: stdout w) (heap w)).
Proof. reflexivity. Qed.

Lemma run_get_self {B} (k : dsge -> call B) (w : world) :
  bind get_self k w = k (self w) w.
Proof. reflexivity. Qed.

Lemma run_ret {A B} (a : A) (k : A -> call B) (w : world) :
  bind (ret a) k w = k a w.
Proof. reflexivity. Qed.

Lemma gs_parse_run (par : option vec) (w : world) :
  let p := match par with None => p0 (self w) | Some q => q end in
  gs_parse par w =
    match parsed (self w) p with
    | Ok pp =>
        (World (set_ppar (Some pp) (set_par_attr (Some p) (self w))) (stdout w) (heap w),
         match const_var (self w) with
         | Some cv => Ok (p, pp, cv)
         | None => Raise (NotImplementedError "Package is only meant to work with OBCs")
         end)
    | Raise e => (w, Raise e)
    end.
Proof.
  destruct w as [m out h].
  unfold gs_parse, parsed, bind, get_self, assign, lift, raise, ret; simpl.
  destruct (match pcompile m _ with
            | Raise (AttributeError _) => _
            | r => r
            end) as [pp' | e]; simpl; [| reflexivity].
  destruct (const_var m); reflexivity.
Qed.

Ltac raise_done := exists (@nil line); eexists; reflexivity.
Ltac smp := repeat (progress (cbv beta iota; cbn [rbind self stdout heap])).

Lemma get_sys_run_value (par : option vec) (kw : gs_kwargs) (verbose : nat) (w : world) :
  exists out w_err,
    get_sys_run C par kw verbose w =
      match get_sys_value par kw verbose (self w) with
      | Ok (m', loc) => (World m' out (heap w), Ok loc)
      | Raise e => (w_err, Raise e)
      end.
Proof.
  destruct w as [m out h].
  unfold get_sys_run, get_sys_value.
  destruct (gs_settings_run kw (World m out h)) as [out1 Hs].
  rewrite (bind_ok _ _ _ _ _ Hs). cbn beta iota. cbn [self stdout heap].
  fold (settled kw m).
  unfold bind at 1. rewrite gs_parse_run. cbn [self stdout heap].
  change (parsed (settled kw m)) with (parsed m).
  change (const_var (settled kw m)) with (const_var m).
  change (p0 (settled kw m)) with (p0 m).
  set (p := match par with None => p0 m | Some q => q end).
  destruct (parsed m p) as [pp | e]; smp; [| raise_done].
  destruct (const_var m) as [cv |]; smp; [| raise_done].
  rewrite run_get_self. cbn [self].
  set (m1 := set_ppar (Some pp) (set_par_attr (Some p) (settled kw m))).
  change (model m1) with (model m).
  rewrite run_lift.
  destruct (desingularize m pp cv (kw_tol kw)) as [d | e]; smp; [| raise_done].
  rewrite run_lift.
  destruct (depends_on_future d) as [bad | e]; smp; [| raise_done].
  destruct bad; smp; [raise_done |].
  rewrite run_ret.
  (* the determinant is only printed *)
  assert (Hdet : exists out2,
    forall B (k : unit -> call B),
      bind (when (1 <? verbose)
              (bind (lift (det L (d_P2 d)))
                 (fun dt => print (LineNum (tag_get_sys +:+ " determinant of `P` is ") dt))))
           k (World m1 out1 h)
      = match (if 1 <? verbose then rbind (det L (d_P2 d)) (fun _ => Ok tt) else Ok tt) with
        | Ok _ => k tt (World m1 out2 h)
        | Raise e => (World m1 out1 h, Raise e)
        end).
  { unfold when, bind, lift, print, ret.
    destruct (1 <? verbose); [| exists out1; reflexivity].
    destruct (det L (d_P2 d)) as [dt | e]; smp.
    - eexists. intros. reflexivity.
    - exists out1. intros. reflexivity. }
  destruct Hdet as [out2 Hdet]. rewrite Hdet. clear Hdet.
  destruct (if 1 <? verbose then rbind (det L (d_P2 d)) (fun _ => Ok tt) else Ok tt)
    as [[] | e]; smp; [| raise_done].
  (* x_bar *)
  destruct (resolve_x_bar_run p (World m1 out2 h)) as [out3 Hx].
  unfold bind at 1. rewrite Hx. clear Hx. smp.
  change (x_bar_of m1 p) with (x_bar_of m p).
  destruct (x_bar_of m p) as [x_bar | e]; smp; [| raise_done].
  rewrite run_lift.
  destruct (displacement d x_bar) as [cx | e]; smp; [| raise_done].
  rewrite run_lift.
  destruct (transitions d) as [[N A] | e]; smp; [| raise_done].
  rewrite run_lift.
  destruct (reduction_mask N A (d_b2 d) cx (ZZ m pp) (length (variables m)))
    as [mask | e]; smp; [| raise_done].
  rewrite run_assign. smp.
  rewrite run_lift.
  destruct (applied_mask (settled_reduce_sys kw m) (length (variables m)) mask)
    as [om | e]; smp; [| raise_done].
  (* the cached matrix *)
  set (m2 := set_out_msk (Some (last_n (length (variables m)) mask)) m1).
  destruct (reconcile_P_run (last_n (length (variables m)) om)
              (last_n (length (variables m)) mask) (World m2 out3 h) eq_refl) as [out4 Hr].
  unfold bind at 1. rewrite Hr. clear Hr. smp.
  change (P m2) with (P m).
  assert (Hm3 : exists m3 : result dsge,
    m3 = match P m with
         | Some P_old =>
             rbind (reconciled P_old (last_n (length (variables m)) mask)
                      (last_n (length (variables m)) om))
               (fun P' => Ok (set_P (Some P') m2))
         | None => Ok m2
         end) by (eexists; reflexivity).
  destruct Hm3 as [m3 Hm3]. rewrite <- Hm3.
  assert (Hstep : forall B (k : unit -> call B),
    (let (w', r) :=
       match P m with
       | Some P_old =>
           match reconciled P_old (last_n (length (variables m)) mask)
                   (last_n (length (variables m)) om) with
           | Ok P' => (World (set_P (Some P') m2) out4 h, Ok tt)
           | Raise e => (World m2 out4 h, Raise e)
           end
       | None => (World m2 out4 h, Ok tt)
       end in
     match r with
     | Ok a => k a w'
     | Raise e => (w', Raise e)
     end)
    = match m3 with
      | Ok m3' => k tt (World m3' out4 h)
      | Raise e => (World m2 out4 h, Raise e)
      end).
  { intros. subst m3. destruct (P m) as [P_old |]; [| reflexivity].
    destruct (reconciled P_old _ _); reflexivity. }
  rewrite Hstep. clear Hstep.
  assert (Hlks : forall m3', m3 = Ok m3' ->
            lks m3' = Some (settled_l_max kw m, settled_k_max kw m)).
  { intros m3' E. subst m3. destruct (P m) as [P_old |].
    - destruct (reconciled P_old _ _); inversion E; reflexivity.
    - inversion E; reflexivity. }
  clear Hm3.
  destruct m3 as [m3 | e]; smp; [| raise_done].
  specialize (Hlks m3 eq_refl).
  unfold emit.
  rewrite run_lift.
  destruct (vsel (vnot (last_n (length (variables m)) om)) (variables m))
    as [vv0 | e]; smp; [| raise_done].
  rewrite run_assign. smp. rewrite run_lift.
  destruct (sel_cols (vnot (last_n (length (variables m)) om)) (ZZ m pp))
    as [hx0 | e]; smp; [| raise_done].
  rewrite run_assign. smp. rewrite run_lift.
  destruct (sel_both (vnot om) (vnot om) N) as [N2 | e]; smp; [| raise_done].
  rewrite run_lift.
  destruct (sel_both (vnot om) (vnot om) A) as [A2 | e]; smp; [| raise_done].
  rewrite run_lift.
  destruct (sel_cols (vnot om) (d_J d)) as [J2 | e]; smp; [| raise_done].
  rewrite run_lift.
  destruct (rbind (Arr.mmul (Arr.transpose (d_BB d)) (d_D d))
              (sel_rows (vnot (last_n (length (variables m)) om))))
    as [SIG0 | e]; smp; [| raise_done].
  rewrite run_assign. smp. rewrite run_lift.
  destruct (vsel (vnot om) cx) as [cx2 | e]; smp; [| raise_done].
  rewrite run_lift.
  destruct (vsel (vnot om) (d_b2 d)) as [b22 | e]; smp; [| raise_done].
  rewrite run_assign. smp.
  cbn [e_vv e_hx0 e_SIG e_sys].
  set (m4 := set_sys _ _).
  assert (Hprint : exists out5, forall B (k : unit -> call B),
    bind (when (0 <? verbose)
            (print (Line (tag_get_sys +:+ " Creation of system matrices finished."))))
         k (World m4 out4 h) = k tt (World m4 out5 h)).
  { unfold when. destruct (0 <? verbose); eexists; intros; reflexivity. }
  destruct Hprint as [out5 Hprint]. rewrite Hprint. clear Hprint.
  rewrite run_get_self. smp.
  replace (sys m4) with (Some (Sys N2 A2 J2 cx2 b22 x_bar)) by reflexivity.
  replace (lks m4) with (Some (settled_l_max kw m, settled_k_max kw m))
    by (symmetry; exact Hlks).
  cbn [fst snd].
  rewrite run_lift.
  destruct (preprocess C _ _ _) as [pm | e]; smp; [| raise_done].
  rewrite run_assign. smp.
  unfold when.
  destruct (negb (truthy (settled_ignore_tests kw m))); smp.
  - unfold bind at 1.
    rewrite (stability_test_run (World (set_precalc_mat pm m4) out5 h) pm eq_refl).
    destruct (stable pm) as [[] | e]; smp; [| raise_done].
    exists out5, (World m out h). reflexivity.
  - exists out5, (World m out h). reflexivity.
Qed.

(** A run that returns leaves the value of [get_sys_value], and nothing
    in the caller's arrays is touched. *)
Lemma get_sys_run_ok (par : option vec) (kw : gs_kwargs) (verbose : nat)
    (w w' : world) (loc : gs_locals) :
  get_sys_run C par kw verbose w = (w', Ok loc) ->
  get_sys_value par kw verbose (self w) = Ok (self w', loc) /\ heap w' = heap w.
Proof.
  intros H. destruct (get_sys_run_value par kw verbose w) as (out & w_err & E).
  rewrite H in E.
  destruct (get_sys_value par kw verbose (self w)) as [[m' loc'] | e];
    inversion E; subst; auto.
Qed.

(** Conversely a value of [get_sys_value] is reached by a run. *)
Lemma get_sys_run_complete (par : option vec) (kw : gs_kwargs) (verbose : nat)
    (w : world) (m' : dsge) (loc : gs_locals) :
  get_sys_value par kw verbose (self w) = Ok (m', loc) ->
  exists out, get_sys_run C par kw verbose w = (World m' out (heap w), Ok loc).
Proof.
  intros H. destruct (get_sys_run_value par kw verbose w) as (out & w_err & E).
  rewrite H in E. eauto.
Qed.

(** The object that lines 181 to 190 leave, given the object [m2] that
    line 174 left. *)
Definition after_reconcile (m : dsge (L := L)) (m2 : dsge (L := L))
    (mask om : list bool) : result dsge :=
  let dim_v := length (variables m) in
  match P m with
  | None => Ok m2
  | Some P_old =>
      rbind (reconciled P_old (last_n dim_v mask) (last_n dim_v om))
            (fun P' => Ok (set_P (Some P') m2))
  end.

(** Everything that a returning run of [get_sys] has computed. *)
Inductive gs_facts (par : option vec) (kw : gs_kwargs) (verbose : nat)
    (m m' : dsge) (loc : gs_locals) : Prop :=
  GsFacts (pp : vec) (cv : string) (m3 : dsge) (e : emitted) (pm : mat)
    (f_parsed : parsed m (match par with None => p0 m | Some q => q end) = Ok pp)
    (f_const : const_var m = Some cv)
    (f_desing : desingularize m pp cv (kw_tol kw) = Ok (l_desing loc))
    (f_future : depends_on_future (l_desing loc) = Ok false)
    (f_det : (if 1 <? verbose then rbind (det L (d_P2 (l_desing loc))) (fun _ => Ok tt)
              else Ok tt) = Ok tt)
    (f_x_bar : x_bar_of m (match par with None => p0 m | Some q => q end)
               = Ok (l_x_bar loc))
    (f_cx : displacement (l_desing loc) (l_x_bar loc) = Ok (l_cx loc))
    (f_NA : transitions (l_desing loc) = Ok (l_N loc, l_A loc))
    (f_mask : reduction_mask (l_N loc) (l_A loc) (d_b2 (l_desing loc)) (l_cx loc)
                (ZZ m pp) (length (variables m)) = Ok (l_mask loc))
    (f_applied : applied_mask (settled_reduce_sys kw m) (length (variables m))
                   (l_mask loc) = Ok (l_out_msk loc))
    (f_reconcile :
       after_reconcile m
         (set_out_msk (Some (last_n (length (variables m)) (l_mask loc)))
            (set_ppar (Some pp)
               (set_par_attr (Some (match par with None => p0 m | Some q => q end))
                  (settled kw m))))
         (l_mask loc) (l_out_msk loc) = Ok m3)
    (f_emit : emit m pp (l_desing loc) (l_x_bar loc) (l_cx loc) (l_N loc) (l_A loc)
                (l_out_msk loc) = Ok e)
    (f_pre : preprocess C (e_sys e) (settled_l_max kw m) (settled_k_max kw m) = Ok pm)
    (f_stable : (if negb (truthy (settled_ignore_tests kw m)) then stable pm else Ok tt)
                = Ok tt)
    (f_final :
       m' = set_precalc_mat pm
              (set_sys (e_sys e)
                 (set_SIG (e_SIG e)
                    (set_hx (e_hx0 e, DD m pp) (Arr.where_cols (e_hx0 e))
                       (set_names (e_vv e) (d_vv_x3 (l_desing loc))
                          (d_dim_x (l_desing loc)) (length (e_vv e)) m3))))).

Ltac rbind_step H :=
  apply rbind_inv in H;
  let x := fresh "x" in
  let E := fresh "E" in
  destruct H as [x [E H]].

Lemma get_sys_value_facts (par : option vec) (kw : gs_kwargs) (verbose : nat)
    (m m' : dsge) (loc : gs_locals) :
  get_sys_value par kw verbose m = Ok (m', loc) <-> gs_facts par kw verbose m m' loc.
Proof.
  split.
  - unfold get_sys_value. intros H.
    repeat first
      [ rbind_step H
      | match type of H with
        | (let (_, _) := ?x in _) = _ => destruct x
        end ].
    inversion H; subst m' loc. clear H.
    repeat match goal with
           | E : match ?x with Some _ => _ | None => _ end = Ok _ |- _ =>
               destruct x eqn:?; [inversion E; subst | discriminate E]
           | E : (if ?b then Raise _ else Ok tt) = Ok _ |- _ =>
               destruct b; [discriminate E |]
           | x : unit |- _ => destruct x
           end.
    econstructor; cbn [l_desing l_x_bar l_cx l_N l_A l_mask l_out_msk]; eauto.
  - intros [pp cv m3 e pm H1 H2 H3 H4 H5 H6 H7 H8 H9 H10 H11 H12 H13 H14 H15].
    unfold get_sys_value. destruct loc as [d x_bar cx N A mask om].
    cbn [l_desing l_x_bar l_cx l_N l_A l_mask l_out_msk] in *.
    rewrite H1. cbn [rbind]. rewrite H2. cbn [rbind]. rewrite H3. cbn [rbind].
    rewrite H4. cbn [rbind]. rewrite H5. cbn [rbind]. rewrite H6. cbn [rbind].
    rewrite H7. cbn [rbind]. rewrite H8. cbn [rbind]. rewrite H9. cbn [rbind].
    rewrite H10. cbn [rbind].
    unfold after_reconcile in H11. rewrite H11. cbn [rbind].
    rewrite H12. cbn [rbind]. rewrite H13. cbn [rbind]. rewrite H14. cbn [rbind].
    subst m'. reflexivity.
Qed.

Lemma get_sys_run_facts (par : option vec) (kw : gs_kwargs) (verbose : nat)
    (w w' : world) (loc : gs_locals) :
  get_sys_run C par kw verbose w = (w', Ok loc) ->
  gs_facts par kw verbose (self w) (self w') loc.
Proof.
  intros H. apply get_sys_run_ok in H as [H _].
  now apply get_sys_value_facts.
Qed.

(** ** C2: the reduction mask *)

Lemma vnot_length (l : list bool) : length (vnot l) = length l.
Proof. apply length_map. Qed.

Lemma last_n_length {A} (k : nat) (l : list A) :
  length (last_n k l) = if k =? 0 then length l else Nat.min k (length l).
Proof.
  unfold last_n. destruct (k =? 0) eqn:E; [reflexivity |].
  rewrite length_drop. apply Nat.eqb_neq in E. lia.
Qed.


Lemma broadcast2_same {A B D} (f : A -> B -> D) (a : list A) (b : list B) :
  length a = length b -> broadcast2 f a b = Ok (zip_with f a b).
Proof. intros H. unfold broadcast2. apply Nat.eqb_eq in H. now rewrite H. Qed.

Lemma vsel_ok {A} (mask : list bool) (v r : list A) :
  vsel mask v = Ok r -> length mask = length v /\ r = compress mask v.
Proof.
  unfold vsel. destruct (length mask =? length v) eqn:E; [| discriminate].
  apply Nat.eqb_eq in E. intros H. inversion H. auto.
Qed.

Lemma sel_cols_ok {A} (mask : list bool) (a r : matrix A) :
  sel_cols mask a = Ok r ->
  length mask = ncols a /\ r = Mat (count_true mask) (map (compress mask) (rows a)).
Proof.
  unfold sel_cols. destruct (length mask =? ncols a) eqn:E; [| discriminate].
  apply Nat.eqb_eq in E. intros H. inversion H. auto.
Qed.

Lemma sel_rows_ok {A} (mask : list bool) (a r : matrix A) :
  sel_rows mask a = Ok r ->
  length mask = nrows a /\ r = Mat (ncols a) (compress mask (rows a)).
Proof.
  unfold sel_rows. destruct (length mask =? nrows a) eqn:E; [| discriminate].
  apply Nat.eqb_eq in E. intros H. inversion H. auto.
Qed.

Lemma sel_both_ok {A} (mask mask' : list bool) (a r : matrix A) :
  sel_both mask mask' a = Ok r ->
  length mask = nrows a /\ length mask' = ncols a /\
  r = Mat (count_true mask') (map (compress mask') (compress mask (rows a))).
Proof.
  unfold sel_both. intros H. apply rbind_inv in H as (t & H1 & H2).
  apply sel_rows_ok in H1 as [H1 ->]. apply sel_cols_ok in H2 as [H2 ->].
  simpl in *. auto.
Qed.

Lemma set_last_n_length {A} (k : nat) (w l r : list A) :
  set_last_n k w l = Ok r -> length r = length l.
Proof.
  unfold set_last_n.
  assert (Hle : length (last_n k l) <= length l).
  { rewrite last_n_length. destruct (k =? 0); lia. }
  destruct (length w =? length (last_n k l)) eqn:E.
  - apply Nat.eqb_eq in E. intros H. inversion H.
    rewrite length_app, length_take. lia.
  - destruct w as [| x [| y w']]; try discriminate.
    intros H. inversion H. rewrite length_app, length_take, length_replicate. lia.
Qed.

(** The shapes that the selections of lines 193 to 207 check. *)
Lemma emit_shapes (m : model_t (L := L)) (pp : vec) (d : desing) (x_bar : num)
    (cx : vec) (N A : mat) (om : list bool) (e : emitted) :
  emit m pp d x_bar cx N A om = Ok e ->
  let k := length om in
  let dim_v := length (variables m) in
  length (last_n dim_v om) = dim_v /\
  ncols (ZZ m pp) = dim_v /\
  nrows N = k /\ ncols N = k /\ nrows A = k /\ ncols A = k /\
  length cx = k /\ length (d_b2 d) = k /\
  e_vv e = compress (vnot (last_n dim_v om)) (variables m) /\
  sel_both (vnot om) (vnot om) N = Ok (sys_N2 (e_sys e)) /\
  sel_both (vnot om) (vnot om) A = Ok (sys_A2 (e_sys e)) /\
  sel_cols (vnot om) (d_J d) = Ok (sys_J2 (e_sys e)) /\
  vsel (vnot om) cx = Ok (sys_cx (e_sys e)) /\
  vsel (vnot om) (d_b2 d) = Ok (sys_b2 (e_sys e)) /\
  sys_x_bar (e_sys e) = x_bar.
Proof.
  unfold emit. intros H.
  repeat rbind_step H.
  inversion H; subst e; cbn [e_vv e_sys sys_N2 sys_A2 sys_J2 sys_cx sys_b2 sys_x_bar].
  repeat match goal with
         | E : vsel _ _ = Ok _ |- _ =>
             let E' := fresh in pose proof (vsel_ok _ _ _ E) as [E' ?];
             rewrite vnot_length in E'; revert E
         | E : sel_cols _ _ = Ok _ |- _ =>
             let E' := fresh in pose proof (sel_cols_ok _ _ _ E) as [E' ?];
             rewrite vnot_length in E'; revert E
         | E : sel_both _ _ _ = Ok _ |- _ =>
             let E' := fresh in let E'' := fresh in
             pose proof (sel_both_ok _ _ _ _ E) as (E' & E'' & ?);
             rewrite vnot_length in E', E''; revert E
         end.
  intros. subst. repeat split; auto; congruence.
Qed.

Lemma map_lookup {A B} (f : A -> B) (l : list A) (i : nat) :
  map f l !! i = option_map f (l !! i).
Proof.
  revert i. induction l as [| x l IH]; intros [| i]; simpl; auto.
Qed.

Lemma fast0_cols_lookup (a : mat) (i : nat) :
  i < ncols a ->
  Arr.fast0_cols a !! i = Some (forallb Arr.near0 (Arr.col i a)).
Proof.
  intros H. unfold Arr.fast0_cols. rewrite map_lookup, lookup_seq_lt by exact H.
  reflexivity.
Qed.

Lemma fast0_cols_length (a : mat) : length (Arr.fast0_cols a) = ncols a.
Proof. unfold Arr.fast0_cols. now rewrite length_map, length_seq. Qed.

Lemma fast0_length (v : vec) : length (Arr.fast0 v) = length v.
Proof. apply length_map. Qed.


Lemma fast0_zero_at (v : vec) (i : nat) :
  Arr.fast0 v !! i = Some true <-> zero_at v i.
Proof.
  unfold Arr.fast0, zero_at. rewrite map_lookup.
  destruct (v !! i) as [x |]; simpl.
  - split; [intros H; inversion H; eauto | intros (y & Hy & Hz); inversion Hy; congruence].
  - split; [discriminate | intros (y & Hy & _); discriminate].
Qed.


Lemma after_reconcile_cases (m m2 m3 : dsge) (mask om : list bool) :
  after_reconcile m m2 mask om = Ok m3 ->
  m3 = m2 \/ exists P', m3 = set_P (Some P') m2.
Proof.
  unfold after_reconcile. destruct (P m) as [P_old |].
  - intros H. apply rbind_inv in H as (P' & _ & H). inversion H. eauto.
  - intros H. inversion H. auto.
Qed.





(** ** The expectation terms

    The leading positions of the extended variables belong to the
    expectation terms.  In the row of such a term [P1] holds a single one,
    and [N1] holds a one in the column of the term. *)

Lemma index_of_lookup (x : string) (l : list string) (k : nat) :
  index_of x l = Some k -> l !! k = Some x.
Proof.
  revert k. induction l as [| y l IH]; intros k H; [discriminate H |].
  cbn [index_of] in H. destruct (String.eqb x y) eqn:E.
  - apply String.eqb_eq in E. injection H as <-. now subst.
  - destruct (index_of x l) as [j |]; [| discriminate H].
    injection H as <-. exact (IH j eq_refl).
Qed.

Lemma compress_lookup {A} (mask : list bool) (l : list A) (k : nat) (x : A) :
  compress mask l !! k = Some x ->
  exists i, l !! i = Some x /\ mask !! i = Some true.
Proof.
  revert l k. induction mask as [| b mask IH]; intros [| y l] k H;
    try (destruct k; discriminate H).
  cbn [compress] in H. destruct b.
  - destruct k as [| k].
    + injection H as ->. exists 0. split; reflexivity.
    + destruct (IH l k H) as (i & H1 & H2). exists (S i). split; assumption.
  - destruct (IH l k H) as (i & H1 & H2). exists (S i). split; assumption.
Qed.

Lemma mmul_rows (a b c : mat) :
  Arr.mmul a b = Ok c -> Forall (fun r => length r = ncols c) (rows c).
Proof.
  unfold Arr.mmul. destruct (ncols a =? nrows b); [| discriminate].
  intros H. inversion H. cbn [rows ncols].
  apply Forall_forall. intros r Hr. apply list_elem_of_In, in_map_iff in Hr as (r0 & <- & _).
  now rewrite length_map, length_seq.
Qed.

Lemma zeros_shape (r c : nat) :
  nrows (Arr.zeros (L := L) r c) = r /\ ncols (Arr.zeros (L := L) r c) = c.
Proof. unfold Arr.zeros, nrows. simpl. now rewrite length_replicate. Qed.
















(** ** C7: compiling twice *)

Lemma compress_length {A} (mask : list bool) (l : list A) :
  length mask = length l -> length (compress mask l) = count_true mask.
Proof.
  revert l. induction mask as [| b mask IH]; intros [| x l] H;
    try discriminate H; [reflexivity |].
  injection H as H. specialize (IH l H). unfold count_true in *.
  destruct b; cbn [compress].
  - rewrite filter_cons_True by reflexivity. cbn [length]. f_equal. exact IH.
  - rewrite filter_cons_False by discriminate. exact IH.
Qed.

Lemma count_true_le (mask : list bool) : count_true mask <= length mask.
Proof. unfold count_true. apply length_filter. Qed.

(** The matrix that lines 181 to 190 leave passes through them unchanged
    or shrunk on the next run; it never makes them raise. *)
Lemma reconciled_again (P_old P1 : mat) (om s : list bool) :
  length om = length s ->
  reconciled P_old om s = Ok P1 ->
  exists P2, reconciled P1 om s = Ok P2.
Proof.
  intros Hlen H. unfold reconciled in H.
  destruct (nrows P_old <? count_true (vnot s)) eqn:E1.
  - repeat rbind_step H. inversion H; subst P1. clear H.
    unfold reconciled.
    destruct (zeros_shape (length om) (length om)) as [Hr Hc].
    rewrite Hr.
    assert (Hle : count_true (vnot s) <= length om).
    { rewrite Hlen, <- (vnot_length s). apply count_true_le. }
    replace (length om <? count_true (vnot s)) with false
      by (symmetry; apply Nat.ltb_ge; lia).
    destruct (count_true (vnot s) <? length om); [| eauto].
    unfold sel_both, sel_rows, sel_cols. rewrite vnot_length, Hr, <- Hlen, Nat.eqb_refl.
    cbn [rbind ncols]. rewrite Hc, Nat.eqb_refl. eauto.
  - destruct (count_true (vnot s) <? nrows P_old) eqn:E2.
    + apply sel_both_ok in H as (Hr & Hc & ->).
      unfold reconciled.
      assert (Hn : nrows (Mat (count_true (vnot s))
                            (map (compress (vnot s)) (compress (vnot s) (rows P_old))))
                   = count_true (vnot s)).
      { unfold nrows. cbn [rows]. rewrite length_map. now apply compress_length. }
      rewrite Hn, Nat.ltb_irrefl. eauto.
    + inversion H; subst P1. unfold reconciled. rewrite E1, E2. eauto.
Qed.

Lemma applied_mask_length (rs : option bool) (dim_v : nat) (mask om : list bool) :
  applied_mask rs dim_v mask = Ok om -> length om = length mask.
Proof.
  unfold applied_mask. destruct (negb (truthy rs)).
  - apply set_last_n_length.
  - intros H. now inversion H.
Qed.

(** What a returning run leaves in the attributes that the next run reads. *)
Lemma gs_facts_state (pa : option vec) (kw : gs_kwargs) (verbose : nat)
    (m m' : dsge) (loc : gs_locals) :
  gs_facts pa kw verbose m m' loc ->
  model m' = model m /\
  fd_reduce_sys (fdict m') = settled_reduce_sys kw m /\
  fd_ignore_tests (fdict m') = settled_ignore_tests kw m /\
  lks m' = Some (settled_l_max kw m, settled_k_max kw m) /\
  par m' = Some (match pa with None => p0 m | Some q => q end) /\
  out_msk m' = Some (last_n (length (variables m)) (l_mask loc)) /\
  (exists s, sys m' = Some s) /\
  match P m with
  | None => P m' = None
  | Some P_old =>
      exists P1, P m' = Some P1 /\
        reconciled P_old (last_n (length (variables m)) (l_mask loc))
          (last_n (length (variables m)) (l_out_msk loc)) = Ok P1
  end.
Proof.
  intros [pp cv m3 e pm H1 H2 H3 H4 H5 H6 H7 H8 H9 H10 H11 H12 H13 H14 H15].
  subst m'. unfold after_reconcile in H11.
  destruct (P m) as [P_old |] eqn:EP.
  - apply rbind_inv in H11 as (P1 & HP & H11). inversion H11; subst m3.
    cbn. repeat split; eauto.
  - inversion H11; subst m3. cbn. repeat split; eauto.
Qed.

Lemma settled_again (par : option vec) (kw : gs_kwargs) (verbose : nat)
    (m m' : dsge) (loc : gs_locals) :
  gs_facts par kw verbose m m' loc ->
  settled_reduce_sys kw m' = settled_reduce_sys kw m /\
  settled_ignore_tests kw m' = settled_ignore_tests kw m /\
  settled_l_max kw m' = settled_l_max kw m /\
  settled_k_max kw m' = settled_k_max kw m.
Proof.
  intros H. apply gs_facts_state in H as (_ & Hr & Hi & Hl & _).
  unfold settled_reduce_sys, settled_ignore_tests, settled_l_max, settled_k_max.
  rewrite Hr, Hi, Hl. cbn [fst snd].
  unfold settled_reduce_sys, settled_ignore_tests, settled_l_max, settled_k_max.
  repeat split.
  - destruct (kw_reduce_sys kw); reflexivity.
  - destruct (kw_ignore_tests kw); reflexivity.
  - destruct (kw_l_max kw); reflexivity.
  - destruct (kw_k_max kw); reflexivity.
Qed.

Lemma get_sys_run_again (par : option vec) (kw : gs_kwargs) (verbose : nat)
    (w w1 : world) (loc : gs_locals) :
  get_sys_run C par kw verbose w = (w1, Ok loc) ->
  exists w2 s om,
    get_sys_run C par kw verbose w1 = (w2, Ok loc) /\
    sys (self w1) = Some s /\ sys (self w2) = Some s /\
    out_msk (self w1) = Some om /\ out_msk (self w2) = Some om.
Proof.
  intros H. apply get_sys_run_facts in H.
  pose proof (settled_again _ _ _ _ _ _ H) as (Sr & Si & Sl & Sk).
  pose proof (gs_facts_state _ _ _ _ _ _ H) as (Hm & _ & _ & _ & _ & Hom & [s Hs] & HP).
  destruct H as [pp cv m3 e pm H1 H2 H3 H4 H5 H6 H7 H8 H9 H10 H11 H12 H13 H14 H15].
  set (m := self w) in *. set (m1 := self w1) in *.
  set (p := match par with None => p0 m | Some q => q end) in *.
  assert (Hp : match par with None => p0 m1 | Some q => q end = p).
  { subst p. destruct par; [reflexivity |]. now rewrite Hm. }
  (* the cached matrix of the first run passes lines 181 to 190 again *)
  set (dim_v := length (variables m)) in *.
  assert (Hlen : length (last_n dim_v (l_mask loc)) = length (last_n dim_v (l_out_msk loc))).
  { rewrite !last_n_length. now rewrite (applied_mask_length _ _ _ _ H10). }
  assert (Hrec : exists m3',
    after_reconcile m1
      (set_out_msk (Some (last_n dim_v (l_mask loc)))
         (set_ppar (Some pp) (set_par_attr (Some p) (settled kw m1))))
      (l_mask loc) (l_out_msk loc) = Ok m3').
  { unfold after_reconcile. rewrite Hm. fold dim_v.
    destruct (P m) as [P_old |].
    - destruct HP as (P1 & -> & HP).
      destruct (reconciled_again _ _ _ _ Hlen HP) as [P2 ->]. cbn [rbind]. eauto.
    - rewrite HP. eauto. }
  destruct Hrec as [m3' Hrec].
  set (m2 := set_precalc_mat pm
               (set_sys (e_sys e)
                  (set_SIG (e_SIG e)
                     (set_hx (e_hx0 e, DD m1 pp) (Arr.where_cols (e_hx0 e))
                        (set_names (e_vv e) (d_vv_x3 (l_desing loc))
                           (d_dim_x (l_desing loc)) (length (e_vv e)) m3'))))).
  assert (F : gs_facts par kw verbose m1 m2 loc).
  { apply (GsFacts par kw verbose m1 m2 loc pp cv m3' e pm).
    - rewrite Hp, Hm. exact H1.
    - rewrite Hm. exact H2.
    - rewrite Hm. exact H3.
    - exact H4.
    - exact H5.
    - rewrite Hp, Hm. exact H6.
    - exact H7.
    - exact H8.
    - rewrite Hm. exact H9.
    - rewrite Sr, Hm. exact H10.
    - rewrite Hp, Hm. exact Hrec.
    - rewrite Hm. exact H12.
    - rewrite Sl, Sk. exact H13.
    - rewrite Si. exact H14.
    - reflexivity. }
  apply get_sys_value_facts in F.
  destruct (get_sys_run_complete _ _ _ _ _ _ F) as [out Hrun].
  assert (Hs' : s = e_sys e).
  { rewrite H15 in Hs. cbn in Hs. congruence. }
  eexists _, s, _. split; [exact Hrun |]. split; [exact Hs |].
  cbn [self]. split; [| split; [exact Hom |]].
  - subst m2 s. reflexivity.
  - subst m2. apply after_reconcile_cases in Hrec as [-> | [P' ->]]; cbn;
      fold dim_v; reflexivity.
Qed.

(** C7.  If [get_sys] returns for a parameter vector, a [reduce_sys]
    setting and depths [l_max], [k_max], then called again on the object it
    left, with the same arguments, it returns again, and the emitted system
    [self.sys] and the stored mask [self.out_msk] are the same after both
    calls. *)
Theorem get_sys_deterministic
    (par : option vec) (kw : gs_kwargs) (verbose : nat) (w w1 : world) :
  get_sys C par kw verbose w = (w1, Ok tt) ->
  exists w2 s om,
    get_sys C par kw verbose w1 = (w2, Ok tt) /\
    sys (self w1) = Some s /\ sys (self w2) = Some s /\
    out_msk (self w1) = Some om /\ out_msk (self w2) = Some om.
Proof.
  unfold get_sys. intros H.
  apply bind_inv in H as (loc & w1' & H & Hret).
  inversion Hret; subst w1'.
  destruct (get_sys_run_again _ _ _ _ _ _ H) as (w2 & s & om & Hrun & Hrest).
  exists w2, s, om. split; [| exact Hrest].
  now rewrite (bind_ok _ _ _ _ _ Hrun).
Qed.

(** ** C3: the cached state-transition matrix *)

(** numpy can broadcast an array of the shape of [v] to shape [(k, k)]. *)
Definition fits (v : mat) (k : nat) : bool :=
  ((nrows v =? k) || (nrows v =? 1)) && ((ncols v =? k) || (ncols v =? 1)).

Definition broadcast_msg : string :=
  "shape mismatch: value array could not be broadcast to indexing result".

(** C3.  In the growing branch of lines 181 to 190 (a cached matrix with
    fewer rows than variables survive the applied mask) [self.P] becomes
    the zero matrix of the size of the stored mask: the assignment of line
    187 writes into a copy, so no block of the new matrix holds the old
    one.  This happens when the old matrix can be broadcast to the block of
    the surviving rows and columns; when it cannot, line 187 raises. *)
Theorem reconcile_P_grow (s om : list bool) (w : world) (P_old : mat) :
  P (self w) = Some P_old ->
  out_msk (self w) = Some om ->
  nrows P_old < count_true (vnot s) ->
  exists out,
    reconcile_P s w =
      if fits P_old (count_true (vnot om))
      then (World (set_P (Some (Arr.zeros (length om) (length om))) (self w)) out (heap w),
            Ok tt)
      else (World (self w) out (heap w), Raise (ValueError broadcast_msg)).
Proof.
  intros HP Hom Hlt.
  destruct (reconcile_P_run s om w Hom) as [out H]. exists out.
  rewrite H, HP. unfold reconciled.
  apply Nat.ltb_lt in Hlt. rewrite Hlt.
  unfold sel_both, sel_rows, sel_cols, set_cols, fits, Arr.zeros, nrows.
  cbn [rows ncols rbind].
  repeat (progress (rewrite ?vnot_length, ?length_replicate, ?Nat.eqb_refl;
                    cbn [rows ncols rbind negb])).
  rewrite compress_length by (now rewrite vnot_length, length_replicate).
  destruct (((length (rows P_old) =? count_true (vnot om)) || (length (rows P_old) =? 1))
            && ((ncols P_old =? count_true (vnot om)) || (ncols P_old =? 1)));
    reflexivity.
Qed.

(** In the shrinking branch the rows and columns that survive the applied
    mask are kept, when the mask has the size of the cached matrix. *)
Lemma reconcile_P_shrink (s om : list bool) (w : world) (P_old : mat) :
  P (self w) = Some P_old ->
  out_msk (self w) = Some om ->
  count_true (vnot s) < nrows P_old ->
  exists out,
    reconcile_P s w =
      match sel_both (vnot s) (vnot s) P_old with
      | Ok P' => (World (set_P (Some P') (self w)) out (heap w), Ok tt)
      | Raise e => (World (self w) out (heap w), Raise e)
      end.
Proof.
  intros HP Hom Hlt.
  destruct (reconcile_P_run s om w Hom) as [out H]. exists out.
  rewrite H, HP. unfold reconciled.
  replace (nrows P_old <? count_true (vnot s)) with false
    by (symmetry; apply Nat.ltb_ge; lia).
  apply Nat.ltb_lt in Hlt. rewrite Hlt. reflexivity.
Qed.

(** ** C4: the bound [x_bar] *)
















Lemma getitem_ok {A} (l : list A) (i : nat) (x : A) :
  getitem l i = Ok x -> l !! i = Some x.
Proof. unfold getitem. destruct (l !! i); intros H; now inversion H. Qed.


(** ** C8 and C9: lookup errors *)

Lemma mem_cons (x y : string) (l : list string) :
  mem x (y :: l) = String.eqb x y || mem x l.
Proof.
  unfold mem. simpl. destruct (String.eqb x y); [reflexivity |].
  destruct (index_of x l); reflexivity.
Qed.

Lemma mem_nil (x : string) : mem x [] = false.
Proof. reflexivity. Qed.

Lemma set_par_attr_restore (m : dsge (L := L)) (p q : vec) :
  par m = Some p -> set_par_attr (Some p) (set_par_attr (Some q) m) = m.
Proof. destruct m; simpl. intros ->. reflexivity. Qed.

Lemma named_set_unknown (tok : string) (kw : gp_kwargs) (w : world) :
  mem tok named_tokens = false -> named_set C tok kw w = (w, Ok None).
Proof.
  unfold named_tokens. rewrite !mem_cons, mem_nil. intros H.
  repeat (apply orb_false_iff in H as [? H]).
  unfold named_set, str_in. rewrite !mem_cons, mem_nil.
  rewrite run_get_self.
  repeat match goal with E : String.eqb _ _ = false |- _ => rewrite E; clear E end.
  reflexivity.
Qed.

(** An unknown token: the parameters are set to the calibration, the
    named sets are searched in vain on that object, the former parameters
    are put back and [KeyError] is raised. *)
Lemma reset_and_read_unknown (tok : string) (kw : gp_kwargs) (w : world) (p : vec) :
  par (self w) = Some p ->
  mem tok named_tokens = false ->
  let w_mid := World (set_par_attr (Some (par_fix (self w))) (self w)) (stdout w) (heap w) in
  par (self w_mid) = Some (par_fix (self w)) /\
  named_set C tok kw w_mid = (w_mid, Ok None) /\
  reset_and_read C (DStr tok) kw w = (w, Raise (KeyError (lookup_msg tok))).
Proof.
  intros Hp Htok w_mid. split; [reflexivity |].
  split; [now apply named_set_unknown |].
  unfold reset_and_read. rewrite run_get_self, Hp, run_assign.
  fold w_mid. unfold bind at 1. rewrite (named_set_unknown tok kw w_mid Htok).
  cbv beta iota. rewrite run_assign. unfold raise. cbn [self stdout heap w_mid].
  rewrite (set_par_attr_restore _ _ _ Hp). destruct w; reflexivity.
Qed.

(** The vector [pars] of lines 408 to 414. *)
Definition overlay (m : dsge (L := L)) (p : vec) (npar : option vec) : result vec :=
  match npar with
  | None => Ok p
  | Some np =>
      if negb (length np =? length (par_fix m))
      then put_idx p (prior_arg m) np
      else Ok np
  end.

Lemma get_par_body_unknown (rec : dummy_t -> gp_kwargs -> call pyret)
    (tok : string) (kw : gp_kwargs) (w : world) (p : vec) :
  par (self w) = Some p ->
  mem tok (parameters (self w)) = false ->
  mem tok (parafunc_names (self w)) = false ->
  mem tok named_tokens = false ->
  get_par_body C rec (DStr tok) kw w =
    match overlay (self w) p (gp_npar kw) with
    | Ok _ => (w, Raise (KeyError (lookup_msg tok)))
    | Raise e => (w, Raise e)
    end.
Proof.
  intros Hp H1 H2 H3.
  assert (Hcov : String.eqb tok "cov_mat" = false /\ String.eqb tok "best" = false).
  { revert H3. unfold named_tokens. rewrite !mem_cons.
    intros H. apply orb_false_iff in H as [? H]. apply orb_false_iff in H as [? H]. auto. }
  destruct Hcov as [Hcov Hbest].
  unfold get_par_body, overlay. cbv zeta.
  rewrite run_get_self, Hp, run_ret, run_get_self, Hp.
  assert (Hrest :
    bind (reset_and_read C (DStr tok) kw)
         (fun '(pars0, c) => finish C (DStr tok) kw pars0 c) w
    = (w, Raise (KeyError (lookup_msg tok)))).
  { unfold bind.
    destruct (reset_and_read_unknown tok kw w p Hp H3) as (_ & _ & ->). reflexivity. }
  destruct (gp_npar kw) as [np |].
  - destruct (negb (length np =? length (par_fix (self w)))).
    + rewrite run_lift. destruct (put_idx p (prior_arg (self w)) np); [| reflexivity].
      unfold str_in. rewrite H1, H2, Hcov, Hbest. exact Hrest.
    + rewrite run_ret. unfold str_in. rewrite H1, H2, Hcov, Hbest. exact Hrest.
  - rewrite run_ret. unfold str_in. rewrite H1, H2, Hcov, Hbest. exact Hrest.
Qed.

(** ** What the calls leave alone *)

(** A call leaves the part [f] of the model object as it was, whether it
    returns or raises. *)
Definition preserves {X A} (f : dsge (L := L) -> X) (c : call A) : Prop :=
  forall w w' r, c w = (w', r) -> f (self w') = f (self w).

Section Preserves.

Context {X : Type} (f : dsge (L := L) -> X).

Lemma preserves_bind {A B} (c : call A) (k : A -> call B) :
  preserves f c -> (forall a, preserves f (k a)) -> preserves f (bind c k).
Proof.
  intros Hc Hk w w' r. unfold bind.
  destruct (c w) as [w1 [a | e]] eqn:E; intros H.
  - rewrite (Hk _ _ _ _ H). exact (Hc _ _ _ E).
  - inversion H; subst. exact (Hc _ _ _ E).
Qed.

Lemma preserves_try {A} (c h : call A) :
  preserves f c -> preserves f h -> preserves f (try_except c h).
Proof.
  intros Hc Hh w w' r. unfold try_except.
  destruct (c w) as [w1 [a | e]] eqn:E; intros H.
  - inversion H; subst. exact (Hc _ _ _ E).
  - rewrite (Hh _ _ _ H). exact (Hc _ _ _ E).
Qed.

Lemma preserves_lift {A} (r : result A) : preserves f (lift r).
Proof. intros w w' r' H. now inversion H. Qed.

Lemma preserves_ret {A} (a : A) : preserves f (ret (L := L) a).
Proof. intros w w' r' H. now inversion H. Qed.

Lemma preserves_raise {A} (e : exn) : preserves f (raise (L := L) (A := A) e).
Proof. intros w w' r' H. now inversion H. Qed.

Lemma preserves_get_self : preserves f get_self.
Proof. intros w w' r' H. now inversion H. Qed.

Lemma preserves_print (l : line) : preserves f (print l).
Proof. intros w w' r' H. now inversion H. Qed.

Lemma preserves_assign (g : dsge -> dsge) :
  (forall m, f (g m) = f m) -> preserves f (assign g).
Proof. intros Hg w w' r' H. inversion H. simpl. apply Hg. Qed.

Lemma preserves_when (b : bool) (c : call unit) :
  preserves f c -> preserves f (when b c).
Proof. intros H. destruct b; [exact H | apply preserves_ret]. Qed.

Lemma preserves_heap {A} (c : world -> world * result A) :
  (forall w, self (fst (c w)) = self w) -> preserves f c.
Proof. intros H w w' r E. specialize (H w). rewrite E in H. simpl in H. now rewrite H. Qed.

End Preserves.

Ltac preserves_step :=
  first
    [ apply preserves_bind; [| intros ?]
    | apply preserves_try
    | apply preserves_lift | apply preserves_ret | apply preserves_raise
    | apply preserves_get_self | apply preserves_print | apply preserves_when
    | apply preserves_assign; intros ?; reflexivity
    | match goal with
      | |- preserves _ (match ?x with _ => _ end) => destruct x
      | |- preserves _ (let (_, _) := ?x in _) => destruct x
      end ].

(** [get_sys] never touches the model, nor the filter. *)
Lemma get_sys_preserves_model (pa : option vec) (kw : gs_kwargs) (verbose : nat) :
  preserves model (get_sys C pa kw verbose).
Proof.
  unfold get_sys, get_sys_run, gs_settings, gs_parse, resolve_x_bar, reconcile_P,
    stability_test.
  repeat preserves_step.
Qed.

Lemma get_sys_preserves_filter (pa : option vec) (kw : gs_kwargs) (verbose : nat) :
  preserves filter (get_sys C pa kw verbose).
Proof.
  unfold get_sys, get_sys_run, gs_settings, gs_parse, resolve_x_bar, reconcile_P,
    stability_test.
  repeat preserves_step.
Qed.

(** ** [get_par(None)] *)

Lemma take_idx_length {A} (l : list A) (idx : list nat) (c : list A) :
  take_idx l idx = Ok c -> length c = length idx.
Proof.
  revert c. induction idx as [| i idx IH]; simpl; intros c H.
  - now inversion H.
  - apply rbind_inv in H as (x & _ & H). apply rbind_inv in H as (xs & Hxs & H).
    inversion H. simpl. f_equal. now apply IH.
Qed.

Lemma put_pairs_back {A} (l : list A) (idx : list nat) (c : list A) :
  take_idx l idx = Ok c -> put_pairs l idx c = Ok l.
Proof.
  revert c. induction idx as [| i idx IH]; simpl; intros c H.
  - now inversion H.
  - apply rbind_inv in H as (x & Hx & H). apply rbind_inv in H as (xs & Hxs & H).
    inversion H; subst c. apply getitem_ok in Hx.
    unfold setitem. rewrite (proj2 (Nat.ltb_lt _ _) (lookup_lt_Some _ _ _ Hx)).
    simpl. rewrite (list_insert_id _ _ _ Hx). now apply IH.
Qed.

(** Writing back the entries that were read changes nothing. *)
Lemma put_idx_back {A} (l : list A) (idx : list nat) (c : list A) :
  take_idx l idx = Ok c -> put_idx l idx c = Ok l.
Proof.
  intros H. unfold put_idx.
  rewrite (take_idx_length _ _ _ H), Nat.eqb_refl. now apply put_pairs_back.
Qed.

Lemma put_pairs_fail {A} (l l' : list A) (idx : list nat) (c : list A) (e : exn) :
  take_idx l idx = Raise e -> length l' = length l -> length c = length idx ->
  exists e', put_pairs l' idx c = Raise e'.
Proof.
  revert l' c. induction idx as [| i idx IH]; simpl; intros l' c H Hl Hc.
  - discriminate H.
  - destruct c as [| x c]; [discriminate Hc |]. injection Hc as Hc.
    unfold setitem. destruct (i <? length l') eqn:Ei; simpl; [| eauto].
    apply Nat.ltb_lt in Ei. rewrite Hl in Ei.
    destruct (lookup_lt_is_Some_2 l i Ei) as [y Hy].
    unfold getitem in H. rewrite Hy in H. simpl in H.
    destruct (take_idx l idx) as [xs | e0] eqn:Et; [discriminate H |].
    simpl in H. inversion H; subst e0.
    apply (IH _ _ eq_refl); [now rewrite length_insert | exact Hc].
Qed.

(** Where reading at the indices fails, so does writing at them. *)
Lemma put_idx_fail {A} (l : list A) (idx : list nat) (c : list A) (e : exn) :
  take_idx l idx = Raise e -> exists e', put_idx l idx c = Raise e'.
Proof.
  intros H. unfold put_idx.
  destruct (length c =? length idx) eqn:E.
  - apply Nat.eqb_eq in E. now apply (put_pairs_fail l l idx c e).
  - destruct c as [| x [| y c]]; eauto.
    apply (put_pairs_fail l l idx _ e); [exact H | reflexivity | apply length_replicate].
Qed.

Ltac closed_tests :=
  repeat match goal with
         | |- context [String.eqb ?a ?b] =>
             let v := eval vm_compute in (String.eqb a b) in
             match v with
             | true => change (String.eqb a b) with true
             | false => change (String.eqb a b) with false
             end
         | |- context [str_in ?a ?l] =>
             let v := eval vm_compute in (str_in a l) in
             match v with
             | true => change (str_in a l) with true
             | false => change (str_in a l) with false
             end
         end;
  cbn [orb andb negb gp_full gp_asdict gp_nsamples gp_inner gp_npar gp_verbose gp_args
       gp_roundto gp_debug Nat.ltb Nat.leb].

Lemma fill_init_preserves (idx : list nat) : preserves model (fill_init idx).
Proof.
  induction idx as [| i idx IH]; simpl; [apply preserves_ret |].
  repeat first [ exact IH | preserves_step ].
Qed.

Lemma finish_inner_preserves (d : dummy_t) (kw : gp_kwargs) (pars : vec) (c : cand) :
  preserves model (finish C d (gp_inner kw) pars c).
Proof.
  unfold finish. closed_tests. repeat preserves_step.
Qed.

Lemma get_par_leaf_preserves (tok : string) (kw : gp_kwargs) :
  tok = "mode" \/ tok = "init" ->
  preserves model (get_par_leaf C (DStr tok) (gp_inner kw)).
Proof.
  intros [-> | ->]; unfold get_par_leaf, get_par_body, reset_and_read, named_set;
    cbv zeta; closed_tests;
    repeat first [ apply get_sys_preserves_model | apply finish_inner_preserves
                 | apply fill_init_preserves | preserves_step ].
Qed.

Lemma get_par_best_preserves (kw : gp_kwargs) :
  preserves model (get_par_best C (DStr "best") (gp_inner kw)).
Proof.
  unfold get_par_best, get_par_body. cbv zeta. closed_tests.
  assert (Hin : gp_inner (gp_inner kw) = gp_inner kw) by reflexivity.
  rewrite Hin.
  repeat first [ apply get_sys_preserves_model | apply finish_inner_preserves
               | apply get_par_leaf_preserves; auto | preserves_step ].
Qed.

(** With all defaults, [get_par] returns the current parameters and
    changes nothing; it returns only if the indices of the estimated
    subset lie within the parameter vector. *)
Lemma get_par_none (w w' : world) (p : vec) (r : pyret) :
  par (self w) = Some p ->
  get_par C DNone gp_defaults w = (w', Ok r) ->
  w' = w /\ r = RVec p /\ exists c, take_idx p (prior_arg (self w)) = Ok c.
Proof.
  intros Hp. unfold get_par, get_par_body, gp_defaults. cbv zeta.
  rewrite run_get_self, Hp, run_ret, run_get_self, Hp.
  cbn [gp_npar]. rewrite run_ret.
  destruct (take_idx p (prior_arg (self w))) as [c | e] eqn:Et.
  - unfold bind at 1. unfold try_except, bind at 1. unfold lift, ret.
    cbv beta iota.
    unfold finish. rewrite run_get_self. cbn [gp_full gp_asdict negb]. cbv beta iota.
    rewrite run_lift, run_lift, (put_idx_back _ _ _ Et).
    unfold ret. intros H. inversion H. eauto.
  - unfold bind at 1. unfold try_except, bind at 1. unfold lift at 1.
    cbv beta iota.
    unfold bind at 1.
    destruct (get_par_best C (DStr "best") (gp_inner (GpKwargs None false true 1 0 5 false gs_defaults)) w)
      as [w2 [v | e2]] eqn:Eb; [| discriminate].
    pose proof (get_par_best_preserves _ _ _ _ Eb) as Hm.
    rewrite run_lift.
    destruct (cand_of v) as [cd | e3]; [| discriminate].
    unfold ret at 1. cbv beta iota.
    unfold finish. rewrite run_get_self. cbn [gp_full gp_asdict gp_nsamples negb].
    cbv beta iota.
    replace (prior_arg (self w2)) with (prior_arg (self w)) by (now rewrite Hm).
    destruct cd as [x | v0 | xs | ov].
    + rewrite run_lift, run_lift.
      destruct (put_idx_fail p (prior_arg (self w)) [x] e Et) as [e' ->]. discriminate.
    + rewrite run_lift, run_lift.
      destruct (put_idx_fail p (prior_arg (self w)) v0 e Et) as [e' ->]. discriminate.
    + rewrite run_lift. cbn [seq rmap].
      destruct (getitem xs 0) as [x |]; cbn [rbind]; [| discriminate].
      destruct (put_idx_fail p (prior_arg (self w)) x e Et) as [e' ->]. discriminate.
    + rewrite run_lift.
      destruct (all_some ov) as [v0 |]; [| discriminate].
      rewrite run_lift.
      destruct (put_idx_fail p (prior_arg (self w)) v0 e Et) as [e' ->]. discriminate.
Qed.

(** ** [set_par] *)

Lemma index_of_mem (x : string) (l : list string) (i : nat) :
  index_of x l = Some i -> mem x l = true.
Proof. unfold mem. now intros ->. Qed.

Lemma sp_target_sets (d : dummy_t) (kw : sp_kwargs) (p : vec) (w : world) :
  sets_vector (self w) d kw p -> sp_target C d kw w = (w, Ok (inr p)).
Proof.
  intros H. unfold sp_target. rewrite run_get_self.
  fold (current (self w)).
  destruct H as [name kw x i Hs Hn Hi Hlt | v kw Hs Hl | v p kw Hs Hne Hl Hput].
  - rewrite Hs. unfold str_in. rewrite (index_of_mem _ _ _ Hi), Hn.
    unfold list_index. rewrite Hi. cbn [rbind]. unfold setitem.
    apply Nat.ltb_lt in Hlt. rewrite Hlt. reflexivity.
  - rewrite Hs. apply Nat.eqb_eq in Hl. rewrite Hl. reflexivity.
  - rewrite Hs. apply Nat.eqb_neq in Hne. apply Nat.eqb_eq in Hl.
    rewrite Hne, Hl. rewrite run_lift, Hput. reflexivity.
Qed.

Lemma refresh_filter_ok (w w' : world) :
  refresh_filter w = (w', Ok tt) ->
  match filter (self w) with
  | None => w' = w
  | Some f =>
      exists pp Q,
        ppar (self w) = Some pp /\
        w' = World (set_filter (Some (Filter (f_name f) (Some (QQ (self w) pp)) (Some Q)))
                      (self w)) (stdout w) (heap w) /\
        if String.eqb (f_name f) "KalmanFilter"
        then exists sig CO,
               SIG (self w) = Some sig /\
               Arr.mmul sig (QQ (self w) pp) = Ok CO /\
               Arr.mmul CO (Arr.transpose CO) = Ok Q
        else f_name f <> "ParticleFilter" /\
             Arr.mmul (QQ (self w) pp) (QQ (self w) pp) = Ok Q
  end.
Proof.
  unfold refresh_filter. rewrite run_get_self.
  destruct (filter (self w)) as [f |]; [| intros H; now inversion H].
  destruct (ppar (self w)) as [pp |]; [| discriminate].
  rewrite run_assign.
  destruct (String.eqb (f_name f) "KalmanFilter").
  - destruct (SIG (self w)) as [sig |]; [| discriminate].
    rewrite run_lift.
    destruct (Arr.mmul sig (QQ (self w) pp)) as [CO |] eqn:E1; [| discriminate].
    cbn [rbind].
    destruct (Arr.mmul CO (Arr.transpose CO)) as [Q |] eqn:E2; [| discriminate].
    intros H. inversion H. exists pp, Q. repeat split. eauto.
  - destruct (String.eqb (f_name f) "ParticleFilter") eqn:E; [discriminate |].
    rewrite run_lift.
    destruct (Arr.mmul (QQ (self w) pp) (QQ (self w) pp)) as [Q |] eqn:E1; [| discriminate].
    intros H. inversion H. exists pp, Q. repeat split; auto.
    intros Hn. rewrite Hn in E. vm_compute in E. discriminate E.
Qed.

Lemma sp_report_frame (kw : sp_kwargs) (w w' : world) (r : result unit) :
  sp_report kw w = (w', r) -> self w' = self w /\ heap w' = heap w.
Proof.
  unfold sp_report, when. destruct (0 <? sp_verbose kw); [| intros H; now inversion H].
  rewrite run_get_self. destruct (par (self w)) as [q |]; [| intros H; now inversion H].
  rewrite run_lift. destruct (parafunc_fun (self w) q); intros H; now inversion H.
Qed.

(** What a returning [get_sys] leaves in [self.par]. *)
Lemma get_sys_ok_state (pa : option vec) (kw : gs_kwargs) (verbose : nat) (w w1 : world) :
  get_sys C pa kw verbose w = (w1, Ok tt) ->
  par (self w1) = Some (match pa with None => p0 (self w) | Some q => q end) /\
  (exists pp, ppar (self w1) = Some pp) /\
  heap w1 = heap w.
Proof.
  unfold get_sys. intros H. apply bind_inv in H as (loc & w1' & H & Hret).
  inversion Hret; subst w1'.
  pose proof (get_sys_run_ok _ _ _ _ _ _ H) as [_ Hh].
  apply get_sys_run_facts in H.
  pose proof (gs_facts_state _ _ _ _ _ _ H) as (_ & _ & _ & _ & Hp & _).
  split; [exact Hp |]. split; [| exact Hh].
  destruct H as [pp cv m3 e pm H1 H2 H3 H4 H5 H6 H7 H8 H9 H10 H11 H12 H13 H14 H15].
  exists pp. rewrite H15. apply after_reconcile_cases in H11 as [-> | [P' ->]]; reflexivity.
Qed.

(** A call of [set_par] that sets a vector and returns: the compilation,
    the refreshed filter, and the vector handed back. *)
Lemma set_par_anatomy (d : dummy_t) (kw : sp_kwargs) (p : vec) (w w' : world) (r : pyret) :
  sets_vector (self w) d kw p ->
  set_par C d kw w = (w', Ok r) ->
  exists w1 w2,
    get_sys C (Some p) (sp_args kw) (sp_verbose kw) w = (w1, Ok tt) /\
    refresh_filter w1 = (w2, Ok tt) /\
    self w' = self w2 /\ heap w' = heap w /\
    par (self w2) = Some p /\
    r = RVec p /\
    get_par C DNone gp_defaults w' = (w', Ok (RVec p)).
Proof.
  intros Hs H. unfold set_par in H.
  rewrite (bind_ok _ _ _ _ _ (sp_target_sets _ _ _ _ Hs)) in H.
  apply bind_inv in H as ([] & w1 & Hg & H).
  apply bind_inv in H as ([] & w2 & Hf & H).
  apply bind_inv in H as ([] & w3 & Hr & H).
  apply sp_report_frame in Hr as [Hr1 Hr2].
  pose proof (get_sys_ok_state _ _ _ _ _ Hg) as (Hp1 & _ & Hh1).
  assert (Hw2 : par (self w2) = Some p /\ heap w2 = heap w1).
  { apply refresh_filter_ok in Hf.
    destruct (filter (self w1)) as [f |].
    - destruct Hf as (pp & Q & _ & -> & _). auto.
    - subst w2. auto. }
  destruct Hw2 as [Hp2 Hh2].
  assert (Hp3 : par (self w3) = Some p) by (now rewrite Hr1).
  pose proof (get_par_none _ _ _ _ Hp3 H) as (-> & -> & _).
  exists w1, w2. repeat split; auto; congruence.
Qed.

(** ** C5: setting parameters recompiles *)

(** C5.  For a call of [set_par] that sets one parameter by name (without
    [npar]), the full vector, or the estimated subset: if [get_sys] raises
    on the resulting vector, [set_par] raises the same exception; and if
    [set_par] returns, [get_sys] has been run on the resulting vector and
    has returned, that vector is [self.par], and a filter attached to the
    model has its [eps_cov] and its [Q] recomputed from the compiled
    system: for a ["KalmanFilter"], [Q = CO @ CO.T] with
    [CO = self.SIG @ QQ(self.ppar)], with the [SIG] and [ppar] that the
    compilation left; for another filter, [Q = QQ(ppar) @ QQ(ppar)]. *)
Theorem set_par_recompiles (d : dummy_t) (kw : sp_kwargs) (p : vec) (w : world) :
  sets_vector (self w) d kw p ->
  (forall w1 e,
     get_sys C (Some p) (sp_args kw) (sp_verbose kw) w = (w1, Raise e) ->
     set_par C d kw w = (w1, Raise e)) /\
  (forall w' r,
     set_par C d kw w = (w', Ok r) ->
     exists w1 pp,
       get_sys C (Some p) (sp_args kw) (sp_verbose kw) w = (w1, Ok tt) /\
       par (self w') = Some p /\
       ppar (self w1) = Some pp /\ ppar (self w') = Some pp /\
       sys (self w') = sys (self w1) /\
       match filter (self w) with
       | None => filter (self w') = None
       | Some f =>
           exists Q,
             filter (self w') = Some (Filter (f_name f) (Some (QQ (self w) pp)) (Some Q)) /\
             if String.eqb (f_name f) "KalmanFilter"
             then exists sig CO,
                    SIG (self w1) = Some sig /\
                    Arr.mmul sig (QQ (self w) pp) = Ok CO /\
                    Arr.mmul CO (Arr.transpose CO) = Ok Q
             else Arr.mmul (QQ (self w) pp) (QQ (self w) pp) = Ok Q
       end).
Proof.
  intros Hs. split.
  - intros w1 e Hg. unfold set_par.
    rewrite (bind_ok _ _ _ _ _ (sp_target_sets _ _ _ _ Hs)).
    now rewrite (bind_raise _ _ _ _ _ Hg).
  - intros w' r H.
    destruct (set_par_anatomy _ _ _ _ _ _ Hs H) as (w1 & w2 & Hg & Hf & Hw & _ & Hp & _ & _).
    pose proof (get_sys_ok_state _ _ _ _ _ Hg) as (_ & [pp Hpp] & _).
    pose proof (get_sys_preserves_filter _ _ _ _ _ _ Hg) as Hfil.
    pose proof (get_sys_preserves_model _ _ _ _ _ _ Hg) as Hmod.
    exists w1, pp. split; [exact Hg |]. rewrite Hw. split; [exact Hp |].
    split; [exact Hpp |].
    apply refresh_filter_ok in Hf. rewrite Hfil in Hf.
    destruct (filter (self w)) as [f |].
    + destruct Hf as (pp' & Q & Hpp' & -> & HQ).
      rewrite Hpp in Hpp'. inversion Hpp'; subst pp'.
      cbn [self]. split; [exact Hpp |]. split; [reflexivity |].
      exists Q. rewrite <- Hmod. split; [reflexivity |].
      destruct (String.eqb (f_name f) "KalmanFilter"); [exact HQ | tauto].
    + subst w2. auto.
Qed.

(** ** C6: setting and reading back *)

(** C6.  If [set_par] is given a vector [v] of the length of the
    calibration and returns (the compilation has succeeded), then
    [get_par(None)] on the object it left returns [v], without changing
    the object; in particular the entries of its result at the indices of
    the estimated subset are those of [v]. *)
Theorem set_par_get_par_roundtrip (v : vec) (kw : sp_kwargs) (w w' : world) (r : pyret) :
  sp_setpar kw = None ->
  length v = length (par_fix (self w)) ->
  set_par C (DVec v) kw w = (w', Ok r) ->
  exists v',
    get_par C DNone gp_defaults w' = (w', Ok (RVec v')) /\
    (forall i, i ∈ prior_arg (self w') -> v' !! i = v !! i) /\
    take_idx v' (prior_arg (self w')) = take_idx v (prior_arg (self w')) /\
    v' = v.
Proof.
  intros Hs Hl H.
  destruct (set_par_anatomy _ _ _ _ _ _ (by_full_vector _ v kw Hs Hl) H)
    as (w1 & w2 & _ & _ & _ & _ & _ & _ & Hget).
  exists v. repeat split; auto.
Qed.

(** ** C8: lookup and usage errors *)

Lemma get_par_compiles_first (rec : dummy_t -> gp_kwargs -> call pyret)
    (d : dummy_t) (kw : gp_kwargs) (w w1 : world) :
  par (self w) = None ->
  get_sys C None (gp_args kw) (gp_verbose kw) w = (w1, Ok tt) ->
  get_par_body C rec d kw w = get_par_body C rec d kw w1.
Proof.
  intros Hn Hg.
  pose proof (get_sys_ok_state _ _ _ _ _ Hg) as (Hp & _).
  unfold get_par_body. cbv zeta.
  unfold bind at 1, get_self at 1. cbv beta iota. rewrite Hn.
  unfold bind at 1. rewrite Hg. cbv beta iota.
  symmetry.
  unfold bind at 1, get_self at 1. cbv beta iota. rewrite Hp.
  unfold bind at 1, ret at 1. cbv beta iota. reflexivity.
Qed.

Lemma set_par_usage (name : string) (x : num) (kw : sp_kwargs) (w : world) :
  sp_setpar kw = Some x ->
  mem name (parameters (self w)) = false ->
  set_par C (DStr name) kw w =
    (w, Raise (SyntaxError (if mem name (parafunc_names (self w))
                            then functional_msg name else undefined_msg name))).
Proof.
  intros Hs Hm. unfold set_par.
  apply bind_raise. unfold sp_target.
  rewrite run_get_self, Hs. unfold str_in. rewrite Hm.
  destruct (mem name (parafunc_names (self w))); reflexivity.
Qed.

(** C8.  With a string that is neither the name of a parameter, nor of a
    derived parameter, nor one of the recognized tokens, [get_par] raises
    [KeyError] with the message of line 494, on a compiled model as well as
    on a model that it first compiles; with a value [setpar] and a name
    that is not a parameter, [set_par] raises [SyntaxError], with the
    message of line 575 for a derived parameter and of line 578 otherwise.
    The exception is the outcome of the call, and the [KeyError] of
    [get_par] is the outcome of a [set_par] that forwards the string. *)
Theorem lookup_errors (tok : string) (w : world) :
  mem tok (parameters (self w)) = false ->
  (mem tok (parafunc_names (self w)) = false ->
   mem tok named_tokens = false ->
   (forall kw p,
      par (self w) = Some p ->
      is_ok (overlay (self w) p (gp_npar kw)) = true ->
      get_par C (DStr tok) kw w = (w, Raise (KeyError (lookup_msg tok)))) /\
   (forall kw w1,
      par (self w) = None ->
      get_sys C None (gp_args kw) (gp_verbose kw) w = (w1, Ok tt) ->
      is_ok (overlay (self w1) (p0 (self w)) (gp_npar kw)) = true ->
      get_par C (DStr tok) kw w = (w1, Raise (KeyError (lookup_msg tok)))) /\
   (forall kw p,
      par (self w) = Some p ->
      sp_setpar kw = None ->
      py_len tok <> length (par_fix (self w)) ->
      py_len tok <> length (prior_arg (self w)) ->
      set_par C (DStr tok) kw w = (w, Raise (KeyError (lookup_msg tok))))) /\
  (forall kw x,
     sp_setpar kw = Some x ->
     (mem tok (parafunc_names (self w)) = true ->
      set_par C (DStr tok) kw w = (w, Raise (SyntaxError (functional_msg tok)))) /\
     (mem tok (parafunc_names (self w)) = false ->
      set_par C (DStr tok) kw w = (w, Raise (SyntaxError (undefined_msg tok))))).
Proof.
  intros H1. split.
  - intros H2 H3. repeat split.
    + intros kw p Hp Hov. unfold get_par.
      rewrite (get_par_body_unknown _ _ _ _ _ Hp H1 H2 H3).
      destruct (overlay (self w) p (gp_npar kw)); [reflexivity | discriminate Hov].
    + intros kw w1 Hn Hg Hov. unfold get_par.
      rewrite (get_par_compiles_first _ _ _ _ _ Hn Hg).
      pose proof (get_sys_ok_state _ _ _ _ _ Hg) as (Hp & _).
      pose proof (get_sys_preserves_model _ _ _ _ _ _ Hg) as Hm.
      rewrite (get_par_body_unknown _ _ _ _ _ Hp);
        [| now rewrite Hm | now rewrite Hm | exact H3].
      destruct (overlay (self w1) (p0 (self w)) (gp_npar kw));
        [reflexivity | discriminate Hov].
    + intros kw p Hp Hs Hl1 Hl2. unfold set_par.
      apply bind_raise. unfold sp_target.
      rewrite run_get_self, Hs.
      apply Nat.eqb_neq in Hl1, Hl2. rewrite Hl1, Hl2.
      apply bind_raise. unfold get_par.
      now rewrite (get_par_body_unknown _ _ _ _ _ Hp H1 H2 H3).
  - intros kw x Hs. split; intros H2;
      rewrite (set_par_usage _ _ _ _ Hs H1), H2; reflexivity.
Qed.

(** ** C9: a failed lookup leaves the parameters alone *)

(** C9.  When [get_par] is given an unknown string on a compiled model,
    the branch of lines 449 to 494 stores the calibration in [self.par],
    looks the string up on that object in vain, stores the former vector
    again and raises [KeyError]: the call ends in the world in which it
    began, [self.par] included.  On a model that [get_par] first has to
    compile, it ends in the world that the compilation left. *)
Theorem get_par_unknown_token_atomic (tok : string) (kw : gp_kwargs) (w : world) (p : vec) :
  par (self w) = Some p ->
  mem tok (parameters (self w)) = false ->
  mem tok (parafunc_names (self w)) = false ->
  mem tok named_tokens = false ->
  is_ok (overlay (self w) p (gp_npar kw)) = true ->
  let w_mid := World (set_par_attr (Some (par_fix (self w))) (self w)) (stdout w) (heap w) in
  par (self w_mid) = Some (par_fix (self w)) /\
  named_set C tok kw w_mid = (w_mid, Ok None) /\
  reset_and_read C (DStr tok) kw w = (w, Raise (KeyError (lookup_msg tok))) /\
  (forall w' r, get_par C (DStr tok) kw w = (w', r) ->
     r = Raise (KeyError (lookup_msg tok)) /\ w' = w /\ par (self w') = Some p) /\
  (forall w0 w1,
     par (self w0) = None ->
     get_sys C None (gp_args kw) (gp_verbose kw) w0 = (w1, Ok tt) ->
     w1 = w ->
     forall w' r, get_par C (DStr tok) kw w0 = (w', r) ->
       r = Raise (KeyError (lookup_msg tok)) /\ par (self w') = par (self w1)).
Proof.
  intros Hp H1 H2 H3 Hov w_mid.
  destruct (reset_and_read_unknown tok kw w p Hp H3) as (Ha & Hb & Hc).
  assert (Hget : get_par C (DStr tok) kw w = (w, Raise (KeyError (lookup_msg tok)))).
  { unfold get_par. rewrite (get_par_body_unknown _ _ _ _ _ Hp H1 H2 H3).
    destruct (overlay (self w) p (gp_npar kw)); [reflexivity | discriminate Hov]. }
  split; [exact Ha |]. split; [exact Hb |]. split; [exact Hc |]. split.
  - intros w' r H. rewrite Hget in H. inversion H; subst. auto.
  - intros w0 w1 Hn Hg -> w' r H. unfold get_par in H.
    rewrite (get_par_compiles_first _ _ _ _ _ Hn Hg) in H.
    fold (get_par C (DStr tok) kw w) in H. rewrite Hget in H. inversion H; auto.
Qed.

(** ** C10: setting an entry of a copy of [npar] *)

Lemma set_in_copy_run (name : string) (x : num) (l : positive) (a : vec) (w : world) :
  heap w !! l = Some a ->
  let l' := fresh (dom (heap w)) in
  let idx := if length a =? length (prior_arg (self w))
             then list_index name (prior_names (self w))
             else list_index name (parameters (self w)) in
  heap w !! l' = None /\
  set_in_copy name x l w =
    match rbind idx (fun i => setitem a i x) with
    | Ok a' => (World (self w) (stdout w) (<[l' := a']> (heap w)), Ok (RRef l'))
    | Raise e => (World (self w) (stdout w) (<[l' := a]> (heap w)), Raise e)
    end.
Proof.
  intros Hl l' idx. split.
  - apply not_elem_of_dom. apply is_fresh.
  - unfold set_in_copy. rewrite run_get_self.
    unfold bind at 1, load. rewrite Hl. cbv beta iota.
    unfold bind at 1, alloc. cbv beta iota. fold l'.
    rewrite run_lift. cbn [self]. fold idx.
    destruct idx as [i | e]; cbn [rbind]; [| reflexivity].
    rewrite run_lift.
    destruct (setitem a i x) as [a' | e]; [| reflexivity].
    unfold bind, store, ret. cbn [self stdout heap].
    now rewrite insert_insert_eq.
Qed.

(** C10.  With the name of a parameter, a value [setpar] and a vector
    [npar], [set_par] neither compiles nor touches the model object, what
    has been printed, or any array of the caller, [npar] included, whether
    it returns or raises; and when the name has an index in [npar] (among
    the names of the estimated subset when [npar] has the length of that
    subset, among all parameter names otherwise) it returns a new array
    that is [npar] with the entry at that index set to [setpar]. *)
Theorem set_par_npar_copy
    (name : string) (x : num) (kw : sp_kwargs) (w : world) (l : positive) (a : vec) :
  sp_setpar kw = Some x ->
  sp_npar kw = Some l ->
  mem name (parameters (self w)) = true ->
  heap w !! l = Some a ->
  (forall w' r,
     set_par C (DStr name) kw w = (w', r) ->
     self w' = self w /\ stdout w' = stdout w /\
     par (self w') = par (self w) /\ sys (self w') = sys (self w) /\
     heap w' !! l = Some a /\
     forall l0 b, heap w !! l0 = Some b -> heap w' !! l0 = Some b) /\
  (forall i,
     (if length a =? length (prior_arg (self w))
      then index_of name (prior_names (self w))
      else index_of name (parameters (self w))) = Some i ->
     i < length a ->
     exists l',
       l' <> l /\ heap w !! l' = None /\
       set_par C (DStr name) kw w =
         (World (self w) (stdout w) (<[l' := <[i := x]> a]> (heap w)), Ok (RRef l'))).
Proof.
  intros Hs Hn Hm Hl.
  destruct (set_in_copy_run name x l a w Hl) as [Hfresh Hrun].
  set (l' := fresh (dom (heap w))) in *.
  assert (Hne : l' <> l) by (intros ->; congruence).
  assert (Hset : set_par C (DStr name) kw w =
            match set_in_copy name x l w with
            | (w', Ok r) => (w', Ok r)
            | (w', Raise e) => (w', Raise e)
            end).
  { unfold set_par, sp_target.
    unfold bind at 1. unfold bind at 1. unfold get_self at 1. cbv beta iota.
    rewrite Hs. unfold str_in. rewrite Hm, Hn.
    unfold bind at 1.
    destruct (set_in_copy name x l w) as [w1 [r1 | e1]]; reflexivity. }
  split.
  - intros w' r H. rewrite Hset, Hrun in H.
    assert (Hkeep : forall a0 l0 b,
              heap w !! l0 = Some b -> (<[l' := a0]> (heap w)) !! l0 = Some b).
    { intros a0 l0 b Hb. rewrite lookup_insert_ne; [exact Hb |]. intros ->. congruence. }
    destruct (rbind _ _) as [a' | e]; inversion H; subst; cbn [self stdout heap];
      repeat split; eauto.
  - intros i Hi Hlt. exists l'. split; [exact Hne |]. split; [exact Hfresh |].
    rewrite Hset, Hrun. unfold list_index.
    destruct (length a =? length (prior_arg (self w))); rewrite Hi; cbn [rbind];
      unfold setitem; apply Nat.ltb_lt in Hlt; rewrite Hlt; reflexivity.
Qed.
End Properties.

(** * The theorems at the small model *)

Section AtToy.

Import Exact Toy ToyLead.
Local Open Scope Q_scope.

Lemma returned {A B} (x : A * result B) (b : B) : snd x = Ok b -> x = (fst x, Ok b).
Proof. destruct x as [a r]. simpl. intros ->. reflexivity. Qed.

Lemma returned_some {A B} (x : A * result B) :
  is_ok (snd x) = true -> exists b, x = (fst x, Ok b).
Proof.
  destruct x as [a [b | e]]; simpl; intros H; [ exists b; reflexivity | discriminate H ].
Qed.

Lemma raised {A B} (x : A * result B) (e : exn) :
  exn_of (snd x) = Some e -> x = (fst x, Raise e).
Proof.
  destruct x as [a [b | e']]; simpl; intros H; [ discriminate H | ].
  injection H as ->. reflexivity.
Qed.

(** The guard of line 144 at the model whose equation reads the lead of
    the constrained rate: the run ends in the error, and the attributes
    [sys] and [precalc_mat] are as before the call. *)
Lemma future_dependence_at_toy :
  let wb := fst (gs_parse None (fst (gs_settings gs_defaults w_future))) in
  get_sys C_future None gs_defaults 0 w_future
    = (wb, Raise (NotImplementedError future_msg)) /\
  sys (self wb) = sys (self w_future) /\
  precalc_mat (self wb) = precalc_mat (self w_future).
Proof.
  intros wb.
  assert (G : match desingularize (self wb) [-1 # 100] "r" (kw_tol gs_defaults) with
              | Ok d => Arr.fast0_all (c_P_singular d)
              | Raise _ => true
              end = false) by (vm_compute; reflexivity).
  destruct (desingularize (self wb) [-1 # 100] "r" (kw_tol gs_defaults)) as [d | e] eqn:Hd;
    [ | discriminate G ].
  apply (get_sys_future_dependence (L := QL_future) C_future None gs_defaults 0 w_future
           (fst (gs_settings gs_defaults w_future)) wb None (Some false)
           [-1 # 100] [-1 # 100] "r" d).
  - apply returned. vm_compute. reflexivity.
  - apply (returned (gs_parse None (fst (gs_settings gs_defaults w_future)))).
    vm_compute. reflexivity.
  - exact Hd.
  - right. exact G.
Defined.



(** The decomposition that the model with a lead of output supplies for
    its [P1] is one: [U] and [Vh] are orthogonal, the singular values are
    positive and descending, and [U @ diag(s) @ Vh] is [P1]. *)
Lemma svd_lead_decomposes :
  Arr.mmul (L := QL_lead) U_lead (Arr.transpose (L := QL_lead) U_lead)
    = Ok (Arr.eye (L := QL_lead) 4) /\
  Arr.mmul (L := QL_lead) Vh_lead (Arr.transpose (L := QL_lead) Vh_lead)
    = Ok (Arr.eye (L := QL_lead) 4) /\
  rbind (Arr.mmul (L := QL_lead) U_lead
           (Mat 4 [[8 # 5; 0; 0; 0]; [0; 1; 0; 0]; [0; 0; 1; 0]; [0; 0; 0; 7 # 20]]))
        (fun x => Arr.mmul (L := QL_lead) x Vh_lead)
    = Ok (Mat 4 [[14 # 25; 117 # 100; 0; 0]; [0; 0; 1; 0]; [0; 1; 0; 0]; [0; 0; 0; 1]]) /\
  match snd (get_sys_run C_lead None kw_untested 0 w_lead) with
  | Ok l => Some (d_P1 (l_desing l))
  | Raise _ => None
  end = Some (Mat 4 [[14 # 25; 117 # 100; 0; 0]; [0; 0; 1; 0]; [0; 1; 0; 0]; [0; 0; 0; 1]]).
Proof. repeat split; vm_compute; reflexivity. Qed.


(** The growing branch at the compiled small model with a cached matrix
    for two states: the matrix that is stored has three rows and columns
    and holds zeros only. *)
Lemma reconcile_P_grow_at_toy :
  exists out,
    reconcile_P [false; false; false] w_cached
      = (World (set_P (Some (Arr.zeros 3 3)) (self w_cached)) out (heap w_cached), Ok tt).
Proof.
  destruct (reconcile_P_grow (L := QL) [false; false; false] [false; true; false]
              w_cached P_cached) as [out H].
  - reflexivity.
  - vm_compute. reflexivity.
  - vm_compute. lia.
  - exists out. exact H.
Defined.

(** The whole call at the same object: it returns, prints nothing, and
    the cached matrix [[1, 2], [3, 4]] has become the zero matrix. *)
Lemma cached_P_is_zeroed :
  P (self w_cached) = Some (Mat 2 [[1; 2]; [3; 4]]) /\
  out_msk (self w_cached) = Some [false; true; false] /\
  is_ok (snd (get_sys C0 None gs_defaults 0 w_cached)) = true /\
  length (stdout (fst (get_sys C0 None gs_defaults 0 w_cached))) = 0%nat /\
  P (self (fst (get_sys C0 None gs_defaults 0 w_cached)))
    = Some (Mat 3 [[0; 0; 0]; [0; 0; 0]; [0; 0; 0]]).
Proof. repeat split; vm_compute; reflexivity. Qed.


(** Setting the full vector at the compiled model with a Kalman filter
    attached. *)
Lemma set_par_recompiles_at_toy :
  exists w' r eps Qm,
    set_par C0 (DVec (L := QL) [1 # 3; 3 # 2; -1 # 100]) sp_defaults w_filter = (w', Ok r) /\
    par (self w') = Some [1 # 3; 3 # 2; -1 # 100] /\
    filter (self w') = Some (Filter "KalmanFilter" (Some eps) (Some Qm)).
Proof.
  destruct (returned_some
              (set_par C0 (DVec (L := QL) [1 # 3; 3 # 2; -1 # 100]) sp_defaults w_filter)) as [r E];
    [ vm_compute; reflexivity | ].
  destruct (set_par_recompiles C0 (DVec (L := QL) [1 # 3; 3 # 2; -1 # 100]) sp_defaults
              [1 # 3; 3 # 2; -1 # 100] w_filter) as [_ H].
  - apply by_full_vector; reflexivity.
  - destruct (H _ _ E) as (w1 & pp & _ & Hpar & _ & _ & _ & Hf).
    change (filter (self w_filter)) with (Some (Filter (L := QL) "KalmanFilter" None None)) in Hf.
    destruct Hf as (Qm & Hf & _).
    exists (fst (set_par C0 (DVec (L := QL) [1 # 3; 3 # 2; -1 # 100]) sp_defaults w_filter)), r,
      (QQ (self w_filter) pp), Qm.
    split; [ exact E | ]. split; [ exact Hpar | exact Hf ].
Defined.

(** The full vector read back. *)
Lemma roundtrip_at_toy :
  exists w' r,
    set_par C0 (DVec (L := QL) [1 # 3; 3 # 2; -1 # 100]) sp_defaults w0 = (w', Ok r) /\
    get_par C0 DNone gp_defaults w' = (w', Ok (RVec (L := QL) [1 # 3; 3 # 2; -1 # 100])).
Proof.
  destruct (returned_some
              (set_par C0 (DVec (L := QL) [1 # 3; 3 # 2; -1 # 100]) sp_defaults w0)) as [r E];
    [ vm_compute; reflexivity | ].
  exists (fst (set_par C0 (DVec (L := QL) [1 # 3; 3 # 2; -1 # 100]) sp_defaults w0)), r.
  split; [ exact E | ].
  destruct (set_par_get_par_roundtrip C0 [1 # 3; 3 # 2; -1 # 100] sp_defaults w0
              (fst (set_par C0 (DVec (L := QL) [1 # 3; 3 # 2; -1 # 100]) sp_defaults w0)) r)
    as (v' & Hg & _ & _ & Hv).
  - reflexivity.
  - reflexivity.
  - exact E.
  - rewrite Hv in Hg. exact Hg.
Defined.

(** The compiled small model compiled once more. *)
Lemma second_run_at_toy :
  exists w2 s om,
    get_sys C0 None gs_defaults 0 w_compiled = (w2, Ok tt) /\
    sys (self w_compiled) = Some s /\ sys (self w2) = Some s /\
    out_msk (self w_compiled) = Some om /\ out_msk (self w2) = Some om.
Proof.
  apply (get_sys_deterministic C0 None gs_defaults 0 w0 w_compiled).
  apply (returned (get_sys C0 None gs_defaults 0 w0)). vm_compute. reflexivity.
Defined.

(** An unknown token at the compiled small model, read and set; and the
    functional parameter [kappa] set.  The token [é] has as many bytes as
    there are estimated parameters and one code point: it is looked up,
    too. *)
Lemma lookup_errors_at_toy :
  get_par C0 (DStr (L := QL) "gamma") gp_defaults w_compiled
    = (w_compiled, Raise (KeyError (lookup_msg "gamma"))) /\
  set_par C0 (DStr (L := QL) "gamma") sp_defaults w_compiled
    = (w_compiled, Raise (KeyError (lookup_msg "gamma"))) /\
  set_par C0 (DStr (L := QL) "gamma") (SpKwargs (L := QL) (Some 1) None 0 5 gs_defaults) w_compiled
    = (w_compiled, Raise (SyntaxError (undefined_msg "gamma"))) /\
  String.length e_acute = length (prior_arg (self w_compiled)) /\
  py_len e_acute = 1%nat /\
  set_par C0 (DStr (L := QL) e_acute) sp_defaults w_compiled
    = (w_compiled, Raise (KeyError (lookup_msg e_acute))).
Proof.
  assert (Hm : mem "gamma" (parameters (self w_compiled)) = false)
    by (vm_compute; reflexivity).
  assert (He : mem e_acute (parameters (self w_compiled)) = false)
    by (vm_compute; reflexivity).
  destruct (lookup_errors C0 "gamma" w_compiled Hm) as [H1 H2].
  destruct (lookup_errors C0 e_acute w_compiled He) as [H3 _].
  destruct H1 as (Hg & _ & Hs); [ vm_compute; reflexivity | vm_compute; reflexivity | ].
  destruct H3 as (_ & _ & Hs'); [ vm_compute; reflexivity | vm_compute; reflexivity | ].
  split; [ | split; [ | split; [ | split; [ | split ] ] ] ].
  - apply (Hg gp_defaults [1 # 2; 3 # 2; -1 # 100]); vm_compute; reflexivity.
  - apply (Hs sp_defaults [1 # 2; 3 # 2; -1 # 100]).
    + vm_compute. reflexivity.
    + reflexivity.
    + vm_compute. discriminate.
    + vm_compute. discriminate.
  - destruct (H2 (SpKwargs (L := QL) (Some 1) None 0 5 gs_defaults) 1 eq_refl) as [_ Hu].
    apply Hu. vm_compute. reflexivity.
  - vm_compute. reflexivity.
  - vm_compute. reflexivity.
  - apply (Hs' sp_defaults [1 # 2; 3 # 2; -1 # 100]).
    + vm_compute. reflexivity.
    + reflexivity.
    + vm_compute. discriminate.
    + vm_compute. discriminate.
Defined.

(** A string of two letters at the same model, which estimates two
    parameters: line 560 assigns it to the estimated entries, and numpy's
    conversion raises; the parameters are as before. *)
Lemma string_of_subset_length_at_toy :
  exn_of (snd (set_par C0 (DStr (L := QL) "ab") sp_defaults w_compiled))
    = Some (ValueError "could not convert string to float: 'ab'") /\
  par (self (fst (set_par C0 (DStr (L := QL) "ab") sp_defaults w_compiled)))
    = par (self w_compiled).
Proof. split; vm_compute; reflexivity. Qed.

(** The failed lookup of [foo] leaves the compiled small model as it
    was. *)
Lemma unknown_token_at_toy :
  reset_and_read C0 (DStr (L := QL) "gamma") gp_defaults w_compiled
    = (w_compiled, Raise (KeyError (lookup_msg "gamma"))) /\
  snd (get_par C0 (DStr (L := QL) "gamma") gp_defaults w_compiled) = Raise (KeyError (lookup_msg "gamma")) /\
  fst (get_par C0 (DStr (L := QL) "gamma") gp_defaults w_compiled) = w_compiled.
Proof.
  destruct (get_par_unknown_token_atomic C0 "gamma" gp_defaults w_compiled
              [1 # 2; 3 # 2; -1 # 100]) as (_ & _ & Hr & Hg & _).
  - vm_compute. reflexivity.
  - vm_compute. reflexivity.
  - vm_compute. reflexivity.
  - vm_compute. reflexivity.
  - vm_compute. reflexivity.
  - split; [ exact Hr | ].
    destruct (Hg _ _ (surjective_pairing _)) as (Hres & Hw & _).
    split; [ exact Hres | exact Hw ].
Defined.

(** One entry of the caller's array of estimated values set: the array
    returned is a new one, the caller's is as before. *)
Lemma npar_copy_at_toy :
  exists l',
    l' <> npar_loc /\ heap w_npar !! l' = None /\
    set_par C0 (DStr (L := QL) "rho") (SpKwargs (L := QL) (Some (7 # 10)) (Some npar_loc) 0 5 gs_defaults) w_npar
      = (World (self w_npar) (stdout w_npar)
           (<[l' := <[0%nat := 7 # 10]> [1 # 2; 3 # 2]]> (heap w_npar)),
         Ok (RRef l')).
Proof.
  destruct (set_par_npar_copy C0 "rho" (7 # 10)
              (SpKwargs (L := QL) (Some (7 # 10)) (Some npar_loc) 0 5 gs_defaults)
              w_npar npar_loc [1 # 2; 3 # 2]) as [_ H].
  - reflexivity.
  - reflexivity.
  - vm_compute. reflexivity.
  - vm_compute. reflexivity.
  - apply (H 0%nat).
    + vm_compute. reflexivity.
    + vm_compute. lia.
Defined.

End AtToy.

(** * Further properties of [get_sys], [get_par] and [set_par] *)

Section More.

Context {L : numlib} (C : collab (L := L)).
Local Abbreviation num := (num L).
Local Abbreviation vec := (list num).
Local Abbreviation mat := (matrix num).
Local Abbreviation world := (world (L := L)).
Local Abbreviation call := (call (L := L)).

(** ** The stages of [get_sys] and what they leave alone *)

Ltac frame_step :=
  first
    [ apply preserves_bind; [| intros ?]
    | apply preserves_try
    | apply preserves_lift | apply preserves_ret | apply preserves_raise
    | apply preserves_get_self | apply preserves_print | apply preserves_when
    | apply preserves_assign; intros ?; first [ reflexivity | solve [ auto ] ]
    | match goal with
      | |- preserves _ (match ?x with _ => _ end) => destruct x
      | |- preserves _ (let (_, _) := ?x in _) => destruct x
      end ].

(** Whatever the outcome of [get_sys], a part of the object that only the
    settings assign is as the settings left it. *)
Lemma get_sys_after_settings {X} (f : dsge (L := L) -> X)
    (par : option vec) (kw : gs_kwargs) (verbose : nat) (w w' : world) (r : result unit) :
  (forall v m, f (set_par_attr v m) = f m) ->
  (forall v m, f (set_ppar v m) = f m) ->
  (forall v m, f (set_out_msk v m) = f m) ->
  (forall v m, f (set_P v m) = f m) ->
  (forall a b c d m, f (set_names a b c d m) = f m) ->
  (forall a b m, f (set_hx a b m) = f m) ->
  (forall v m, f (set_SIG v m) = f m) ->
  (forall v m, f (set_sys v m) = f m) ->
  (forall v m, f (set_precalc_mat v m) = f m) ->
  get_sys C par kw verbose w = (w', r) ->
  f (self w') = f (self (fst (gs_settings kw w))).
Proof.
  intros H1 H2 H3 H4 H5 H6 H7 H8 H9 H.
  unfold get_sys in H. unfold bind at 1 in H.
  destruct (get_sys_run C par kw verbose w) as [w1 r1] eqn:E.
  assert (Hw : w' = w1) by (destruct r1; inversion H; reflexivity).
  subst w'. clear H.
  unfold get_sys_run in E. unfold bind at 1 in E.
  destruct (gs_settings kw w) as [ws [[rs it] | e]]; cbn [fst].
  - revert E.
    match goal with
    | |- ?c ws = _ -> _ => assert (HP : preserves f c)
    end.
    { unfold gs_parse, resolve_x_bar, reconcile_P, stability_test.
      repeat frame_step. }
    intros E. exact (HP _ _ _ E).
  - inversion E. reflexivity.
Qed.

(** The same for a part that the parse assigns last. *)
Lemma get_sys_after_parse {X} (f : dsge (L := L) -> X)
    (par : option vec) (kw : gs_kwargs) (verbose : nat) (w w' : world) (r : result unit) :
  (forall v m, f (set_out_msk v m) = f m) ->
  (forall v m, f (set_P v m) = f m) ->
  (forall a b c d m, f (set_names a b c d m) = f m) ->
  (forall a b m, f (set_hx a b m) = f m) ->
  (forall v m, f (set_SIG v m) = f m) ->
  (forall v m, f (set_sys v m) = f m) ->
  (forall v m, f (set_precalc_mat v m) = f m) ->
  get_sys C par kw verbose w = (w', r) ->
  f (self w') = f (self (fst (gs_parse par (fst (gs_settings kw w))))).
Proof.
  intros H3 H4 H5 H6 H7 H8 H9 H.
  unfold get_sys in H. unfold bind at 1 in H.
  destruct (get_sys_run C par kw verbose w) as [w1 r1] eqn:E.
  assert (Hw : w' = w1) by (destruct r1; inversion H; reflexivity).
  subst w'. clear H.
  unfold get_sys_run in E. unfold bind at 1 in E.
  destruct (gs_settings_run kw w) as [out Hs]. rewrite Hs in *. cbn [fst].
  cbv beta iota in E. unfold bind at 1 in E.
  destruct (gs_parse par _) as [wp [[[p pp] cv] | e]]; cbn [fst].
  - revert E.
    match goal with
    | |- ?c wp = _ -> _ => assert (HP : preserves f c)
    end.
    { unfold resolve_x_bar, reconcile_P, stability_test.
      repeat frame_step. }
    intros E. exact (HP _ _ _ E).
  - inversion E. reflexivity.
Qed.

(** A parse that raises ends the call. *)
Lemma get_sys_parse_raises (par : option vec) (kw : gs_kwargs) (verbose : nat)
    (w wp : world) (e : exn) :
  gs_parse par (fst (gs_settings kw w)) = (wp, Raise e) ->
  get_sys C par kw verbose w = (wp, Raise e).
Proof.
  intros H. unfold get_sys. apply bind_raise.
  unfold get_sys_run.
  destruct (gs_settings_run kw w) as [out Hs]. rewrite Hs in H. cbn [fst] in H.
  rewrite (bind_ok _ _ _ _ _ Hs). cbv beta iota.
  apply bind_raise. exact H.
Qed.

(** X1.  Whatever the outcome of [get_sys], also when it raises, the
    solver depths and the two flags are stored first: [self.lks] holds
    [max(l_max, 2) + 1] for an [l_max] that is passed and otherwise the
    depth stored before (3, or 1 with [linear], when none is stored), the
    [k_max] passed or stored (17, or 0 with [linear]); and
    [fdict['reduce_sys']] and [fdict['ignore_tests']] hold the flag passed,
    or stay as they were when [None] is passed. *)
Theorem get_sys_stores_settings
    (par : option vec) (kw : gs_kwargs) (verbose : nat) (w w' : world) (r : result unit) :
  get_sys C par kw verbose w = (w', r) ->
  lks (self w') =
    Some (match kw_l_max kw with
          | Some l => (Z.max l 2 + 1)%Z
          | None => match lks (self w) with
                    | Some lk => fst lk
                    | None => if kw_linear kw then 1%Z else 3%Z
                    end
          end,
          match kw_k_max kw with
          | Some k => k
          | None => match lks (self w) with
                    | Some lk => snd lk
                    | None => if kw_linear kw then 0%Z else 17%Z
                    end
          end) /\
  fd_reduce_sys (fdict (self w')) =
    match kw_reduce_sys kw with
    | Some b => Some b
    | None => fd_reduce_sys (fdict (self w))
    end /\
  fd_ignore_tests (fdict (self w')) =
    match kw_ignore_tests kw with
    | Some b => Some b
    | None => fd_ignore_tests (fdict (self w))
    end.
Proof.
  intros H.
  pose proof (get_sys_after_settings lks par kw verbose w w' r
                ltac:(reflexivity) ltac:(reflexivity) ltac:(reflexivity)
                ltac:(reflexivity) ltac:(reflexivity) ltac:(reflexivity)
                ltac:(reflexivity) ltac:(reflexivity) ltac:(reflexivity) H) as Hl.
  pose proof (get_sys_after_settings fdict par kw verbose w w' r
                ltac:(reflexivity) ltac:(reflexivity) ltac:(reflexivity)
                ltac:(reflexivity) ltac:(reflexivity) ltac:(reflexivity)
                ltac:(reflexivity) ltac:(reflexivity) ltac:(reflexivity) H) as Hf.
  destruct (gs_settings_run kw w) as [out Hs]. rewrite Hs in Hl, Hf. cbn [fst self] in Hl, Hf.
  rewrite Hl, Hf. cbn.
  unfold settled_l_max, settled_k_max, settled_reduce_sys, settled_ignore_tests.
  repeat split.
  f_equal. f_equal.
  destruct (kw_l_max kw) as [l |]; [| reflexivity].
  destruct (l <? 2)%Z eqn:E.
  - apply Z.ltb_lt in E. rewrite Z.max_r by lia. reflexivity.
  - apply Z.ltb_ge in E. rewrite Z.max_l by lia. reflexivity.
Qed.

(** X2.  [self.par] and [self.ppar] are assigned when the parameters have
    been parsed and not before: if the parse raises, [get_sys] raises the
    same exception and [par], [ppar] and [sys] are as before the call; if
    it returns, the vector and its parsed form are stored whatever happens
    afterwards, in particular when a model without a constraint is refused
    with [NotImplementedError]. *)
Theorem get_sys_parse_outcomes
    (pa : option vec) (kw : gs_kwargs) (verbose : nat) (w w' : world) (r : result unit) :
  get_sys C pa kw verbose w = (w', r) ->
  let p := match pa with None => p0 (self w) | Some q => q end in
  match parsed (self w) p with
  | Raise e =>
      r = Raise e /\ par (self w') = par (self w) /\ ppar (self w') = ppar (self w) /\
      sys (self w') = sys (self w)
  | Ok pp =>
      par (self w') = Some p /\ ppar (self w') = Some pp /\
      (const_var (self w) = None ->
       r = Raise (NotImplementedError "Package is only meant to work with OBCs") /\
       sys (self w') = sys (self w))
  end.
Proof.
  intros H p.
  destruct (gs_settings_run kw w) as [out Hs].
  pose proof (gs_parse_run pa (fst (gs_settings kw w))) as Hp.
  rewrite Hs in Hp. cbn [fst self stdout heap] in Hp. cbv zeta in Hp.
  change (p0 (set_fdict _ _)) with (p0 (self w)) in Hp.
  change (parsed (set_fdict _ _)) with (parsed (self w)) in Hp.
  change (const_var (set_fdict _ _)) with (const_var (self w)) in Hp.
  fold p in Hp.
  destruct (parsed (self w) p) as [pp | e] eqn:E.
  - pose proof (get_sys_after_parse par pa kw verbose w w' r
                  ltac:(reflexivity) ltac:(reflexivity) ltac:(reflexivity)
                  ltac:(reflexivity) ltac:(reflexivity) ltac:(reflexivity)
                  ltac:(reflexivity) H) as H1.
    pose proof (get_sys_after_parse ppar pa kw verbose w w' r
                  ltac:(reflexivity) ltac:(reflexivity) ltac:(reflexivity)
                  ltac:(reflexivity) ltac:(reflexivity) ltac:(reflexivity)
                  ltac:(reflexivity) H) as H2.
    rewrite Hs in H1, H2. cbn [fst] in H1, H2. rewrite Hp in H1, H2.
    cbn [fst self] in H1, H2.
    split; [exact H1 | split; [exact H2 |]].
    intros Hc. rewrite Hc in Hp.
    assert (Hg := get_sys_parse_raises pa kw verbose w _ _
                    ltac:(rewrite Hs; cbn [fst]; exact Hp)).
    rewrite Hg in H. inversion H; subst. split; reflexivity.
  - assert (Hg := get_sys_parse_raises pa kw verbose w _ _
                    ltac:(rewrite Hs; cbn [fst]; exact Hp)).
    rewrite Hg in H. inversion H; subst. repeat split; reflexivity.
Qed.

(** ** What a returning run of [get_sys] has stored *)

Ltac rb_step H :=
  apply rbind_inv in H;
  let x := fresh "x" in
  let E := fresh "E" in
  destruct H as [x [E H]].

Lemma get_sys_ok_run (pa : option vec) (kw : gs_kwargs) (verbose : nat) (w w' : world) :
  get_sys C pa kw verbose w = (w', Ok tt) ->
  exists loc, get_sys_run C pa kw verbose w = (w', Ok loc).
Proof.
  unfold get_sys. intros H. apply bind_inv in H as (loc & w1 & H1 & H2).
  inversion H2; subst. exists loc. exact H1.
Qed.

Lemma count_true_vnot_drop (k : nat) (l : list bool) :
  count_true (vnot (drop k l)) <= count_true (vnot l).
Proof.
  revert k. induction l as [| b l IH]; intros [| k]; try apply Nat.le_refl.
  specialize (IH k). unfold count_true, vnot in *. cbn [drop map].
  rewrite filter_cons. destruct (decide (negb b = true)); cbn [length]; lia.
Qed.

Lemma count_true_vnot_last_n (k : nat) (l : list bool) :
  count_true (vnot (last_n k l)) <= count_true (vnot l).
Proof.
  unfold last_n. destruct (k =? 0); [lia | apply count_true_vnot_drop].
Qed.

(** X3.  The system that a returning [get_sys] stores is consistent in
    its dimensions: with [n] the number of positions that the applied mask
    leaves, [N2] and [A2] are [n] by [n], [J2] has [n] columns, [cx] and
    [b2] have [n] entries; [self.dim_v] is the number of names in
    [self.vv], which is also the number of columns of [hx[0]] and of rows
    of [SIG], and is at most [n]. *)
Theorem get_sys_shapes
    (pa : option vec) (kw : gs_kwargs) (verbose : nat) (w w' : world) :
  get_sys C pa kw verbose w = (w', Ok tt) ->
  exists s vs h0 d0 sig n,
    sys (self w') = Some s /\ vv (self w') = Some vs /\
    hx (self w') = Some (h0, d0) /\ SIG (self w') = Some sig /\
    nrows (sys_N2 s) = n /\ ncols (sys_N2 s) = n /\
    nrows (sys_A2 s) = n /\ ncols (sys_A2 s) = n /\
    ncols (sys_J2 s) = n /\ length (sys_cx s) = n /\ length (sys_b2 s) = n /\
    dim_v (self w') = Some (length vs) /\
    ncols h0 = length vs /\ nrows sig = length vs /\ length vs <= n.
Proof.
  intros H. apply get_sys_ok_run in H as [loc H].
  apply get_sys_run_facts in H.
  destruct H as [pp cv m3 e pm H1 H2 H3 H4 H5 H6 H7 H8 H9 H10 H11 H12 H13 H14 H15].
  set (m := self w) in *. set (om := l_out_msk loc) in *.
  set (dv := length (variables m)) in *.
  exists (e_sys e), (e_vv e), (e_hx0 e), (DD m pp), (e_SIG e), (count_true (vnot om)).
  rewrite H15. cbn.
  unfold emit in H12. fold dv in H12.
  rb_step H12. rb_step H12. rb_step H12. rb_step H12. rb_step H12. rb_step H12.
  rb_step H12. rb_step H12.
  inversion H12; subst e. cbn.
  apply vsel_ok in E as [L1 ->].
  apply sel_cols_ok in E0 as [L2 ->].
  apply sel_both_ok in E1 as (L3 & L4 & ->).
  apply sel_both_ok in E2 as (L5 & L6 & ->).
  apply sel_cols_ok in E3 as [L7 ->].
  rb_step E4. apply sel_rows_ok in E4 as [L8 ->].
  apply vsel_ok in E5 as [L9 ->].
  apply vsel_ok in E6 as [L10 ->].
  unfold nrows in *. cbn in *.
  rewrite ?length_map, ?compress_length by assumption.
  repeat split; try reflexivity.
  apply count_true_vnot_last_n.
Qed.

(** X4.  [get_sys] with the tests enabled returns only if none of the
    eigenvalue moduli that [eig] computes from the last rows of
    [self.precalc_mat[0][1, 0, 1]] exceeds one. *)
Theorem get_sys_returns_stable
    (pa : option vec) (kw : gs_kwargs) (verbose : nat) (w w' : world) :
  get_sys C pa kw verbose w = (w', Ok tt) ->
  truthy (match kw_ignore_tests kw with
          | Some b => Some b
          | None => fd_ignore_tests (fdict (self w))
          end) = false ->
  exists pm ev,
    precalc_mat (self w') = Some pm /\
    eig L (Mat (ncols pm) (last_n (ncols pm) (rows pm))) = Ok ev /\
    Forall (fun e => ltb L (one L) e = false) ev.
Proof.
  intros H Hi. apply get_sys_ok_run in H as [loc H].
  apply get_sys_run_facts in H.
  destruct H as [pp cv m3 e pm H1 H2 H3 H4 H5 H6 H7 H8 H9 H10 H11 H12 H13 H14 H15].
  unfold settled_ignore_tests in H14. rewrite Hi in H14. cbn [negb] in H14.
  unfold stable in H14. rb_step H14.
  exists pm, x. rewrite H15. cbn. split; [reflexivity | split; [exact E |]].
  destruct (existsb id (map (fun e0 => ltb L (one L) e0) x)) eqn:Ex; [discriminate |].
  apply Forall_forall. intros y Hy.
  destruct (ltb L (one L) y) eqn:Ey; [| reflexivity].
  exfalso.
  assert (existsb id (map (fun e0 => ltb L (one L) e0) x) = true).
  { apply existsb_exists. exists true. split; [| reflexivity].
    apply in_map_iff. exists y. split; [exact Ey |]. apply list_elem_of_In. exact Hy. }
  congruence.
Qed.

(** X5.  With [reduce_sys] enabled the variables that [get_sys] keeps in
    [self.vv] are exactly those whose entry in the cached mask
    [self.out_msk] is false, in their order, and [self.dim_v] counts
    them. *)
Theorem get_sys_reduced_variables
    (pa : option vec) (kw : gs_kwargs) (verbose : nat) (w w' : world) :
  get_sys C pa kw verbose w = (w', Ok tt) ->
  truthy (match kw_reduce_sys kw with
          | Some b => Some b
          | None => fd_reduce_sys (fdict (self w))
          end) = true ->
  exists om,
    out_msk (self w') = Some om /\
    length om = length (variables (self w)) /\
    vv (self w') = Some (compress (vnot om) (variables (self w))) /\
    dim_v (self w') = Some (count_true (vnot om)).
Proof.
  intros H Hr. apply get_sys_ok_run in H as [loc H].
  apply get_sys_run_facts in H.
  destruct H as [pp cv m3 e pm H1 H2 H3 H4 H5 H6 H7 H8 H9 H10 H11 H12 H13 H14 H15].
  set (m := self w) in *. set (dv := length (variables m)) in *.
  unfold applied_mask, settled_reduce_sys in H10. rewrite Hr in H10. cbn [negb] in H10.
  inversion H10 as [Hom]. rewrite <- Hom in *.
  pose proof (emit_shapes _ _ _ _ _ _ _ _ _ H12) as S. cbv zeta in S.
  destruct S as (S1 & _ & _ & _ & _ & _ & _ & _ & S2 & _).
  fold dv in S1, S2.
  exists (last_n dv (l_mask loc)).
  assert (Ho : out_msk (self w') = Some (last_n dv (l_mask loc))).
  { rewrite H15. cbn. unfold after_reconcile in H11.
    destruct (P m) as [P_old |].
    - rb_step H11. inversion H11; subst m3. reflexivity.
    - inversion H11; subst m3. reflexivity. }
  split; [exact Ho |]. split; [exact S1 |].
  rewrite H15. cbn. rewrite S2.
  split; [reflexivity |].
  rewrite compress_length; [reflexivity |].
  rewrite vnot_length. exact S1.
Qed.

(** The keyword arguments with the tests switched off. *)
Definition ignoring (kw : gs_kwargs (L := L)) : gs_kwargs :=
  GsKwargs (kw_reduce_sys kw) (kw_l_max kw) (kw_k_max kw) (kw_linear kw) (kw_tol kw)
    (Some true).

(** X6.  The test for explosive dynamics is the last thing that can stop
    [get_sys]: if the call goes through with [ignore_tests=True] and one of
    the eigenvalue moduli of the block it leaves in [self.precalc_mat]
    exceeds one, then the same call with [ignore_tests=False] raises
    [ValueError] with the number of such moduli in its message. *)
Theorem get_sys_explosive
    (pa : option vec) (kw : gs_kwargs) (verbose : nat) (w w1 : world) (pm : mat) (ev : vec) :
  kw_ignore_tests kw = Some false ->
  get_sys C pa (ignoring kw) verbose w = (w1, Ok tt) ->
  precalc_mat (self w1) = Some pm ->
  eig L (Mat (ncols pm) (last_n (ncols pm) (rows pm))) = Ok ev ->
  Exists (fun e => ltb L (one L) e = true) ev ->
  exists w',
    get_sys C pa kw verbose w =
      (w', Raise (ValueError
                    (explosive_msg (count_true (map (fun e => ltb L (one L) e) ev))))).
Proof.
  intros Hi H Hpm Hev Hex.
  apply get_sys_ok_run in H as [loc H].
  apply get_sys_run_ok in H as [Hv _].
  destruct (get_sys_run_value C pa kw verbose w) as (out & w_err & E).
  assert (Hr : get_sys_value C pa kw verbose (self w)
               = Raise (ValueError
                          (explosive_msg (count_true (map (fun e => ltb L (one L) e) ev))))).
  { clear E. revert Hv.
    unfold get_sys_value, settled, settled_reduce_sys, settled_ignore_tests,
      settled_l_max, settled_k_max, ignoring.
    cbn [kw_reduce_sys kw_l_max kw_k_max kw_linear kw_tol kw_ignore_tests].
    rewrite Hi. cbn [truthy default negb].
    repeat match goal with
           | |- rbind (match ?x with Some _ => _ | None => _ end) _ = Ok _ -> _ =>
               destruct x; cbn [rbind]; try discriminate
           | |- rbind (rbind ?r _) _ = Ok _ -> _ =>
               destruct r as [? | ?]; cbn [rbind]; [| discriminate]
           | |- rbind ?r _ = Ok _ -> _ =>
               destruct r as [? | ?]; cbn [rbind]; [| discriminate]
           | |- (let (_, _) := ?x in _) = Ok _ -> _ => destruct x
           end.
    all: intros Hv; inversion Hv as [[Hm Hl]]; rewrite <- Hm in Hpm; cbn in Hpm;
      injection Hpm as ->; unfold stable; rewrite Hev; cbn [rbind];
      replace (existsb id (map (fun e => ltb L (one L) e) ev)) with true;
      [ reflexivity | ].
    all: symmetry; apply existsb_exists; apply Exists_exists in Hex as (y & Hy & Hy');
      exists true; split; [| reflexivity];
      apply in_map_iff; exists y; split; [exact Hy' | apply list_elem_of_In; exact Hy]. }
  rewrite Hr in E. exists w_err. unfold get_sys. apply bind_raise. exact E.
Qed.

(** ** Reading parameters *)

(** The vector [pars] of lines 408 to 414 is computed first, whatever is
    asked for. *)
Ltac get_par_prologue Hp Ho :=
  unfold get_par_body; cbv zeta;
  rewrite run_get_self, Hp, run_ret, run_get_self, Hp;
  unfold overlay in Ho;
  match goal with
  | |- context [gp_npar ?kw] =>
      destruct (gp_npar kw) as [np |];
      [ destruct (negb (length np =? length (par_fix _)));
        [ rewrite run_lift, Ho | rewrite run_ret; injection Ho as Ho; subst np ]
      | rewrite run_ret; injection Ho as Ho; try subst ]
  end.

Lemma world_eta (w : world) : World (self w) (stdout w) (heap w) = w.
Proof. destruct w. reflexivity. Qed.

Lemma get_par_name_run (rec : dummy_t -> gp_kwargs -> call pyret)
    (name : string) (kw : gp_kwargs) (w : world) (p pars : vec) (i : nat) (x : num) :
  par (self w) = Some p ->
  overlay (self w) p (gp_npar kw) = Ok pars ->
  index_of name (parameters (self w)) = Some i ->
  pars !! i = Some x ->
  get_par_body C rec (DStr name) kw w =
    (World (self w)
       (if 0 <? gp_verbose kw then LineVal (tag_get_par +:+ name) x :: stdout w
        else stdout w)
       (heap w),
     Ok (RNum x)).
Proof.
  intros Hp Ho Hi Hx.
  assert (Hm := index_of_mem _ _ _ Hi).
  get_par_prologue Hp Ho.
  all: unfold str_in; rewrite Hm; unfold list_index; rewrite Hi; cbn [rbind];
    unfold getitem; rewrite Hx; rewrite run_lift;
    unfold when; destruct (0 <? gp_verbose kw); rewrite ?world_eta; reflexivity.
Qed.

Lemma get_par_func_run (rec : dummy_t -> gp_kwargs -> call pyret)
    (name : string) (kw : gp_kwargs) (w : world) (p pars vals : vec) (i : nat) (x : num) :
  par (self w) = Some p ->
  overlay (self w) p (gp_npar kw) = Ok pars ->
  mem name (parameters (self w)) = false ->
  index_of name (parafunc_names (self w)) = Some i ->
  parafunc_fun (self w) pars = Ok vals ->
  vals !! i = Some x ->
  get_par_body C rec (DStr name) kw w =
    (World (self w)
       (if 0 <? gp_verbose kw then LineVal (tag_get_par +:+ name) x :: stdout w
        else stdout w)
       (heap w),
     Ok (RNum x)).
Proof.
  intros Hp Ho Hn Hi Hv Hx.
  assert (Hm := index_of_mem _ _ _ Hi).
  get_par_prologue Hp Ho.
  all: unfold str_in; rewrite Hn, Hm, Hv; unfold list_index; rewrite Hi; cbn [rbind];
    unfold getitem; rewrite Hx; rewrite run_lift;
    unfold when; destruct (0 <? gp_verbose kw); rewrite ?world_eta; reflexivity.
Qed.

(** X7.  On a compiled model [get_par] with the name of a parameter
    returns the entry of the current vector (with [npar] laid over it, if
    given) at the index of the name, and with the name of a derived
    parameter the entry of the derived values of that vector; [asdict],
    [full] and [nsamples] play no role, and nothing of the model changes:
    the only effect is the line printed with [verbose]. *)
Theorem get_par_by_name
    (name : string) (kw : gp_kwargs) (w : world) (p pars : vec) (i : nat) (x : num) :
  par (self w) = Some p ->
  overlay (self w) p (gp_npar kw) = Ok pars ->
  let w' := World (self w)
              (if 0 <? gp_verbose kw then LineVal (tag_get_par +:+ name) x :: stdout w
               else stdout w)
              (heap w) in
  (index_of name (parameters (self w)) = Some i ->
   pars !! i = Some x ->
   get_par C (DStr name) kw w = (w', Ok (RNum x))) /\
  (forall vals,
     mem name (parameters (self w)) = false ->
     index_of name (parafunc_names (self w)) = Some i ->
     parafunc_fun (self w) pars = Ok vals ->
     vals !! i = Some x ->
     get_par C (DStr name) kw w = (w', Ok (RNum x))).
Proof.
  intros Hp Ho w'. split.
  - intros Hi Hx. exact (get_par_name_run _ name kw w p pars i x Hp Ho Hi Hx).
  - intros vals Hn Hi Hv Hx.
    exact (get_par_func_run _ name kw w p pars vals i x Hp Ho Hn Hi Hv Hx).
Qed.

(** ** Setting parameters *)

Lemma refresh_filter_model (w w' : world) (r : result unit) :
  refresh_filter w = (w', r) -> model (self w') = model (self w).
Proof.
  revert w w' r.
  change (preserves model (refresh_filter (L := L))).
  unfold refresh_filter. repeat frame_step.
Qed.

Lemma set_par_model_kept (d : dummy_t) (kw : sp_kwargs) (p : vec) (w w' : world) (r : pyret) :
  sets_vector (self w) d kw p ->
  set_par C d kw w = (w', Ok r) ->
  model (self w') = model (self w) /\ par (self w') = Some p /\ r = RVec p.
Proof.
  intros Hs H.
  destruct (set_par_anatomy C d kw p w w' r Hs H)
    as (w1 & w2 & Hg & Hf & Hw & _ & Hp & Hr & _).
  rewrite Hw. split; [| split; [exact Hp | exact Hr]].
  rewrite (refresh_filter_model _ _ _ Hf).
  exact (get_sys_preserves_model C _ _ _ _ _ _ Hg).
Qed.

Lemma put_pairs_length {A} (l l' : list A) (idx : list nat) (c : list A) :
  put_pairs l idx c = Ok l' -> length l' = length l.
Proof.
  revert l c. induction idx as [| i idx IH]; intros l [| x c] H; cbn [put_pairs] in H;
    try (inversion H; reflexivity).
  apply rbind_inv in H as (l1 & H1 & H). unfold setitem in H1.
  destruct (i <? length l); [| discriminate]. inversion H1; subst l1.
  rewrite (IH _ _ H). apply length_insert.
Qed.

Lemma put_pairs_other {A} (l l' : list A) (idx : list nat) (c : list A) (j : nat) :
  put_pairs l idx c = Ok l' -> j ∉ idx -> l' !! j = l !! j.
Proof.
  revert l c. induction idx as [| i idx IH]; intros l [| x c] H Hj; cbn [put_pairs] in H;
    try (inversion H; reflexivity).
  apply rbind_inv in H as (l1 & H1 & H). unfold setitem in H1.
  destruct (i <? length l); [| discriminate]. inversion H1; subst l1.
  apply not_elem_of_cons in Hj as [Hji Hj].
  rewrite (IH _ _ H Hj). apply list_lookup_insert_ne. congruence.
Qed.

Lemma put_pairs_read {A} (l l' : list A) (idx : list nat) (c : list A) :
  NoDup idx -> length c = length idx ->
  put_pairs l idx c = Ok l' -> take_idx l' idx = Ok c.
Proof.
  revert l c. induction idx as [| i idx IH]; intros l [| x c] Hn Hc H;
    try discriminate Hc; cbn [put_pairs take_idx] in *; [reflexivity |].
  apply rbind_inv in H as (l1 & H1 & H). unfold setitem in H1.
  destruct (i <? length l) eqn:Ei; [| discriminate]. inversion H1; subst l1.
  apply Nat.ltb_lt in Ei.
  apply NoDup_cons in Hn as [Hi Hn]. injection Hc as Hc.
  rewrite (IH _ _ Hn Hc H). unfold getitem.
  rewrite (put_pairs_other _ _ _ _ i H Hi), list_lookup_insert_eq by exact Ei.
  reflexivity.
Qed.

(** X8.  Setting one parameter by name and reading it back: when
    [set_par(name, setpar=x)] returns, it returns the full vector with [x]
    at the index of the name, [get_par(name)] returns [x], and every other
    parameter reads as before the call. *)
Theorem set_par_by_name_roundtrip
    (name : string) (x : num) (kw : sp_kwargs) (w w' : world) (r : pyret) (i : nat) :
  sp_setpar kw = Some x ->
  sp_npar kw = None ->
  index_of name (parameters (self w)) = Some i ->
  i < length (current (self w)) ->
  set_par C (DStr name) kw w = (w', Ok r) ->
  r = RVec (<[i := x]> (current (self w))) /\
  get_par C (DStr name) gp_defaults w' = (w', Ok (RNum x)) /\
  (forall other j y,
     index_of other (parameters (self w)) = Some j -> j <> i ->
     current (self w) !! j = Some y ->
     get_par C (DStr other) gp_defaults w' = (w', Ok (RNum y))).
Proof.
  intros Hs Hn Hi Hlt H.
  destruct (set_par_model_kept _ _ _ _ _ _ (by_name _ name kw x i Hs Hn Hi Hlt) H)
    as (Hm & Hp & Hr).
  split; [exact Hr |].
  assert (Hpar : parameters (self w') = parameters (self w)) by (now rewrite Hm).
  split.
  - unfold get_par. rewrite (get_par_name_run _ name gp_defaults w' _ _ i x Hp eq_refl);
      [ cbn; now rewrite world_eta | now rewrite Hpar | ].
    now apply list_lookup_insert_eq.
  - intros other j y Hj Hne Hy.
    unfold get_par. rewrite (get_par_name_run _ other gp_defaults w' _ _ j y Hp eq_refl);
      [ cbn; now rewrite world_eta | now rewrite Hpar | ].
    rewrite list_lookup_insert_ne by congruence. exact Hy.
Qed.

(** X9.  Setting the estimated subset: when [set_par(v)] returns for a
    vector [v] as long as the estimated subset (and not as long as the
    calibration), the vector in force holds [v] at the indices of the
    estimated subset, read in their order, and the current value
    everywhere else. *)
Theorem set_par_subset
    (v : vec) (kw : sp_kwargs) (w w' : world) (r : pyret) :
  sp_setpar kw = None ->
  length v <> length (par_fix (self w)) ->
  length v = length (prior_arg (self w)) ->
  NoDup (prior_arg (self w)) ->
  set_par C (DVec v) kw w = (w', Ok r) ->
  exists p,
    r = RVec p /\ par (self w') = Some p /\
    length p = length (current (self w)) /\
    take_idx p (prior_arg (self w)) = Ok v /\
    (forall j, j ∉ prior_arg (self w) -> p !! j = current (self w) !! j).
Proof.
  intros Hs Hne Hl Hnd H.
  destruct (put_idx (current (self w)) (prior_arg (self w)) v) as [p | e] eqn:Ep.
  - destruct (set_par_model_kept _ _ _ _ _ _ (by_subset _ v p kw Hs Hne Hl Ep) H)
      as (_ & Hp & Hr).
    exists p. split; [exact Hr | split; [exact Hp |]].
    unfold put_idx in Ep. rewrite Hl, Nat.eqb_refl in Ep.
    split; [exact (put_pairs_length _ _ _ _ Ep) |].
    split; [exact (put_pairs_read _ _ _ _ Hnd Hl Ep) |].
    intros j Hj. exact (put_pairs_other _ _ _ _ j Ep Hj).
  - exfalso. revert H. unfold set_par, sp_target.
    unfold bind at 1. rewrite run_get_self. rewrite Hs.
    apply Nat.eqb_neq in Hne. rewrite Hne, Hl, Nat.eqb_refl.
    rewrite run_lift. unfold current in Ep. rewrite Ep. discriminate.
Qed.

Lemma get_sys_parsed_state (pa : option vec) (kw : gs_kwargs) (verbose : nat)
    (w w' : world) (r : result unit) (pp : vec) :
  parsed (self w) (match pa with None => p0 (self w) | Some q => q end) = Ok pp ->
  get_sys C pa kw verbose w = (w', r) ->
  par (self w') = Some (match pa with None => p0 (self w) | Some q => q end) /\
  ppar (self w') = Some pp.
Proof.
  intros E H.
  destruct (gs_settings_run kw w) as [out Hs].
  pose proof (gs_parse_run pa (fst (gs_settings kw w))) as Hp.
  rewrite Hs in Hp. cbn [fst self stdout heap] in Hp. cbv zeta in Hp.
  change (p0 (set_fdict _ _)) with (p0 (self w)) in Hp.
  change (parsed (set_fdict _ _)) with (parsed (self w)) in Hp.
  rewrite E in Hp.
  pose proof (get_sys_after_parse par pa kw verbose w w' r
                ltac:(reflexivity) ltac:(reflexivity) ltac:(reflexivity)
                ltac:(reflexivity) ltac:(reflexivity) ltac:(reflexivity)
                ltac:(reflexivity) H) as H1.
  pose proof (get_sys_after_parse ppar pa kw verbose w w' r
                ltac:(reflexivity) ltac:(reflexivity) ltac:(reflexivity)
                ltac:(reflexivity) ltac:(reflexivity) ltac:(reflexivity)
                ltac:(reflexivity) H) as H2.
  rewrite Hs in H1, H2. cbn [fst] in H1, H2. rewrite Hp in H1, H2.
  cbn [fst self] in H1, H2. split; assumption.
Qed.

(** X10.  A call of [set_par] that fails in the compilation is not rolled
    back: once the new vector has been parsed, [self.par] and [self.ppar]
    hold it when the exception of [get_sys] reaches the caller. *)
Theorem set_par_failure_keeps_vector
    (d : dummy_t) (kw : sp_kwargs) (p pp : vec) (w w1 : world) (e : exn) :
  sets_vector (self w) d kw p ->
  parsed (self w) p = Ok pp ->
  get_sys C (Some p) (sp_args kw) (sp_verbose kw) w = (w1, Raise e) ->
  set_par C d kw w = (w1, Raise e) /\
  par (self w1) = Some p /\ ppar (self w1) = Some pp.
Proof.
  intros Hs Hp Hg. split.
  - unfold set_par. rewrite (bind_ok _ _ _ _ _ (sp_target_sets C d kw p w Hs)).
    apply bind_raise. exact Hg.
  - exact (get_sys_parsed_state (Some p) _ _ _ _ _ pp Hp Hg).
Qed.

(** X11.  With a particle filter attached [set_par] cannot return: after
    the model has been compiled with the new vector and the filter's
    [eps_cov] has been replaced, line 591 raises [NotImplementedError]; the
    filter's [Q] is the old one. *)
Theorem set_par_particle_filter
    (d : dummy_t) (kw : sp_kwargs) (p : vec) (w w1 : world) (f : filter_t) :
  sets_vector (self w) d kw p ->
  filter (self w) = Some f ->
  f_name f = "ParticleFilter" ->
  get_sys C (Some p) (sp_args kw) (sp_verbose kw) w = (w1, Ok tt) ->
  exists pp,
    ppar (self w1) = Some pp /\ par (self w1) = Some p /\
    set_par C d kw w =
      (World (set_filter (Some (Filter "ParticleFilter" (Some (QQ (self w) pp)) (f_Q f)))
                (self w1))
         (stdout w1) (heap w1),
       Raise (NotImplementedError "")).
Proof.
  intros Hs Hf Hn Hg.
  destruct (get_sys_ok_state C _ _ _ _ _ Hg) as (Hp & (pp & Hpp) & _).
  exists pp. split; [exact Hpp | split; [exact Hp |]].
  unfold set_par. rewrite (bind_ok _ _ _ _ _ (sp_target_sets C d kw p w Hs)).
  cbv beta iota. rewrite (bind_ok _ _ _ _ _ Hg).
  apply bind_raise.
  pose proof (get_sys_preserves_filter C _ _ _ _ _ _ Hg) as Hfl.
  pose proof (get_sys_preserves_model C _ _ _ _ _ _ Hg) as Hm.
  unfold refresh_filter. rewrite run_get_self, Hfl, Hf, Hpp, run_assign, Hn.
  cbn [String.eqb Ascii.eqb Bool.eqb andb].
  change (QQ (self w1) pp) with (QQ (model (self w1)) pp). rewrite Hm.
  reflexivity.
Qed.

(** ** The named parameter sets *)

Ltac string_tests :=
  repeat match goal with
         | |- context [String.eqb ?a ?b] =>
             let v := eval vm_compute in (String.eqb a b) in
             match v with
             | true => change (String.eqb a b) with true
             | false => change (String.eqb a b) with false
             end
         | |- context [str_in ?a (?x :: ?l)] =>
             let v := eval vm_compute in (str_in a (x :: l)) in
             match v with
             | true => change (str_in a (x :: l)) with true
             | false => change (str_in a (x :: l)) with false
             end
         end;
  cbn [orb andb negb gp_full gp_asdict gp_nsamples gp_inner gp_npar gp_verbose gp_args
       gp_roundto gp_debug Nat.ltb Nat.leb].

(** Reading a named set that the object holds, by the body of [get_par]
    with any function for its inner calls: the parameters are reset to the
    calibration and stay so. *)
Lemma get_par_calib_run (rec : dummy_t -> gp_kwargs -> call pyret)
    (kw : gp_kwargs) (w : world) (p pars c : vec) :
  par (self w) = Some p ->
  mem "calib" (parameters (self w)) = false ->
  mem "calib" (parafunc_names (self w)) = false ->
  overlay (self w) p (gp_npar kw) = Ok pars ->
  take_idx (par_fix (self w)) (prior_arg (self w)) = Ok c ->
  gp_asdict kw = false ->
  gp_nsamples kw = 1 ->
  get_par_body C rec (DStr "calib") kw w =
    (World (set_par_attr (Some (par_fix (self w))) (self w)) (stdout w) (heap w),
     Ok (RVec (if gp_full kw then par_fix (self w) else c))).
Proof.
  intros Hp H1 H2 Ho Hc Ha Hn.
  get_par_prologue Hp Ho.
  all: unfold str_in at 1 2; rewrite H1, H2; string_tests;
    unfold reset_and_read; unfold bind at 1; rewrite run_get_self, Hp, run_assign;
    unfold named_set; unfold bind at 1; rewrite run_get_self; string_tests;
    cbn [self set_par_attr model];
    rewrite run_lift, Hc; unfold ret at 1 2; cbv beta iota;
    unfold finish; rewrite run_get_self; rewrite Ha, Hn;
    cbn [self set_par_attr model negb Nat.ltb Nat.leb];
    destruct (gp_full kw);
    [ rewrite run_lift, run_lift, (put_idx_back _ _ _ Hc); reflexivity
    | reflexivity ].
Qed.

Lemma get_par_mode_run (rec : dummy_t -> gp_kwargs -> call pyret)
    (kw : gp_kwargs) (w : world) (p pars v : vec) :
  par (self w) = Some p ->
  mem "mode" (parameters (self w)) = false ->
  mem "mode" (parafunc_names (self w)) = false ->
  overlay (self w) p (gp_npar kw) = Ok pars ->
  fd_mode_x (fdict (self w)) = Some v ->
  gp_asdict kw = false ->
  gp_nsamples kw = 1 ->
  get_par_body C rec (DStr "mode") kw w =
    (World (set_par_attr (Some (par_fix (self w))) (self w)) (stdout w) (heap w),
     if gp_full kw
     then rbind (put_idx (par_fix (self w)) (prior_arg (self w)) v) (fun q => Ok (RVec q))
     else Ok (RVec v)).
Proof.
  intros Hp H1 H2 Ho Hv Ha Hn.
  get_par_prologue Hp Ho.
  all: unfold str_in at 1 2; rewrite H1, H2; string_tests;
    unfold reset_and_read; unfold bind at 1; rewrite run_get_self, Hp, run_assign;
    unfold named_set; unfold bind at 1; rewrite run_get_self; string_tests;
    cbn [self set_par_attr model fdict]; rewrite Hv;
    unfold ret at 1 2; cbv beta iota;
    unfold finish; rewrite run_get_self; rewrite Ha, Hn;
    cbn [self set_par_attr model negb Nat.ltb Nat.leb];
    destruct (gp_full kw);
    [ rewrite run_lift, run_lift;
      destruct (put_idx (par_fix (self w)) (prior_arg (self w)) v); reflexivity
    | reflexivity ].
Qed.

(** X12.  [get_par('calib')] on a compiled model returns the calibration
    (its entries at the estimated subset with [full=False]) and, as a side
    effect, replaces [self.par] by the calibration without compiling: the
    stored system is the one of the parameters before the call.  A vector
    [npar] plays no role in the result. *)
Theorem get_par_calib
    (kw : gp_kwargs) (w : world) (p pars c : vec) :
  par (self w) = Some p ->
  mem "calib" (parameters (self w)) = false ->
  mem "calib" (parafunc_names (self w)) = false ->
  overlay (self w) p (gp_npar kw) = Ok pars ->
  take_idx (par_fix (self w)) (prior_arg (self w)) = Ok c ->
  gp_asdict kw = false ->
  gp_nsamples kw = 1 ->
  exists w',
    get_par C (DStr "calib") kw w
      = (w', Ok (RVec (if gp_full kw then par_fix (self w) else c))) /\
    par (self w') = Some (par_fix (self w)) /\
    sys (self w') = sys (self w) /\ ppar (self w') = ppar (self w) /\
    stdout w' = stdout w /\ heap w' = heap w.
Proof.
  intros Hp H1 H2 Ho Hc Ha Hn. eexists. split.
  - exact (get_par_calib_run _ kw w p pars c Hp H1 H2 Ho Hc Ha Hn).
  - repeat split.
Qed.

(** X13.  With a mode stored in [fdict], [get_par('mode')] lays the mode
    over the calibration, whereas [get_par('best')] lays it over the
    vector that was current when it was called (with [npar] over that, if
    given): the two agree on the estimated subset and may differ
    elsewhere.  Both leave [self.par] reset to the calibration. *)
Theorem get_par_best_and_mode
    (kw : gp_kwargs) (w : world) (p pars v : vec) :
  par (self w) = Some p ->
  mem "mode" (parameters (self w)) = false ->
  mem "mode" (parafunc_names (self w)) = false ->
  mem "best" (parameters (self w)) = false ->
  mem "best" (parafunc_names (self w)) = false ->
  overlay (self w) p (gp_npar kw) = Ok pars ->
  fd_mode_x (fdict (self w)) = Some v ->
  gp_full kw = true ->
  gp_asdict kw = false ->
  gp_nsamples kw = 1 ->
  let w' := World (set_par_attr (Some (par_fix (self w))) (self w)) (stdout w) (heap w) in
  get_par C (DStr "mode") kw w
    = (w', rbind (put_idx (par_fix (self w)) (prior_arg (self w)) v) (fun q => Ok (RVec q))) /\
  get_par C (DStr "best") kw w
    = (w', rbind (put_idx pars (prior_arg (self w)) v) (fun q => Ok (RVec q))).
Proof.
  intros Hp H1 H2 H3 H4 Ho Hv Hf Ha Hn w'. split.
  - unfold get_par. rewrite (get_par_mode_run _ kw w p pars v Hp H1 H2 Ho Hv Ha Hn).
    rewrite Hf. reflexivity.
  - unfold get_par at 1.
    get_par_prologue Hp Ho.
    all: unfold str_in at 1 2; rewrite H3, H4; string_tests;
      unfold get_par_best at 1;
      unfold bind at 1; unfold try_except; unfold bind at 1;
      rewrite (get_par_mode_run _ (gp_inner kw) w _ _ v Hp H1 H2 eq_refl Hv eq_refl eq_refl);
      cbn [gp_full gp_inner]; cbv beta iota; rewrite run_lift; cbn [cand_of];
      unfold ret at 1; cbv beta iota;
      unfold finish; rewrite run_get_self; rewrite Hf, Ha;
      cbn [self set_par_attr model negb];
      rewrite run_lift, run_lift;
      match goal with
      | |- context [put_idx ?a ?b ?c] => destruct (put_idx a b c)
      end; reflexivity.
Qed.

(** ** A vector as the first argument of [get_par], and [get_cov] *)

Lemma put_pairs_from {A} (l l' v : list A) (idx : list nat) (c : list A) :
  take_idx v idx = Ok c -> put_pairs l idx c = Ok l' ->
  forall j, j ∈ idx -> l' !! j = v !! j.
Proof.
  revert l c. induction idx as [| i idx IH]; intros l c Ht Hp j Hj.
  - inversion Hj.
  - cbn [take_idx] in Ht.
    apply rbind_inv in Ht as (x & Hx & Ht). apply rbind_inv in Ht as (xs & Hxs & Ht).
    inversion Ht; subst c. cbn [put_pairs] in Hp.
    apply rbind_inv in Hp as (l1 & H1 & Hp). unfold setitem in H1.
    destruct (i <? length l) eqn:Ei; [| discriminate]. inversion H1; subst l1.
    apply Nat.ltb_lt in Ei.
    destruct (decide (j ∈ idx)) as [Hin | Hout].
    + exact (IH _ _ Hxs Hp j Hin).
    + apply elem_of_cons in Hj as [-> | Hj]; [| contradiction].
      rewrite (put_pairs_other _ _ _ _ i Hp Hout), list_lookup_insert_eq by exact Ei.
      symmetry. apply getitem_ok. exact Hx.
Qed.

(** X14.  [get_par] with a vector [v] as long as the calibration does not
    return [v]: it returns the current vector (with [npar] over it, if
    given) in which the entries at the estimated subset are replaced by
    those of [v]; the entries of [v] elsewhere are dropped.  Nothing of the
    model changes. *)
Theorem get_par_vector
    (v : vec) (kw : gp_kwargs) (w w' : world) (p pars : vec) (r : pyret) :
  par (self w) = Some p ->
  overlay (self w) p (gp_npar kw) = Ok pars ->
  length v = length (par_fix (self w)) ->
  gp_full kw = true ->
  gp_asdict kw = false ->
  get_par C (DVec v) kw w = (w', Ok r) ->
  w' = w /\
  exists q,
    r = RVec q /\ length q = length pars /\
    (forall j, j ∈ prior_arg (self w) -> q !! j = v !! j) /\
    (forall j, j ∉ prior_arg (self w) -> q !! j = pars !! j).
Proof.
  intros Hp Ho Hl Hf Ha. unfold get_par.
  get_par_prologue Hp Ho.
  all: rewrite Hl, Nat.eqb_refl;
    unfold bind at 1; rewrite run_lift;
    destruct (take_idx v (prior_arg (self w))) as [c | e] eqn:Ec; [| discriminate];
    unfold ret at 1; cbv beta iota;
    unfold finish; rewrite run_get_self, Hf, Ha; cbn [negb];
    rewrite run_lift, run_lift;
    match goal with
    | |- context [put_idx ?a ?b ?c] => destruct (put_idx a b c) as [q | e] eqn:Eq
    end; [| discriminate];
    unfold ret; intros H; inversion H; subst; split; [reflexivity |];
    exists q; split; [reflexivity |];
    unfold put_idx in Eq; rewrite (take_idx_length _ _ _ Ec), Nat.eqb_refl in Eq;
    split; [exact (put_pairs_length _ _ _ _ Eq) |];
    split; [exact (put_pairs_from _ _ _ _ _ Ec Eq) |];
    intros j Hj; exact (put_pairs_other _ _ _ _ j Eq Hj).
Qed.

(** X15.  [get_cov] compiles the model with the current vector (with
    [npar] over it, if given) and the default settings of [get_sys],
    whatever keyword arguments it was given, and returns the covariance of
    the shocks at the parsed parameters; an exception of the compilation
    reaches the caller.  The vector it compiled with stays in
    [self.par]. *)
Theorem get_cov_compiles
    (npar : option vec) (kw : gp_kwargs) (w : world) (p pars : vec) :
  par (self w) = Some p ->
  mem "cov_mat" (parameters (self w)) = false ->
  mem "cov_mat" (parafunc_names (self w)) = false ->
  overlay (self w) p npar = Ok pars ->
  gp_verbose kw = 0 ->
  (forall w1 e,
     get_sys C (Some pars) gs_defaults 0 w = (w1, Raise e) ->
     get_cov C npar kw w = (w1, Raise e)) /\
  (forall w1,
     get_sys C (Some pars) gs_defaults 0 w = (w1, Ok tt) ->
     exists pp,
       ppar (self w1) = Some pp /\ par (self w1) = Some pars /\
       get_cov C npar kw w = (w1, Ok (RMat (QQ (self w) pp)))).
Proof.
  intros Hp H1 H2 Ho Hv.
  assert (Hbody : get_cov C npar kw w =
            bind (get_sys C (Some pars) gs_defaults 0)
              (fun _ => bind get_self (fun m' =>
                 match ppar m' with
                 | None => raise (AttributeError "ppar")
                 | Some pp => ret (RMat (QQ m' pp))
                 end)) w).
  { unfold get_cov, get_par.
    set (kw' := GpKwargs npar _ _ _ _ _ _ _).
    assert (Ho' : overlay (self w) p (gp_npar kw') = Ok pars) by exact Ho.
    assert (Hv' : gp_verbose kw' = 0) by exact Hv.
    clearbody kw'. clear Ho.
    get_par_prologue Hp Ho'.
    all: unfold str_in at 1 2; rewrite H1, H2; string_tests; rewrite Hv';
      cbn [Nat.ltb Nat.leb]; reflexivity. }
  split.
  - intros w1 e Hg. rewrite Hbody. apply bind_raise. exact Hg.
  - intros w1 Hg.
    destruct (get_sys_ok_state C _ _ _ _ _ Hg) as (Hp1 & (pp & Hpp) & _).
    exists pp. split; [exact Hpp | split; [exact Hp1 |]].
    rewrite Hbody, (bind_ok _ _ _ _ _ Hg), run_get_self, Hpp.
    pose proof (get_sys_preserves_model C _ _ _ _ _ _ Hg) as Hm.
    change (QQ (self w1) pp) with (QQ (model (self w1)) pp). rewrite Hm.
    reflexivity.
Qed.

(** ** The initial values *)

(** The list that the loop of lines 488 to 490 leaves in
    [fdict['init_value']]. *)
Fixpoint filled (idx : list nat) (l : list (option num)) (c : vec) : list (option num) :=
  match idx with
  | [] => l
  | i :: idx' =>
      filled idx'
        (match l !! i, c !! i with
         | Some None, Some y => <[i := Some y]> l
         | _, _ => l
         end) c
  end.

Lemma filled_length (idx : list nat) (l : list (option num)) (c : vec) :
  length (filled idx l c) = length l.
Proof.
  revert l. induction idx as [| i idx IH]; intros l; [reflexivity |].
  cbn [filled]. rewrite IH.
  destruct (l !! i) as [[x |] |]; try reflexivity.
  destruct (c !! i); [apply length_insert | reflexivity].
Qed.

Lemma filled_given (idx : list nat) (l : list (option num)) (c : vec) (j : nat) (x : num) :
  l !! j = Some (Some x) -> filled idx l c !! j = Some (Some x).
Proof.
  revert l. induction idx as [| i idx IH]; intros l Hj; [exact Hj |].
  cbn [filled]. apply IH.
  destruct (l !! i) as [[z |] |] eqn:Ei; try exact Hj.
  destruct (c !! i) as [y |]; [| exact Hj].
  destruct (decide (i = j)) as [-> | Hne]; [congruence |].
  rewrite list_lookup_insert_ne by exact Hne. exact Hj.
Qed.

Lemma filled_missing (idx : list nat) (l : list (option num)) (c : vec) (j : nat) (y : num) :
  j ∈ idx -> l !! j = Some None -> c !! j = Some y ->
  filled idx l c !! j = Some (Some y).
Proof.
  revert l. induction idx as [| i idx IH]; intros l Hin Hj Hc; [inversion Hin |].
  cbn [filled].
  destruct (decide (i = j)) as [-> | Hne].
  - rewrite Hj, Hc. apply filled_given.
    apply list_lookup_insert_eq. eapply lookup_lt_Some. exact Hj.
  - apply elem_of_cons in Hin as [-> | Hin]; [congruence |].
    apply IH; [exact Hin | | exact Hc].
    destruct (l !! i) as [[z |] |]; try exact Hj.
    destruct (c !! i); [| exact Hj].
    rewrite list_lookup_insert_ne by exact Hne. exact Hj.
Qed.

Lemma all_some_values (v : vec) : all_some (map Some v) = Ok v.
Proof. induction v as [| x v IH]; cbn; [reflexivity | now rewrite IH]. Qed.

(** The loop as a run. *)
Lemma fill_init_run (idx : list nat) (l : list (option num)) (c : vec) (w : world) :
  fd_init_value (fdict (self w)) = Some l ->
  take_idx (par_fix (self w)) (prior_arg (self w)) = Ok c ->
  (forall i, i ∈ idx -> i < length l /\ i < length c) ->
  exists w',
    fill_init idx w = (w', Ok tt) /\
    fd_init_value (fdict (self w')) = Some (filled idx l c) /\
    model (self w') = model (self w) /\ par (self w') = par (self w) /\
    sys (self w') = sys (self w) /\ ppar (self w') = ppar (self w) /\
    stdout w' = stdout w /\ heap w' = heap w.
Proof.
  revert l w. induction idx as [| i idx IH]; intros l w Hl Hc Hb.
  - exists w. cbn. repeat split. exact Hl.
  - destruct (Hb i (list_elem_of_here _ _)) as [Hil Hic].
    destruct (lookup_lt_is_Some_2 l i Hil) as [x Hx].
    destruct (lookup_lt_is_Some_2 c i Hic) as [y Hy].
    assert (Hb' : forall k, k ∈ idx -> k < length l /\ k < length c)
      by (intros k Hk; apply Hb; now apply list_elem_of_further).
    cbn [fill_init filled]. rewrite run_get_self, Hl, run_lift.
    unfold getitem at 1. rewrite Hx, Hy.
    destruct x as [x |].
    + rewrite run_ret. exact (IH l w Hl Hc Hb').
    + unfold bind at 1. rewrite run_lift, Hc, run_lift. unfold getitem. rewrite Hy.
      unfold assign. cbv beta iota.
      destruct (IH (<[i := Some y]> l)
                  (World (set_init_value (<[i := Some y]> l) (self w)) (stdout w) (heap w)))
        as (w' & Hr & Hi & Hm & Hp & Hs & Hpp & Ho & Hh).
      * reflexivity.
      * exact Hc.
      * intros k Hk. rewrite length_insert. exact (Hb' k Hk).
      * exists w'. split; [exact Hr |]. split; [exact Hi |].
        repeat split; assumption.
Qed.

Lemma filled_values (l : list (option num)) (c : vec) :
  length l = length c ->
  filled (seq 0 (length l)) l c = map Some (zip_with (fun o y => default y o) l c).
Proof.
  intros Hlen. apply list_eq. intros j.
  destruct (decide (j < length l)) as [Hj | Hj].
  - destruct (lookup_lt_is_Some_2 l j Hj) as [o Ho].
    destruct (lookup_lt_is_Some_2 c j ltac:(lia)) as [y Hy].
    rewrite list_lookup_fmap, lookup_zip_with, Ho. cbn. rewrite Hy. cbn.
    destruct o as [x |]; cbn.
    + apply filled_given. exact Ho.
    + apply filled_missing; [| exact Ho | exact Hy].
      apply elem_of_seq. lia.
  - rewrite !(proj2 (lookup_ge_None _ _)); [reflexivity | |].
    + rewrite length_map, length_zip_with. lia.
    + rewrite filled_length. lia.
Qed.

(** X21.  [get_par('init')] completes the list [fdict['init_value']] in
    place: an entry that is [None] is replaced by the calibrated value of
    that estimated parameter, an entry that is given stays.  The call
    returns the calibration with the completed list laid over the
    estimated subset, leaves the completed list in [fdict], and resets
    [self.par] to the calibration without compiling. *)
Theorem get_par_init
    (kw : gp_kwargs) (w : world) (p pars c : vec) (l : list (option num)) :
  par (self w) = Some p ->
  mem "init" (parameters (self w)) = false ->
  mem "init" (parafunc_names (self w)) = false ->
  overlay (self w) p (gp_npar kw) = Ok pars ->
  fd_init_value (fdict (self w)) = Some l ->
  take_idx (par_fix (self w)) (prior_arg (self w)) = Ok c ->
  length l = ndim (self w) ->
  length c = ndim (self w) ->
  gp_full kw = true ->
  gp_asdict kw = false ->
  exists w' v,
    get_par C (DStr "init") kw w
      = (w', rbind (put_idx (par_fix (self w)) (prior_arg (self w)) v)
               (fun q => Ok (RVec q))) /\
    fd_init_value (fdict (self w')) = Some (map Some v) /\
    length v = length l /\
    (forall i x, l !! i = Some (Some x) -> v !! i = Some x) /\
    (forall i, l !! i = Some None -> v !! i = c !! i) /\
    par (self w') = Some (par_fix (self w)) /\
    sys (self w') = sys (self w) /\ ppar (self w') = ppar (self w).
Proof.
  intros Hp H1 H2 Ho Hl Hc Hnl Hnc Hf Ha.
  set (v := zip_with (fun o y => default y o) l c).
  destruct (fill_init_run (seq 0 (ndim (self w))) l c
              (World (set_par_attr (Some (par_fix (self w))) (self w)) (stdout w) (heap w)))
    as (w' & Hr & Hi & Hm & Hpa & Hs & Hpp & Hso & Hh).
  { exact Hl. }
  { exact Hc. }
  { intros i Hi. apply elem_of_seq in Hi. lia. }
  rewrite <- Hnl, (filled_values l c ltac:(lia)) in Hi. fold v in Hi.
  exists w', v. split.
  - unfold get_par.
    get_par_prologue Hp Ho.
    all: unfold str_in at 1 2; rewrite H1, H2; string_tests;
      unfold reset_and_read; unfold bind at 1; rewrite run_get_self, Hp, run_assign;
      unfold named_set; unfold bind at 1; rewrite run_get_self; string_tests;
      cbn [self set_par_attr model fdict]; rewrite Hl;
      unfold bind at 1; unfold bind at 1; rewrite Hr; cbv beta iota;
      unfold get_self at 1; unfold ret at 1; cbv beta iota; rewrite Hi; cbn [option_map];
      unfold ret at 1; cbv beta iota;
      unfold finish; rewrite run_get_self; rewrite Hf, Ha; cbn [negb];
      rewrite run_lift, all_some_values, run_lift;
      change (prior_arg (self w')) with (prior_arg (model (self w'))); rewrite Hm;
      cbn [self set_par_attr model];
      match goal with
      | |- context [put_idx ?a ?b ?d] => destruct (put_idx a b d)
      end; reflexivity.
  - split; [exact Hi |].
    split; [unfold v; rewrite length_zip_with; lia |].
    split; [| split; [| split; [| split]]].
    + intros i x Hx. unfold v. rewrite lookup_zip_with, Hx. cbn.
      destruct (lookup_lt_is_Some_2 c i) as [y Hy];
        [apply lookup_lt_Some in Hx; lia | rewrite Hy; reflexivity].
    + intros i Hx. unfold v. rewrite lookup_zip_with, Hx. cbn.
      destruct (c !! i); reflexivity.
    + rewrite Hpa. reflexivity.
    + rewrite Hs. reflexivity.
    + rewrite Hpp. reflexivity.
Qed.

(** ** The means of the priors *)

Lemma get_par_prior_mean_run (rec : dummy_t -> gp_kwargs -> call pyret)
    (adjust : bool) (kw : gp_kwargs) (w : world) (p pars : vec) :
  let tok := if adjust then "adj_prior_mean" else "prior_mean" in
  par (self w) = Some p ->
  mem tok (parameters (self w)) = false ->
  mem tok (parafunc_names (self w)) = false ->
  overlay (self w) p (gp_npar kw) = Ok pars ->
  gp_full kw = true ->
  gp_asdict kw = false ->
  get_par_body C rec (DStr tok) kw w =
    (World (set_par_attr (Some (par_fix (self w))) (self w)) (stdout w) (heap w),
     rbind (put_idx (par_fix (self w)) (prior_arg (self w))
              (map (fun kv => prior_mean adjust (snd kv)) (prior (self w))))
       (fun q => Ok (RVec q))).
Proof.
  intros tok Hp H1 H2 Ho Hf Ha. subst tok.
  destruct adjust.
  all: get_par_prologue Hp Ho.
  all: unfold str_in at 1 2; rewrite H1, H2; string_tests;
    unfold reset_and_read; unfold bind at 1; rewrite run_get_self, Hp, run_assign;
    unfold named_set; unfold bind at 1; rewrite run_get_self; string_tests;
    cbn [self set_par_attr model];
    unfold ret at 1 2; cbv beta iota;
    unfold finish; rewrite run_get_self; rewrite Hf, Ha;
    cbn [self set_par_attr model negb];
    rewrite run_lift, run_lift;
    match goal with
    | |- context [put_idx ?a ?b ?d] => destruct (put_idx a b d)
    end; reflexivity.
Qed.

(** X22.  [get_par('prior_mean')] lays over the calibration, for each
    prior in the order of [self.prior], the entry before the last one, or
    the mean of the last two entries for a uniform prior;
    [get_par('adj_prior_mean')] returns the same unless a prior is of the
    kind [inv_gamma_dynare], whose entry it takes ten times.  Both reset
    [self.par] to the calibration. *)
Theorem get_par_prior_means
    (kw : gp_kwargs) (w : world) (p pars : vec) :
  par (self w) = Some p ->
  mem "prior_mean" (parameters (self w)) = false ->
  mem "prior_mean" (parafunc_names (self w)) = false ->
  mem "adj_prior_mean" (parameters (self w)) = false ->
  mem "adj_prior_mean" (parafunc_names (self w)) = false ->
  overlay (self w) p (gp_npar kw) = Ok pars ->
  gp_full kw = true ->
  gp_asdict kw = false ->
  let w' := World (set_par_attr (Some (par_fix (self w))) (self w)) (stdout w) (heap w) in
  let means (adjust : bool) := map (fun kv => prior_mean adjust (snd kv)) (prior (self w)) in
  get_par C (DStr "prior_mean") kw w
    = (w', rbind (put_idx (par_fix (self w)) (prior_arg (self w)) (means false))
             (fun q => Ok (RVec q))) /\
  get_par C (DStr "adj_prior_mean") kw w
    = (w', rbind (put_idx (par_fix (self w)) (prior_arg (self w)) (means true))
             (fun q => Ok (RVec q))) /\
  (forall i kv,
     prior (self w) !! i = Some kv ->
     means true !! i =
       Some (if String.eqb (pr_dist (snd kv)) "inv_gamma_dynare"
             then mul L (pr_m2 (snd kv)) (ten L)
             else default (zero L) (means false !! i))) /\
  (Forall (fun kv => pr_dist (snd kv) <> "inv_gamma_dynare") (prior (self w)) ->
   get_par C (DStr "adj_prior_mean") kw w = get_par C (DStr "prior_mean") kw w).
Proof.
  intros Hp H1 H2 H3 H4 Ho Hf Ha w' means.
  assert (Hm : get_par C (DStr "prior_mean") kw w
               = (w', rbind (put_idx (par_fix (self w)) (prior_arg (self w)) (means false))
                        (fun q => Ok (RVec q))))
    by exact (get_par_prior_mean_run _ false kw w p pars Hp H1 H2 Ho Hf Ha).
  assert (Hadj : get_par C (DStr "adj_prior_mean") kw w
               = (w', rbind (put_idx (par_fix (self w)) (prior_arg (self w)) (means true))
                        (fun q => Ok (RVec q))))
    by exact (get_par_prior_mean_run _ true kw w p pars Hp H3 H4 Ho Hf Ha).
  split; [exact Hm |]. split; [exact Hadj |]. split.
  - intros i kv Hi. unfold means. rewrite !list_lookup_fmap, Hi. cbn.
    unfold prior_mean. cbn [andb].
    destruct (String.eqb (pr_dist (snd kv)) "inv_gamma_dynare"); reflexivity.
  - intros Hall. rewrite Hm, Hadj.
    assert (E : means true = means false).
    { unfold means. apply map_ext_in. intros kv Hin.
      apply list_elem_of_In in Hin. apply (proj1 (Forall_forall _ _) Hall) in Hin.
      unfold prior_mean. cbn [andb].
      destruct (String.eqb (pr_dist (snd kv)) "inv_gamma_dynare") eqn:E;
        [apply String.eqb_eq in E; contradiction | reflexivity]. }
    rewrite E. reflexivity.
Qed.

(** ** [get_par] on an object that was never compiled *)

(** X23.  On an object without [self.par], [get_par] compiles first, with
    the calibration and the keyword arguments it was given: an exception of
    that compilation reaches the caller, and when it returns the call is
    the same call on the compiled object, whose current vector is the
    calibration [p0()]. *)
Theorem get_par_fresh_object
    (d : dummy_t) (kw : gp_kwargs) (w : world) :
  par (self w) = None ->
  (forall w1 e,
     get_sys C None (gp_args kw) (gp_verbose kw) w = (w1, Raise e) ->
     get_par C d kw w = (w1, Raise e)) /\
  (forall w1,
     get_sys C None (gp_args kw) (gp_verbose kw) w = (w1, Ok tt) ->
     par (self w1) = Some (p0 (self w)) /\
     get_par C d kw w = get_par C d kw w1).
Proof.
  intros Hn. split.
  - intros w1 e Hg. unfold get_par, get_par_body. cbv zeta.
    rewrite run_get_self, Hn. unfold bind at 1. rewrite Hg. reflexivity.
  - intros w1 Hg.
    destruct (get_sys_ok_state C _ _ _ _ _ Hg) as (Hp & _).
    split; [exact Hp |].
    unfold get_par, get_par_body. cbv zeta.
    rewrite run_get_self, Hn. rewrite (bind_ok _ _ _ _ _ Hg).
    symmetry. rewrite run_get_self, Hp, run_ret. reflexivity.
Qed.

(** ** The constrained variable among the forward-looking ones *)

(** X24.  [get_sys] can return only for a model whose constrained variable
    is one of its variables, at a position that the mask [in_x] of line 97
    keeps: when the matrices have the shapes of the model, some equation
    holds a lead of the constrained variable, or its coefficient in the
    constraint is not zero. *)
Theorem get_sys_keeps_constrained_variable
    (pa : option vec) (kw : gs_kwargs) (verbose : nat) (w w' : world) :
  get_sys C pa kw verbose w = (w', Ok tt) ->
  exists pp cv in_x i,
    parsed (self w) (match pa with None => p0 (self w) | Some q => q end) = Ok pp /\
    const_var (self w) = Some cv /\
    vor (vnot (Arr.fast0_cols (AA (self w) pp)))
        (vnot (Arr.fast0 (first_n (length (variables (self w))) (bb (self w) pp))))
      = Ok in_x /\
    variables (self w) !! i = Some cv /\ in_x !! i = Some true /\
    (ncols (AA (self w) pp) = length (variables (self w)) ->
     length (variables (self w)) <= length (bb (self w) pp) ->
     forallb Arr.near0 (Arr.col i (AA (self w) pp)) = false \/
     exists b, bb (self w) pp !! i = Some b /\ Arr.near0 b = false).
Proof.
  intros H. apply get_sys_ok_run in H as [loc Hrun].
  apply get_sys_run_facts in Hrun.
  destruct Hrun as [pp cv m3 e pm Hparsed Hconst Hd _ _ _ _ _ _ _ _ _ _ _ _].
  unfold desingularize in Hd. cbv zeta in Hd.
  apply rbind_inv in Hd as (in_x & Hin & Hd).
  apply rbind_inv in Hd as (vv_x2 & Hsel & Hd).
  apply rbind_inv in Hd as (A1 & _ & Hd).
  apply rbind_inv in Hd as (bbx & _ & Hd).
  apply rbind_inv in Hd as (N & _ & Hd).
  apply rbind_inv in Hd as (eye_x & _ & Hd).
  apply rbind_inv in Hd as (P & _ & Hd).
  apply rbind_inv in Hd as (c_arg & Hidx & _).
  apply vsel_ok in Hsel as [Hlen ->].
  unfold list_index in Hidx.
  destruct (index_of cv (compress in_x (variables (self w)))) as [k |] eqn:Ek;
    [| discriminate Hidx].
  apply index_of_lookup, compress_lookup in Ek as (i & Hv & Hi).
  exists pp, cv, in_x, i.
  split; [exact Hparsed |]. split; [exact Hconst |]. split; [exact Hin |].
  split; [exact Hv |]. split; [exact Hi |].
  intros Hc Hb.
  assert (Hlt : i < length (variables (self w))) by (eapply lookup_lt_Some; exact Hv).
  unfold vor in Hin. rewrite broadcast2_same in Hin.
  2: { rewrite !vnot_length, fast0_cols_length, fast0_length. unfold first_n.
       rewrite length_take. lia. }
  injection Hin as <-.
  rewrite lookup_zip_with in Hi.
  unfold vnot in Hi. rewrite !list_lookup_fmap in Hi.
  rewrite fast0_cols_lookup in Hi by lia.
  unfold Arr.fast0, first_n in Hi. rewrite list_lookup_fmap, lookup_take_lt in Hi by exact Hlt.
  destruct (bb (self w) pp !! i) as [b |] eqn:Eb; [| discriminate Hi].
  cbn in Hi. injection Hi as Hi.
  apply orb_true_iff in Hi as [Hi | Hi]; apply negb_true_iff in Hi.
  - left. exact Hi.
  - right. exists b. split; [reflexivity | exact Hi].
Qed.

End More.

(** * [posterior_sampler] and [filtering.py] *)

Section Rest.

Context {L : numlib}.
Local Abbreviation num := (num L).
Local Abbreviation vec := (list num).
Local Abbreviation mat := (matrix num).

Lemma rmap_ok {A B} (f : A -> result B) (l : list A) (ys : list B) :
  rmap f l = Ok ys -> length ys = length l /\ Forall2 (fun x y => f x = Ok y) l ys.
Proof.
  revert ys. induction l as [| x l IH]; cbn [rmap]; intros ys H.
  - inversion H. split; [reflexivity | constructor].
  - apply rbind_inv in H as (y & Hy & H). apply rbind_inv in H as (ys' & Hys & H).
    inversion H; subst ys. destruct (IH _ Hys) as [Hl Hf].
    split; [cbn; now rewrite Hl | constructor; assumption].
Qed.

Lemma tail_from_suffix {A} (t : Z) (l : list A) :
  suffix (Draws.tail_from t l) l.
Proof.
  unfold Draws.tail_from, last_n.
  destruct (0 <=? t)%Z; [| apply suffix_drop].
  destruct (Z.to_nat t =? 0); [reflexivity | apply suffix_drop].
Qed.

(** X17.  What [posterior_sampler] returns: [nsamples] rows, each of
    them a row of a walker at one of the steps [chain[-get_tune:]], which
    are the last [get_tune] steps of the chain, or all of them if the chain
    is shorter and also if [get_tune] is 0; from an empty selection nothing
    can be drawn, and the call raises [IndexError] unless [nsamples] is
    0. *)
Theorem posterior_sampler_draws
    (rnd : nat -> nat -> nat -> nat) (ch : Draws.chain_t (L := L)) (tune : Z)
    (nsamples seed : nat) :
  let tail := Draws.tail_from tune (Draws.ch_steps ch) in
  suffix tail (Draws.ch_steps ch) /\
  ((0 < tune)%Z -> length tail = Nat.min (Z.to_nat tune) (length (Draws.ch_steps ch))) /\
  (tune = 0%Z -> tail = Draws.ch_steps ch) /\
  (forall rows,
     Draws.posterior_sampler rnd (Ok ch) tune nsamples seed = Ok rows ->
     length rows = nsamples /\
     Forall (fun r => exists st, st ∈ tail /\ r ∈ st) rows) /\
  (Draws.ch_ndim ch <> 0 -> concat tail = [] -> 0 < nsamples ->
   exists msg,
     Draws.posterior_sampler rnd (Ok ch) tune nsamples seed = Raise (IndexError msg)).
Proof.
  intros tail. split; [apply tail_from_suffix |].
  split.
  { intros Ht. unfold tail, Draws.tail_from, last_n.
    destruct (0 <=? tune)%Z eqn:E; [| apply Z.leb_gt in E; lia].
    destruct (Z.to_nat tune =? 0) eqn:E0; [apply Nat.eqb_eq in E0; lia |].
    rewrite length_drop. lia. }
  split.
  { intros ->. reflexivity. }
  split.
  - intros rows H. unfold Draws.posterior_sampler in H. cbn [rbind] in H.
    fold tail in H. unfold Draws.reshape_rows in H.
    destruct (Draws.ch_ndim ch =? 0); [discriminate |]. cbn [rbind] in H.
    unfold Draws.choices in H. apply rmap_ok in H as [Hl Hf].
    rewrite length_seq in Hl. split; [exact Hl |].
    clear Hl. induction Hf as [| i r ks rs Hi Hf IH]; constructor; [| exact IH].
    apply getitem_ok in Hi. apply list_elem_of_lookup_2 in Hi.
    apply list_elem_of_In, in_concat in Hi as (st & Hst & Hr).
    exists st. split; apply list_elem_of_In; assumption.
  - intros Hn He Hk. unfold Draws.posterior_sampler. cbn [rbind]. fold tail.
    unfold Draws.reshape_rows. apply Nat.eqb_neq in Hn. rewrite Hn. cbn [rbind].
    rewrite He. unfold Draws.choices.
    destruct nsamples as [| k]; [lia |]. cbn [seq rmap length].
    unfold getitem. rewrite lookup_nil. eexists. reflexivity.
Qed.

(** ** Entries of products *)

Lemma entry_tabulate (r c : nat) (f : nat -> nat -> num) (i j : nat) :
  i < r -> j < c -> Arr.entry (Arr.tabulate r c f) i j = f i j.
Proof.
  intros Hi Hj. unfold Arr.entry, Arr.tabulate. cbn [rows].
  rewrite list_lookup_fmap, (lookup_seq_lt 0 r i Hi). cbn.
  rewrite list_lookup_fmap, (lookup_seq_lt 0 c j Hj). reflexivity.
Qed.

Lemma map_lookup_all {A} (d : A) (l : list A) :
  map (fun k => default d (l !! k)) (seq 0 (length l)) = l.
Proof.
  apply list_eq. intros k. rewrite list_lookup_fmap.
  destruct (decide (k < length l)) as [Hk | Hk].
  - rewrite (lookup_seq_lt 0 _ k Hk). cbn.
    destruct (lookup_lt_is_Some_2 l k Hk) as [x Hx]. now rewrite Hx.
  - rewrite lookup_seq_ge by lia. cbn. symmetry. apply lookup_ge_None. lia.
Qed.

Lemma dot_comm (a b : vec) :
  (forall x y, mul L x y = mul L y x) -> Arr.dot a b = Arr.dot b a.
Proof.
  intros Hc. unfold Arr.dot. f_equal.
  revert b. induction a as [| x a IH]; intros [| y b]; cbn; try reflexivity.
  now rewrite Hc, IH.
Qed.

(** A row of [a] as a column of its transpose. *)
Lemma col_transpose (a : mat) (j : nat) (r : vec) :
  rows a !! j = Some r -> length r = ncols a ->
  Arr.col j (Arr.transpose a) = r.
Proof.
  intros Hr Hl. unfold Arr.col, Arr.transpose. cbn [rows].
  rewrite map_map. rewrite <- Hl.
  rewrite <- (map_lookup_all (zero L) r) at 2.
  apply map_ext. intros k. unfold Arr.col.
  rewrite list_lookup_fmap, Hr. reflexivity.
Qed.

(** [a @ a.T] is symmetric when the product of numbers commutes. *)
Lemma mmul_transpose_symmetric (a q : mat) :
  Forall (fun r => length r = ncols a) (rows a) ->
  (forall x y, mul L x y = mul L y x) ->
  Arr.mmul a (Arr.transpose a) = Ok q ->
  forall i j, Arr.entry q i j = Arr.entry q j i.
Proof.
  intros Hwf Hc H i j. unfold Arr.mmul in H.
  destruct (ncols a =? nrows (Arr.transpose a)); [| discriminate].
  inversion H; subst q. clear H.
  unfold Arr.entry. cbn [rows].
  change (ncols (Arr.transpose a)) with (length (rows a)).
  rewrite !list_lookup_fmap.
  destruct (rows a !! i) as [ri |] eqn:Ei; destruct (rows a !! j) as [rj |] eqn:Ej; cbn.
  - rewrite !list_lookup_fmap. unfold nrows.
    rewrite (lookup_seq_lt 0 _ j (lookup_lt_Some _ _ _ Ej)).
    rewrite (lookup_seq_lt 0 _ i (lookup_lt_Some _ _ _ Ei)). cbn.
    change (map (fun r : vec => default (zero L) (r !! j))
              (map (fun j1 : nat => Arr.col j1 a) (seq 0 (ncols a))))
      with (Arr.col j (Arr.transpose a)).
    change (map (fun r : vec => default (zero L) (r !! i))
              (map (fun j1 : nat => Arr.col j1 a) (seq 0 (ncols a))))
      with (Arr.col i (Arr.transpose a)).
    rewrite (col_transpose a j rj Ej), (col_transpose a i ri Ei).
    + now apply dot_comm.
    + exact (proj1 (Forall_lookup _ _) Hwf _ _ Ei).
    + exact (proj1 (Forall_lookup _ _) Hwf _ _ Ej).
  - rewrite list_lookup_fmap, lookup_seq_ge; [reflexivity |].
    apply lookup_ge_None in Ej. exact Ej.
  - rewrite list_lookup_fmap, lookup_seq_ge; [reflexivity |].
    apply lookup_ge_None in Ei. exact Ei.
  - reflexivity.
Qed.

(** ** The filter *)

Section Filter.

Import Filtering.
Variable E : econsieve (L := L).
Variable divide : num -> nat -> num.

(** What [create_filter] leaves, read off its body. *)
Lemma create_filter_run
    (P R : option mat) (N : option nat) (s s' : fstate) (r : result unit) :
  create_filter E P R N s = (s', r) ->
  match r with
  | Raise _ => obj s' = obj s
  | Ok _ =>
      exists n en0 en sig p CO,
        match N with
        | Some k => n = k
        | None => exists v, vv (core (obj s)) = Some v /\ n = 5 * length v
        end /\
        EnKF_new E n (obj s) = Ok en0 /\
        obj s' = set_enkf en (obj s) /\
        en_N en = en_N en0 /\
        en_P en = match P with Some p0 => p0 | None => times_ten (en_P en0) end /\
        en_R en = match R with
                  | Some r0 => r0
                  | None => match obs_cov (obj s) with
                            | Some c => c
                            | None => en_R en0
                            end
                  end /\
        SIG (core (obj s)) = Some sig /\ par (core (obj s)) = Some p /\
        Arr.mmul sig (QQ (core (obj s)) p) = Ok CO /\
        Arr.mmul CO (Arr.transpose CO) = Ok (en_Q en) /\
        ((forall x y, mul L x y = mul L y x) ->
         forall i j, Arr.entry (en_Q en) i j = Arr.entry (en_Q en) j i)
  end.
Proof.
  unfold create_filter.
  set (s1 := match Z_obs (obj s) with None => warn no_data s | Some _ => s end).
  assert (Ho : obj s1 = obj s) by (unfold s1; destruct (Z_obs (obj s)); reflexivity).
  rewrite Ho.
  match goal with
  | |- match ?x with _ => _ end = _ -> _ => destruct x as [en | e] eqn:Er
  end.
  - intros H. inversion H; subst s' r. clear H.
    apply rbind_inv in Er as (n & Hn & Er).
    apply rbind_inv in Er as (en0 & Hen & Er).
    apply rbind_inv in Er as (sig & Hsig & Er).
    apply rbind_inv in Er as (p & Hp & Er).
    apply rbind_inv in Er as (CO & HCO & Er).
    apply rbind_inv in Er as (Q & HQ & Er).
    inversion Er; subst en. clear Er.
    exists n, en0, (EnKF (en_N en0)
                     match P with Some p0 => p0 | None => times_ten (en_P en0) end
                     match R with
                     | Some r0 => r0
                     | None => match obs_cov (obj s) with
                               | Some c => c
                               | None => en_R en0
                               end
                     end Q (en_fx en0)), sig, p, CO.
    cbn [en_N en_P en_R en_Q].
    split.
    { destruct N as [k |]; [now inversion Hn |].
      destruct (vv (core (obj s))) as [v |]; [| discriminate]. inversion Hn. eauto. }
    split; [exact Hen |].
    split; [unfold put; cbn [obj]; now rewrite Ho |].
    split; [reflexivity |]. split; [reflexivity |]. split; [reflexivity |].
    split; [destruct (SIG (core (obj s))); [now inversion Hsig | discriminate] |].
    split; [destruct (par (core (obj s))); [now inversion Hp | discriminate] |].
    split; [exact HCO |]. split; [exact HQ |].
    intros Hc. apply (mmul_transpose_symmetric CO Q); [| exact Hc | exact HQ].
    exact (mmul_rows _ _ _ HCO).
  - intros H. inversion H; subst s' r. exact Ho.
Qed.


(** X19.  The covariance of the observations that [create_obs_cov]
    stores has one row and one column for every column of [Z]; on its
    diagonal stand the variances of the columns of [Z] (for each column
    the mean of the squared deviations from its mean) times [scale_obs],
    everywhere else zero, so that it is symmetric; and a filter created
    afterwards without an [R] of its own takes it as its [R] and leaves it
    in [self.obs_cov]. *)
Theorem obs_cov_then_filter
    (scale_obs : num) (P : option mat) (N : option nat) (s s1 s2 : fstate) (z : mat) :
  Z_obs (obj s) = Some z ->
  create_obs_cov divide scale_obs s = (s1, Ok tt) ->
  create_filter E P None N s1 = (s2, Ok tt) ->
  let sig_obs := var0 divide z in
  exists en D,
    obs_cov (obj s1) = Some D /\ obs_cov (obj s2) = Some D /\
    enkf (obj s2) = Some en /\ en_R en = D /\
    length sig_obs = ncols z /\
    nrows D = ncols z /\ ncols D = ncols z /\
    (forall i, i < ncols z ->
       Arr.entry D i i = mul L (var1 divide (Arr.col i z)) scale_obs) /\
    (forall i j, i < ncols z -> j < ncols z -> i <> j -> Arr.entry D i j = zero L) /\
    (forall i j, i < ncols z -> j < ncols z -> Arr.entry D i j = Arr.entry D j i) /\
    warned s2 = warned s.
Proof.
  intros Hz H1 H2 sig_obs.
  assert (Hsig : length sig_obs = ncols z)
    by (unfold sig_obs, var0; now rewrite length_map, length_seq).
  unfold create_obs_cov in H1. rewrite Hz in H1. inversion H1; subst s1. clear H1.
  fold sig_obs in H2 |- *.
  set (D := diagflat (map (fun x => mul L x scale_obs) sig_obs)) in *.
  pose proof (create_filter_run P None N _ _ _ H2) as H. cbv beta iota in H.
  destruct H as (n & en0 & en & sig & p & CO & _ & _ & Ho & _ & _ & HR & _).
  cbn [put obj set_obs_cov obs_cov] in HR, Ho.
  exists en, D. rewrite Ho. cbn [set_enkf obs_cov enkf put obj set_obs_cov].
  split; [reflexivity |]. split; [reflexivity |]. split; [reflexivity |].
  split; [exact HR |].
  assert (Hlen : length (map (fun x => mul L x scale_obs) sig_obs) = ncols z)
    by (now rewrite length_map).
  assert (Hoff : forall i j, i < ncols z -> j < ncols z -> i <> j ->
                   Arr.entry D i j = zero L).
  { intros i j Hi Hj Hne. unfold D, diagflat.
    rewrite entry_tabulate by (rewrite Hlen; assumption).
    apply Nat.eqb_neq in Hne. now rewrite Hne. }
  split; [exact Hsig |].
  split; [unfold D, diagflat, Arr.tabulate, nrows; cbn [rows];
          now rewrite length_map, length_seq |].
  split; [unfold D, diagflat, Arr.tabulate; cbn [ncols]; exact Hlen |].
  split.
  - intros i Hi. unfold D, diagflat.
    rewrite entry_tabulate by (rewrite Hlen; exact Hi).
    rewrite Nat.eqb_refl, list_lookup_fmap. unfold sig_obs, var0.
    rewrite list_lookup_fmap, (lookup_seq_lt 0 _ i Hi). reflexivity.
  - split; [exact Hoff |]. split.
    + intros i j Hi Hj. destruct (decide (i = j)) as [-> | Hne]; [reflexivity |].
      rewrite (Hoff i j Hi Hj Hne), (Hoff j i Hj Hi); [reflexivity | congruence].
    + unfold create_filter in H2. cbn [put obj set_obs_cov Z_obs] in H2.
      rewrite Hz in H2.
      match type of H2 with
      | match ?x with _ => _ end = _ => destruct x
      end; inversion H2; reflexivity.
Qed.



End Filter.

(** ** The covariance that [set_par] gives to a Kalman filter *)

(** X16.  The process-noise covariance that [set_par] installs in an
    attached Kalman filter is symmetric, provided that the product of
    numbers commutes. *)
Theorem set_par_Q_symmetric
    (C : collab (L := L)) (d : dummy_t) (kw : sp_kwargs) (p : vec) (w w' : world)
    (r : pyret) (f : filter_t) :
  sets_vector (self w) d kw p ->
  filter (self w) = Some f ->
  f_name f = "KalmanFilter" ->
  (forall x y, mul L x y = mul L y x) ->
  set_par C d kw w = (w', Ok r) ->
  exists eps Qm,
    filter (self w') = Some (Filter "KalmanFilter" (Some eps) (Some Qm)) /\
    forall i j, Arr.entry Qm i j = Arr.entry Qm j i.
Proof.
  intros Hs Hf Hn Hc H.
  destruct (set_par_anatomy C d kw p w w' r Hs H)
    as (w1 & w2 & Hg & Hr & Hw & _).
  pose proof (get_sys_preserves_filter C _ _ _ _ _ _ Hg) as Hfl.
  apply refresh_filter_ok in Hr. rewrite Hfl, Hf in Hr.
  destruct Hr as (pp & Qm & _ & Hw2 & Hk).
  rewrite Hn in Hk. cbn [String.eqb Ascii.eqb Bool.eqb andb] in Hk.
  destruct Hk as (sig & CO & _ & HCO & HQ).
  exists (QQ (self w1) pp), Qm. rewrite Hw, Hw2. cbn [self set_filter filter].
  rewrite Hn. split; [reflexivity |].
  apply (mmul_transpose_symmetric CO Qm); [| exact Hc | exact HQ].
  exact (mmul_rows _ _ _ HCO).
Qed.

End Rest.

(** * The further properties at the small model *)

Section AtToyMore.

Import Toy ToyMore.
Local Open Scope Q_scope.

(** [l_max=1] is corrected to 2 and stored as 3. *)
Lemma stores_settings_at_toy :
  lks (self (fst (get_sys C0 None kw_depths 0 w0))) = Some (3%Z, 5%Z).
Proof.
  destruct (get_sys_stores_settings C0 None kw_depths 0 w0 _ _ (surjective_pairing _))
    as (H & _).
  exact H.
Defined.

(** The model without a constraint is refused after its parameters have
    been stored. *)
Lemma parse_outcomes_at_toy :
  par (self (fst (get_sys C0 None gs_defaults 0 w_free))) = Some [1 # 2; 3 # 2; -1 # 100] /\
  snd (get_sys C0 None gs_defaults 0 w_free)
    = Raise (NotImplementedError "Package is only meant to work with OBCs").
Proof.
  pose proof (get_sys_parse_outcomes C0 None gs_defaults 0 w_free _ _
                (surjective_pairing _)) as H.
  cbv zeta beta iota in H.
  assert (E : parsed (self w_free) (p0 (self w_free)) = Ok [1 # 2; 3 # 2; -1 # 100])
    by (vm_compute; reflexivity).
  rewrite E in H. destruct H as (H1 & _ & H3).
  split; [exact H1 |]. apply H3. reflexivity.
Defined.

Lemma shapes_at_toy :
  exists s vs h0 d0 sig n,
    sys (self w_compiled) = Some s /\ vv (self w_compiled) = Some vs /\
    hx (self w_compiled) = Some (h0, d0) /\ SIG (self w_compiled) = Some sig /\
    nrows (sys_N2 s) = n /\ ncols (sys_N2 s) = n /\
    nrows (sys_A2 s) = n /\ ncols (sys_A2 s) = n /\
    ncols (sys_J2 s) = n /\ length (sys_cx s) = n /\ length (sys_b2 s) = n /\
    dim_v (self w_compiled) = Some (length vs) /\
    ncols h0 = length vs /\ nrows sig = length vs /\ (length vs <= n)%nat.
Proof.
  apply (get_sys_shapes C0 None gs_defaults 0 w0 w_compiled).
  apply (returned (get_sys C0 None gs_defaults 0 w0)). vm_compute. reflexivity.
Defined.

Lemma stable_at_toy :
  exists pm ev,
    precalc_mat (self w_compiled) = Some pm /\
    eig QL (Mat (ncols pm) (last_n (ncols pm) (rows pm))) = Ok ev /\
    Forall (fun e => ltb QL (one QL) e = false) ev.
Proof.
  apply (get_sys_returns_stable C0 None gs_defaults 0 w0 w_compiled).
  - apply (returned (get_sys C0 None gs_defaults 0 w0)). vm_compute. reflexivity.
  - vm_compute. reflexivity.
Defined.

(** With [reduce_sys] the lagged copy [z] is dropped. *)
Lemma reduced_at_toy :
  exists om,
    out_msk (self (fst (get_sys C0 None kw_reduce 0 w0))) = Some om /\
    length om = length (variables (self w0)) /\
    vv (self (fst (get_sys C0 None kw_reduce 0 w0)))
      = Some (compress (vnot om) (variables (self w0))) /\
    dim_v (self (fst (get_sys C0 None kw_reduce 0 w0))) = Some (count_true (vnot om)).
Proof.
  apply (get_sys_reduced_variables C0 None kw_reduce 0 w0).
  - apply (returned (get_sys C0 None kw_reduce 0 w0)). vm_compute. reflexivity.
  - vm_compute. reflexivity.
Defined.

(** A persistence of 1.5 is explosive. *)
Lemma explosive_at_toy :
  exists w',
    get_sys C0 (Some p_explosive) kw_tests 0 w0 =
      (w', Raise (ValueError
                    (explosive_msg
                       (count_true (map (fun e => ltb QL (one QL) e) [3 # 2]))))).
Proof.
  apply (get_sys_explosive C0 (Some p_explosive) kw_tests 0 w0
           (fst (get_sys C0 (Some p_explosive) (ignoring kw_tests) 0 w0))
           (Mat 1 [[3 # 2]]) [3 # 2]).
  - reflexivity.
  - apply (returned (get_sys C0 (Some p_explosive) (ignoring kw_tests) 0 w0)).
    vm_compute. reflexivity.
  - vm_compute. reflexivity.
  - vm_compute. reflexivity.
  - apply Exists_cons_hd. vm_compute. reflexivity.
Defined.

Lemma by_name_at_toy :
  get_par C0 (DStr (L := QL) "rho") gp_defaults w_compiled
    = (World (self w_compiled) (stdout w_compiled) (heap w_compiled), Ok (RNum (L := QL) (1 # 2))).
Proof.
  destruct (get_par_by_name C0 "rho" gp_defaults w_compiled
              [1 # 2; 3 # 2; -1 # 100] [1 # 2; 3 # 2; -1 # 100] 0%nat (1 # 2))
    as [H _].
  - vm_compute. reflexivity.
  - reflexivity.
  - apply H; [vm_compute; reflexivity | reflexivity].
Defined.

(** The first parameter set to 0.7 and read back. *)
Lemma set_by_name_at_toy :
  exists w' r,
    set_par C0 (DStr (L := QL) "rho") kw_rho w_compiled = (w', Ok r) /\
    r = RVec (L := QL) [7 # 10; 3 # 2; -1 # 100] /\
    get_par C0 (DStr (L := QL) "rho") gp_defaults w' = (w', Ok (RNum (L := QL) (7 # 10))).
Proof.
  destruct (returned_some (set_par C0 (DStr (L := QL) "rho") kw_rho w_compiled))
    as [r E]; [vm_compute; reflexivity |].
  exists (fst (set_par C0 (DStr (L := QL) "rho") kw_rho w_compiled)), r.
  split; [exact E |].
  destruct (set_par_by_name_roundtrip C0 "rho" (7 # 10) kw_rho w_compiled
              (fst (set_par C0 (DStr (L := QL) "rho") kw_rho w_compiled)) r 0%nat
              eq_refl eq_refl) as (Hr & Hg & _).
  - vm_compute. reflexivity.
  - vm_compute. lia.
  - exact E.
  - split; [| exact Hg]. rewrite Hr. reflexivity.
Defined.

(** The estimated subset set. *)
Lemma subset_at_toy :
  exists w' p,
    set_par C0 (DVec (L := QL) [1 # 3; 5 # 4]) sp_defaults w_compiled
      = (w', Ok (RVec (L := QL) p)) /\
    par (self w') = Some p /\
    take_idx p (prior_arg (self w_compiled)) = Ok [1 # 3; 5 # 4].
Proof.
  destruct (returned_some
              (set_par C0 (DVec (L := QL) [1 # 3; 5 # 4]) sp_defaults w_compiled))
    as [r E]; [vm_compute; reflexivity |].
  destruct (set_par_subset C0 [1 # 3; 5 # 4] sp_defaults w_compiled
              (fst (set_par C0 (DVec (L := QL) [1 # 3; 5 # 4]) sp_defaults w_compiled)) r
              eq_refl)
    as (p & Hr & Hp & _ & Ht & _).
  - vm_compute. lia.
  - vm_compute. reflexivity.
  - assert (E2 : prior_arg (self w_compiled) = [0; 1]%nat) by (vm_compute; reflexivity).
    rewrite E2. apply NoDup_ListNoDup.
    constructor; [simpl; intros [H | []]; discriminate H |].
    constructor; [simpl; tauto | constructor].
  - exact E.
  - exists (fst (set_par C0 (DVec (L := QL) [1 # 3; 5 # 4]) sp_defaults w_compiled)), p.
    rewrite <- Hr. split; [exact E | split; [exact Hp | exact Ht]].
Defined.

(** An explosive vector stays in [self.par] after [set_par] has raised. *)
Lemma failure_at_toy :
  exists w1,
    set_par C0 (DVec (L := QL) p_explosive) sp_defaults w_compiled
      = (w1, Raise (ValueError "Explosive dynamics detected: 1 EV(s) > 1")) /\
    par (self w1) = Some p_explosive /\ ppar (self w1) = Some p_explosive.
Proof.
  eexists.
  apply (set_par_failure_keeps_vector C0 (DVec (L := QL) p_explosive) sp_defaults
           p_explosive p_explosive w_compiled).
  - apply by_full_vector; reflexivity.
  - vm_compute. reflexivity.
  - apply (raised (get_sys C0 (Some p_explosive) (sp_args (sp_defaults (L := QL)))
                     (sp_verbose (sp_defaults (L := QL))) w_compiled)).
    vm_compute. reflexivity.
Defined.

(** With a particle filter attached [set_par] compiles and then
    raises. *)
Lemma particle_at_toy :
  exists (pp : list Q) (w1 : world (L := QL)),
    get_sys C0 (Some [1 # 3; 3 # 2; -1 # 100]) gs_defaults 0 w_particle = (w1, Ok tt) /\
    par (self w1) = Some [1 # 3; 3 # 2; -1 # 100] /\
    set_par C0 (DVec (L := QL) [1 # 3; 3 # 2; -1 # 100]) sp_defaults w_particle
      = (World
           (set_filter
              (Some (Filter (L := QL) "ParticleFilter" (Some (QQ (self w_particle) pp)) None))
              (self w1))
           (stdout w1) (heap w1),
         Raise (NotImplementedError "")).
Proof.
  assert (Hg : get_sys C0 (Some [1 # 3; 3 # 2; -1 # 100]) gs_defaults 0 w_particle
               = (fst (get_sys C0 (Some [1 # 3; 3 # 2; -1 # 100]) gs_defaults 0 w_particle),
                  Ok tt)).
  { apply (returned (get_sys C0 (Some [1 # 3; 3 # 2; -1 # 100]) gs_defaults 0 w_particle)).
    vm_compute. reflexivity. }
  destruct (set_par_particle_filter C0 (DVec (L := QL) [1 # 3; 3 # 2; -1 # 100])
              sp_defaults [1 # 3; 3 # 2; -1 # 100] w_particle
              (fst (get_sys C0 (Some [1 # 3; 3 # 2; -1 # 100]) gs_defaults 0 w_particle))
              (Filter (L := QL) "ParticleFilter" None None))
    as (pp & _ & Hp & Hs).
  - apply by_full_vector; reflexivity.
  - reflexivity.
  - reflexivity.
  - exact Hg.
  - exists pp, (fst (get_sys C0 (Some [1 # 3; 3 # 2; -1 # 100]) gs_defaults 0 w_particle)).
    split; [exact Hg | split; [exact Hp | exact Hs]].
Defined.

(** The calibration read from the model whose bound was moved. *)
Lemma calib_at_toy :
  par (self w_mode) = Some [1 # 2; 3 # 2; -1 # 50] /\
  par_fix (self w_mode) = [1 # 2; 3 # 2; -1 # 100] /\
  exists w',
    get_par C0 (DStr (L := QL) "calib") gp_defaults w_mode
      = (w', Ok (RVec (L := QL) (par_fix (self w_mode)))) /\
    par (self w') = Some (par_fix (self w_mode)) /\
    sys (self w') = sys (self w_mode).
Proof.
  split; [reflexivity |]. split; [vm_compute; reflexivity |].
  destruct (get_par_calib C0 gp_defaults w_mode [1 # 2; 3 # 2; -1 # 50]
              [1 # 2; 3 # 2; -1 # 50] [1 # 2; 3 # 2])
    as (w' & Hg & Hp & Hs & _).
  - reflexivity.
  - vm_compute. reflexivity.
  - vm_compute. reflexivity.
  - reflexivity.
  - vm_compute. reflexivity.
  - reflexivity.
  - reflexivity.
  - exists w'. split; [exact Hg | split; [exact Hp | exact Hs]].
Defined.

(** The mode over the calibration and over the current vector. *)
Lemma best_and_mode_at_toy :
  get_par C0 (DStr (L := QL) "mode") gp_defaults w_mode
    = (World (L := QL) (set_par_attr (Some (par_fix (self w_mode))) (self w_mode))
         (stdout w_mode) (heap w_mode),
       Ok (RVec (L := QL) [1 # 4; 5 # 4; -1 # 100])) /\
  get_par C0 (DStr (L := QL) "best") gp_defaults w_mode
    = (World (L := QL) (set_par_attr (Some (par_fix (self w_mode))) (self w_mode))
         (stdout w_mode) (heap w_mode),
       Ok (RVec (L := QL) [1 # 4; 5 # 4; -1 # 50])).
Proof.
  assert (E1 : put_idx (par_fix (self w_mode)) (prior_arg (self w_mode)) [1 # 4; 5 # 4]
               = Ok [1 # 4; 5 # 4; -1 # 100]) by (vm_compute; reflexivity).
  assert (E2 : put_idx (A := num QL) [1 # 2; 3 # 2; -1 # 50] (prior_arg (self w_mode)) [1 # 4; 5 # 4]
               = Ok [1 # 4; 5 # 4; -1 # 50]) by (vm_compute; reflexivity).
  destruct (get_par_best_and_mode C0 gp_defaults w_mode [1 # 2; 3 # 2; -1 # 50]
              [1 # 2; 3 # 2; -1 # 50] [1 # 4; 5 # 4]) as [Hm Hb].
  - reflexivity.
  - vm_compute. reflexivity.
  - vm_compute. reflexivity.
  - vm_compute. reflexivity.
  - vm_compute. reflexivity.
  - reflexivity.
  - reflexivity.
  - reflexivity.
  - reflexivity.
  - reflexivity.
  - rewrite E1 in Hm. rewrite E2 in Hb. split; [exact Hm | exact Hb].
Defined.

(** A full vector handed to [get_par]. *)
Lemma vector_at_toy :
  exists r q,
    get_par C0 (DVec (L := QL) [9 # 10; 4 # 5; 1]) gp_defaults w_compiled
      = (w_compiled, Ok r) /\
    r = RVec (L := QL) q /\
    q !! 0%nat = Some (9 # 10) /\ q !! 1%nat = Some (4 # 5) /\ q !! 2%nat = Some (-1 # 100).
Proof.
  destruct (returned_some
              (get_par C0 (DVec (L := QL) [9 # 10; 4 # 5; 1]) gp_defaults w_compiled))
    as [r E]; [vm_compute; reflexivity |].
  assert (Ea : prior_arg (self w_compiled) = [0; 1]%nat) by (vm_compute; reflexivity).
  destruct (get_par_vector C0 [9 # 10; 4 # 5; 1] gp_defaults w_compiled
              (fst (get_par C0 (DVec (L := QL) [9 # 10; 4 # 5; 1]) gp_defaults w_compiled))
              [1 # 2; 3 # 2; -1 # 100] [1 # 2; 3 # 2; -1 # 100] r)
    as (Hw & q & Hr & _ & Hin & Hout).
  - vm_compute. reflexivity.
  - reflexivity.
  - vm_compute. reflexivity.
  - reflexivity.
  - reflexivity.
  - exact E.
  - exists r, q. rewrite Hw in E. split; [exact E |]. split; [exact Hr |].
    rewrite Ea in Hin, Hout.
    split; [| split].
    + apply (Hin 0%nat). apply list_elem_of_here.
    + apply (Hin 1%nat). apply list_elem_of_further, list_elem_of_here.
    + apply (Hout 2%nat). intros H.
      apply elem_of_cons in H as [H | H]; [discriminate H |].
      apply elem_of_cons in H as [H | H]; [discriminate H |].
      inversion H.
Defined.

(** The covariance of the shocks of the compiled model. *)
Lemma cov_at_toy :
  exists pp w1,
    get_sys C0 (Some [1 # 2; 3 # 2; -1 # 100]) gs_defaults 0 w_compiled = (w1, Ok tt) /\
    ppar (self w1) = Some pp /\
    get_cov C0 None gp_defaults w_compiled
      = (w1, Ok (RMat (L := QL) (QQ (self w_compiled) pp))).
Proof.
  assert (Hg : get_sys C0 (Some [1 # 2; 3 # 2; -1 # 100]) gs_defaults 0 w_compiled
               = (fst (get_sys C0 (Some [1 # 2; 3 # 2; -1 # 100]) gs_defaults 0 w_compiled),
                  Ok tt)).
  { apply (returned (get_sys C0 (Some [1 # 2; 3 # 2; -1 # 100]) gs_defaults 0 w_compiled)).
    vm_compute. reflexivity. }
  destruct (get_cov_compiles C0 None gp_defaults w_compiled
              [1 # 2; 3 # 2; -1 # 100] [1 # 2; 3 # 2; -1 # 100]) as [_ H].
  - vm_compute. reflexivity.
  - vm_compute. reflexivity.
  - vm_compute. reflexivity.
  - reflexivity.
  - reflexivity.
  - destruct (H _ Hg) as (pp & Hpp & _ & Hc).
    exists pp, (fst (get_sys C0 (Some [1 # 2; 3 # 2; -1 # 100]) gs_defaults 0 w_compiled)).
    split; [exact Hg | split; [exact Hpp | exact Hc]].
Defined.

Lemma qmul_comm (x y : Q) : mul QL x y = mul QL y x.
Proof. apply Qred_complete, Qmult_comm. Qed.

(** The covariance given to the Kalman filter of the small model. *)
Lemma Q_symmetric_at_toy :
  exists w' r eps Qm,
    set_par C0 (DVec (L := QL) [1 # 3; 3 # 2; -1 # 100]) sp_defaults w_filter = (w', Ok r) /\
    filter (self w') = Some (Filter (L := QL) "KalmanFilter" (Some eps) (Some Qm)) /\
    forall i j, Arr.entry Qm i j = Arr.entry Qm j i.
Proof.
  destruct (returned_some
              (set_par C0 (DVec (L := QL) [1 # 3; 3 # 2; -1 # 100]) sp_defaults w_filter))
    as [r E]; [vm_compute; reflexivity |].
  destruct (set_par_Q_symmetric C0 (DVec (L := QL) [1 # 3; 3 # 2; -1 # 100]) sp_defaults
              [1 # 3; 3 # 2; -1 # 100] w_filter
              (fst (set_par C0 (DVec (L := QL) [1 # 3; 3 # 2; -1 # 100]) sp_defaults w_filter))
              r (Filter (L := QL) "KalmanFilter" None None))
    as (eps & Qm & Hf & Hq).
  - apply by_full_vector; reflexivity.
  - reflexivity.
  - reflexivity.
  - exact qmul_comm.
  - exact E.
  - exists (fst (set_par C0 (DVec (L := QL) [1 # 3; 3 # 2; -1 # 100]) sp_defaults w_filter)),
      r, eps, Qm.
    split; [exact E | split; [exact Hf | exact Hq]].
Defined.


(** The covariance of the observations of the small model, whose one
    series has the variance 1/6, and the filter that takes it. *)
Lemma obs_cov_at_toy :
  exists (s1 s2 : Filtering.fstate (L := QL)) (en : Filtering.enkf_t (L := QL))
         (D : matrix (num QL)),
    Filtering.create_obs_cov (L := QL) qdivide (1 # 10) s_plain = (s1, Ok tt) /\
    Filtering.create_filter econ None None None s1 = (s2, Ok tt) /\
    Filtering.obs_cov (Filtering.obj s2) = Some D /\
    Filtering.enkf (Filtering.obj s2) = Some en /\
    Filtering.en_R en = D /\
    Filtering.var0 (L := QL) qdivide observed = [1 # 6] /\
    Arr.entry (L := QL) D 0 0 = 1 # 60.
Proof.
  assert (H1 : Filtering.create_obs_cov (L := QL) qdivide (1 # 10) s_plain
               = (fst (Filtering.create_obs_cov (L := QL) qdivide (1 # 10) s_plain), Ok tt)).
  { apply (returned (Filtering.create_obs_cov (L := QL) qdivide (1 # 10) s_plain)).
    vm_compute. reflexivity. }
  assert (H2 : Filtering.create_filter econ None None None
                 (fst (Filtering.create_obs_cov (L := QL) qdivide (1 # 10) s_plain))
               = (fst (Filtering.create_filter econ None None None
                         (fst (Filtering.create_obs_cov (L := QL) qdivide (1 # 10) s_plain))),
                  Ok tt)).
  { apply (returned (Filtering.create_filter econ None None None
                       (fst (Filtering.create_obs_cov (L := QL) qdivide (1 # 10) s_plain)))).
    vm_compute. reflexivity. }
  assert (Hv : mul QL (Filtering.var1 (L := QL) qdivide (Arr.col (L := QL) 0 observed))
                 (1 # 10) = 1 # 60) by (vm_compute; reflexivity).
  pose proof (obs_cov_then_filter econ qdivide (1 # 10) None None s_plain _ _ observed
                eq_refl H1 H2) as H.
  cbv zeta in H.
  destruct H as (en & D & _ & HD & Hen & HR & _ & _ & _ & Hdiag & _).
  exists (fst (Filtering.create_obs_cov (L := QL) qdivide (1 # 10) s_plain)),
    (fst (Filtering.create_filter econ None None None
            (fst (Filtering.create_obs_cov (L := QL) qdivide (1 # 10) s_plain)))), en, D.
  split; [exact H1 |]. split; [exact H2 |]. split; [exact HD |].
  split; [exact Hen |]. split; [exact HR |].
  split; [vm_compute; reflexivity |].
  rewrite <- Hv. apply (Hdiag 0%nat). vm_compute. lia.
Defined.

(** Three draws from the last two steps of a chain of three. *)
Lemma draws_at_toy :
  exists rows,
    Draws.posterior_sampler (L := QL) (fun _ n i => i mod n) (Ok chain3) 2 3 0 = Ok rows /\
    length rows = 3%nat /\
    Forall (fun r => exists st, st ∈ Draws.tail_from 2 (Draws.ch_steps chain3) /\ r ∈ st) rows.
Proof.
  assert (E : Draws.posterior_sampler (L := QL) (fun _ n i => i mod n) (Ok chain3) 2 3 0
              = Ok [[3]; [4]; [5]]) by (vm_compute; reflexivity).
  destruct (posterior_sampler_draws (L := QL) (fun _ n i => i mod n) chain3 2 3 0)
    as (_ & _ & _ & H & _).
  destruct (H _ E) as [Hl Hf].
  exists [[3]; [4]; [5]]. split; [exact E | split; [exact Hl | exact Hf]].
Defined.


(** The initial values completed from the calibration. *)
Lemma init_at_toy :
  exists w',
    get_par C0 (DStr (L := QL) "init") gp_defaults w_init
      = (w', Ok (RVec (L := QL) [1 # 2; 1 # 5; -1 # 100])) /\
    fd_init_value (fdict (self w')) = Some [Some (1 # 2); Some (1 # 5)].
Proof.
  assert (E : put_idx (A := num QL) (par_fix (self w_init)) (prior_arg (self w_init))
                (zip_with (fun o y => default y o) [None; Some (1 # 5)] [1 # 2; 3 # 2])
              = Ok [1 # 2; 1 # 5; -1 # 100]) by (vm_compute; reflexivity).
  destruct (get_par_init C0 gp_defaults w_init [1 # 2; 3 # 2; -1 # 100]
              [1 # 2; 3 # 2; -1 # 100] [1 # 2; 3 # 2] [None; Some (1 # 5)])
    as (w' & v & Hg & Hi & Hl & Hgiven & Hmiss & _).
  - vm_compute. reflexivity.
  - vm_compute. reflexivity.
  - vm_compute. reflexivity.
  - reflexivity.
  - reflexivity.
  - vm_compute. reflexivity.
  - reflexivity.
  - reflexivity.
  - reflexivity.
  - reflexivity.
  - assert (Hv : v = [1 # 2; 1 # 5]).
    { destruct v as [| a [| b [| c v]]]; try discriminate Hl.
      pose proof (Hmiss 0%nat eq_refl) as H0.
      pose proof (Hgiven 1%nat (1 # 5) eq_refl) as H1.
      injection H0 as ->. injection H1 as ->. reflexivity. }
    subst v. exists w'. split; [| exact Hi].
    rewrite Hg.
    change (zip_with (fun o y => default y o) [None; Some (1 # 5)] [1 # 2; 3 # 2])
      with [1 # 2; 1 # 5] in E.
    rewrite E. reflexivity.
Defined.

(** The means of a uniform prior and of one of the kind
    [inv_gamma_dynare]. *)
Lemma prior_means_at_toy :
  snd (get_par C0 (DStr (L := QL) "prior_mean") gp_defaults w_prior)
    = Ok (RVec (L := QL) [1 # 2; 1 # 10; -1 # 100]) /\
  snd (get_par C0 (DStr (L := QL) "adj_prior_mean") gp_defaults w_prior)
    = Ok (RVec (L := QL) [1 # 2; 1; -1 # 100]).
Proof.
  assert (E1 : put_idx (A := num QL) (par_fix (self w_prior)) (prior_arg (self w_prior))
                 (map (fun kv => prior_mean false (snd kv)) (prior (self w_prior)))
               = Ok [1 # 2; 1 # 10; -1 # 100]) by (vm_compute; reflexivity).
  assert (E2 : put_idx (A := num QL) (par_fix (self w_prior)) (prior_arg (self w_prior))
                 (map (fun kv => prior_mean true (snd kv)) (prior (self w_prior)))
               = Ok [1 # 2; 1; -1 # 100]) by (vm_compute; reflexivity).
  destruct (get_par_prior_means C0 gp_defaults w_prior [1 # 2; 3 # 2; -1 # 100]
              [1 # 2; 3 # 2; -1 # 100]) as (Hm & Hadj & _).
  - vm_compute. reflexivity.
  - vm_compute. reflexivity.
  - vm_compute. reflexivity.
  - vm_compute. reflexivity.
  - vm_compute. reflexivity.
  - reflexivity.
  - reflexivity.
  - reflexivity.
  - rewrite Hm, Hadj. cbn [snd]. rewrite E1, E2. split; reflexivity.
Defined.

(** [get_par] on the small model before it was compiled. *)
Lemma fresh_object_at_toy :
  exists w1,
    get_sys C0 None gs_defaults 0 w0 = (w1, Ok tt) /\
    par (self w1) = Some (p0 (self w0)) /\
    get_par C0 (DNone (L := QL)) gp_defaults w0 = get_par C0 DNone gp_defaults w1.
Proof.
  assert (Hg : get_sys C0 None gs_defaults 0 w0 = (fst (get_sys C0 None gs_defaults 0 w0), Ok tt)).
  { apply (returned (get_sys C0 None gs_defaults 0 w0)). vm_compute. reflexivity. }
  destruct (get_par_fresh_object C0 (DNone (L := QL)) gp_defaults w0 eq_refl) as [_ H].
  destruct (H _ Hg) as [Hp He].
  exists (fst (get_sys C0 None gs_defaults 0 w0)).
  split; [exact Hg | split; [exact Hp | exact He]].
Defined.

(** The constrained rate of the small model is kept by the mask. *)
Lemma constrained_variable_at_toy :
  exists pp cv in_x i,
    parsed (self w0) (p0 (self w0)) = Ok pp /\
    const_var (self w0) = Some cv /\
    vor (vnot (Arr.fast0_cols (AA (self w0) pp)))
        (vnot (Arr.fast0 (first_n (length (variables (self w0))) (bb (self w0) pp))))
      = Ok in_x /\
    variables (self w0) !! i = Some cv /\ in_x !! i = Some true.
Proof.
  assert (Hg : get_sys C0 None gs_defaults 0 w0 = (fst (get_sys C0 None gs_defaults 0 w0), Ok tt)).
  { apply (returned (get_sys C0 None gs_defaults 0 w0)). vm_compute. reflexivity. }
  destruct (get_sys_keeps_constrained_variable C0 None gs_defaults 0 w0 _ Hg)
    as (pp & cv & in_x & i & H1 & H2 & H3 & H4 & H5 & _).
  exists pp, cv, in_x, i. repeat split; assumption.
Defined.

End AtToyMore.
